(** * Ingestion pipeline of realtime-user-analytics-kafka

    A shallow embedding of
      - [src/consumer/event_storage_service.py]  (EventStorageService)
      - [src/consumer/user_event_consumer.py]    (ConsumerState, the
        consumption loop of [main])
      - [src/consumer/kafka_consumer_service.py] (connect, consume_message,
        commit_offset, close)
      - [src/database/models.py]                 (the four tables)

    Modelling conventions.
      - Python floats and Decimals are extended rationals ([num]): a finite
        value is an exact rational, next to +inf, -inf and NaN.  Rounding
        is not modelled: neither that of finite float arithmetic nor that
        of the column [total_spent], which a database stores to two
        decimals.  No statement below depends on the value of
        [total_spent].
      - A [Payload] is a decoded JSON object whose fields [user_id],
        [event_id], [event_type], [timestamp] and the four user
        attributes, where present, hold strings, as the payload schema
        declares them: they are [option string] (absent key = [None]).  An
        object that carries one of these keys with [null] or with a value
        of another type is outside [Payload].  [amount], [duration] and
        [event_metadata], which the code inspects dynamically, are
        arbitrary Python values ([pyval]).  A record whose JSON is not an
        object at all reaches the loop as [NotAnObject].
      - Python builtins that are not code of this repository
        ([datetime.fromisoformat], [float] on a [str], [str], [repr],
        [Decimal] on a [str]) are the fields of the class [Builtins].
      - A SQLAlchemy session is a pair of the committed database and the
        session's pending view; every statement sent to the database may
        fail, as told by a fault oracle [dbop -> option dberr].  Column
        typing and constraint checks of a concrete database reach the
        model only through that oracle. *)

From Stdlib Require Import String Ascii List ZArith QArith Qcanon Bool Lia.
From Stdlib Require Import DecimalString.
Import ListNotations.
Local Open Scope string_scope.

(* ===================================================================== *)
(** ** Strings: [str.lower()] and the [in] operator                      *)
(* ===================================================================== *)

Definition lower_ascii (c : ascii) : ascii :=
  let n := nat_of_ascii c in
  if (65 <=? n)%nat && (n <=? 90)%nat then ascii_of_nat (n + 32) else c.

Fixpoint lower (s : string) : string :=
  match s with
  | EmptyString => EmptyString
  | String c s' => String (lower_ascii c) (lower s')
  end.

(** [contains needle hay] is Python's [needle in hay] on strings. *)
Fixpoint contains (needle hay : string) : bool :=
  if String.prefix needle hay then true
  else match hay with
       | EmptyString => false
       | String _ hay' => contains needle hay'
       end.

(* ===================================================================== *)
(** ** Numbers                                                           *)
(* ===================================================================== *)

Inductive num : Type :=
| Fin (q : Qc)
| PInf
| NInf
| NaN.

Definition num_of_Z (z : Z) : num := Fin (Q2Qc (inject_Z z)).

(** [x <= 0] on floats: every comparison with NaN is false. *)
Definition num_le0 (x : num) : bool :=
  match x with
  | Fin q => Qle_bool q 0
  | PInf => false
  | NInf => true
  | NaN => false
  end.

(** Truthiness of a float: only zero is false. *)
Definition num_truthy (x : num) : bool :=
  match x with
  | Fin q => negb (Qeq_bool q 0)
  | _ => true
  end.

Definition num_add (x y : num) : num :=
  match x, y with
  | NaN, _ | _, NaN => NaN
  | PInf, NInf | NInf, PInf => NaN
  | PInf, _ | _, PInf => PInf
  | NInf, _ | _, NInf => NInf
  | Fin a, Fin b => Fin (a + b)
  end.

(** [x * n] for a float [x] and a count [n]. *)
Definition num_mul_nat (x : num) (n : nat) : num :=
  match x with
  | Fin a => Fin (a * Q2Qc (inject_Z (Z.of_nat n)))
  | NaN => NaN
  | PInf => match n with O => NaN | S _ => PInf end
  | NInf => match n with O => NaN | S _ => NInf end
  end.

(** [x / n] for a float [x] and a count [n].  The code only divides by
    [old_duration_count + 1]; Python raises ZeroDivisionError at [n = 0],
    which has no caller here. *)
Definition num_div_nat (x : num) (n : nat) : num :=
  match x with
  | Fin a => Fin (a / Q2Qc (inject_Z (Z.of_nat n)))
  | other => other
  end.

(* ===================================================================== *)
(** ** Python values and exceptions                                      *)
(* ===================================================================== *)

#[warnings="-register-all"]
Inductive pyval : Type :=
| VNone
| VBool (b : bool)
| VNum (x : num)
| VStr (s : string)
| VList (l : list pyval)
| VDict (d : list (string * pyval)).

(** Truthiness, as tested by [if v:]. *)
Definition truthy (v : pyval) : bool :=
  match v with
  | VNone => false
  | VBool b => b
  | VNum x => num_truthy x
  | VStr s => negb (String.eqb s "")
  | VList l => match l with [] => false | _ => true end
  | VDict d => match d with [] => false | _ => true end
  end.

Definition is_None (v : pyval) : bool :=
  match v with VNone => true | _ => false end.

Inductive exn : Type :=
| ValueError (msg : string)
| TypeError (msg : string)
| OverflowError (msg : string)
| InvalidOperation (msg : string)
| IntegrityError (msg : string)
| SQLAlchemyError (cls : string) (msg : string).

(** [type(e).__name__] *)
Definition type_name (e : exn) : string :=
  match e with
  | ValueError _ => "ValueError"
  | TypeError _ => "TypeError"
  | OverflowError _ => "OverflowError"
  | InvalidOperation _ => "InvalidOperation"
  | IntegrityError _ => "IntegrityError"
  | SQLAlchemyError cls _ => cls
  end.

(** [str(e)] *)
Definition exn_str (e : exn) : string :=
  match e with
  | ValueError m | TypeError m | OverflowError m | InvalidOperation m
  | IntegrityError m | SQLAlchemyError _ m => m
  end.

(** [isinstance(e, ValueError)], as tested by [except ValueError]. *)
Definition is_ValueError (e : exn) : bool :=
  match e with ValueError _ => true | _ => false end.

(** [isinstance(e, (TypeError, ValueError))], as tested by
    [except (TypeError, ValueError)]. *)
Definition is_TypeError_or_ValueError (e : exn) : bool :=
  match e with ValueError _ | TypeError _ => true | _ => false end.

Definition datetime := Z.

Class Builtins : Type := {
  (** [datetime.fromisoformat(s)]; [None] stands for ValueError *)
  fromisoformat : string -> option datetime;
  (** [float(s)] on a [str]; [None] stands for ValueError *)
  float_of_str : string -> option num;
  (** [Decimal(s)]; [None] stands for decimal.InvalidOperation *)
  Decimal_of_str : string -> option num;
  (** [str(v)], also the rendering of [v] inside an f-string *)
  py_str : pyval -> string;
  (** [repr(v)] *)
  py_repr : pyval -> string;
  (** the rendering of a set of field names inside an f-string *)
  str_set : list string -> string
}.

(* ===================================================================== *)
(** ** A concrete instance of the builtins                               *)
(* ===================================================================== *)

(** Enough of the builtins to run the service on concrete payloads:
    timestamps of the shape [YYYY-MM-DDTHH:MM:SS], numbers written as
    signed decimals, [inf] and [nan]. *)

Definition uint_of (s : string) : option Z :=
  match s with
  | EmptyString => None
  | _ => option_map Z.of_uint (NilEmpty.uint_of_string s)
  end.

Definition sample_fromisoformat (s : string) : option datetime :=
  if negb (Nat.eqb (String.length s) 19) then None
  else if negb (String.eqb (substring 4 1 s) "-" && String.eqb (substring 7 1 s) "-"
                && String.eqb (substring 10 1 s) "T"
                && String.eqb (substring 13 1 s) ":"
                && String.eqb (substring 16 1 s) ":") then None
  else
    match uint_of (substring 0 4 s), uint_of (substring 5 2 s),
          uint_of (substring 8 2 s), uint_of (substring 11 2 s),
          uint_of (substring 14 2 s), uint_of (substring 17 2 s) with
    | Some y, Some mo, Some d, Some h, Some mi, Some se =>
        Some (((((y * 100 + mo) * 100 + d) * 100 + h) * 100 + mi) * 100 + se)%Z
    | _, _, _, _, _, _ => None
    end.

(** An unsigned decimal [int] or [int.frac]. *)
Definition unsigned_decimal (s : string) : option Q :=
  match index 0 "." s with
  | None => option_map inject_Z (uint_of s)
  | Some i =>
      let frac := substring (i + 1) (String.length s - i - 1) s in
      match uint_of (substring 0 i s), uint_of frac with
      | Some a, Some b =>
          let scale := (10 ^ Z.of_nat (String.length frac))%Z in
          Some (Qmake (a * scale + b) (Z.to_pos scale))
      | _, _ => None
      end
  end.

Definition sample_float_of_str (s : string) : option num :=
  if String.eqb s "inf" then Some PInf
  else if String.eqb s "-inf" then Some NInf
  else if String.eqb s "nan" then Some NaN
  else match s with
       | String "-" s' => option_map (fun q => Fin (Q2Qc (- q))) (unsigned_decimal s')
       | _ => option_map (fun q => Fin (Q2Qc q)) (unsigned_decimal s)
       end.

Definition str_of_Z (z : Z) : string := NilZero.string_of_int (Z.to_int z).

(** Integers print as [n.0]; other rationals as [num/den]. *)
Definition sample_str_num (x : num) : string :=
  match x with
  | Fin q =>
      if Pos.eqb (Qden q) 1 then str_of_Z (Qnum q) ++ ".0"
      else str_of_Z (Qnum q) ++ "/" ++ str_of_Z (Zpos (Qden q))
  | PInf => "inf"
  | NInf => "-inf"
  | NaN => "nan"
  end.

Definition sample_py_str (v : pyval) : string :=
  match v with
  | VNone => "None"
  | VBool true => "True"
  | VBool false => "False"
  | VNum x => sample_str_num x
  | VStr s => s
  | VList _ => "[...]"
  | VDict _ => "{...}"
  end.

Definition sample_py_repr (v : pyval) : string :=
  match v with
  | VStr s => "'" ++ s ++ "'"
  | _ => sample_py_str v
  end.

Definition sample_str_set (l : list string) : string :=
  "{" ++ String.concat ", " (map (fun k => "'" ++ k ++ "'") l) ++ "}".

Definition sample_builtins : Builtins :=
  {| fromisoformat := sample_fromisoformat;
     float_of_str := sample_float_of_str;
     Decimal_of_str := sample_float_of_str;
     py_str := sample_py_str;
     py_repr := sample_py_repr;
     str_set := sample_str_set |}.

Section Service.

Context {B : Builtins}.

(** The least magnitude that does not fit a float: an [int] from
    [2^1024 - 2^970] on rounds to [2^1024].  A finite number that large
    can only be an [int], since a float of that size is an infinity. *)
Definition float_limit : Z := (2 ^ 1024 - 2 ^ 970)%Z.

Definition too_large (q : Qc) : bool :=
  (float_limit * Zpos (Qden q) <=? Z.abs (Qnum q))%Z.

(** [float(v)] *)
Definition py_float (v : pyval) : exn + num :=
  match v with
  | VNum (Fin q) =>
      if too_large q then inl (OverflowError "int too large to convert to float")
      else inr (Fin q)
  | VNum x => inr x
  | VBool b => inr (if b then num_of_Z 1 else num_of_Z 0)
  | VStr s =>
      match float_of_str s with
      | Some x => inr x
      | None => inl (ValueError ("could not convert string to float: " ++ py_repr v))
      end
  | VNone =>
      inl (TypeError
             "float() argument must be a string or a real number, not 'NoneType'")
  | VList _ =>
      inl (TypeError "float() argument must be a string or a real number, not 'list'")
  | VDict _ =>
      inl (TypeError "float() argument must be a string or a real number, not 'dict'")
  end.

(** [Decimal(str(v))] *)
Definition py_Decimal_str (v : pyval) : exn + num :=
  match Decimal_of_str (py_str v) with
  | Some x => inr x
  | None => inl (InvalidOperation "[<class 'decimal.ConversionSyntax'>]")
  end.

(* ===================================================================== *)
(** ** The payload                                                       *)
(* ===================================================================== *)

Record Payload : Type := {
  pl_user_id : option string;
  pl_event_id : option string;
  pl_event_type : option string;
  pl_timestamp : option string;
  pl_amount : pyval;          (* event_data.get("amount") *)
  pl_duration : pyval;        (* event_data.get("duration") *)
  pl_email : option string;
  pl_first_name : option string;
  pl_last_name : option string;
  pl_country : option string;
  pl_event_metadata : option pyval
}.

Definition isSome {A} (o : option A) : bool :=
  match o with Some _ => true | None => false end.

Definition isNone {A} (o : option A) : bool :=
  match o with Some _ => false | None => true end.

(** [k in event_data.keys()] for the required keys, on a payload whose
    required fields hold strings where present. *)
Definition has_key (p : Payload) (k : string) : bool :=
  if String.eqb k "user_id" then isSome (pl_user_id p)
  else if String.eqb k "event_id" then isSome (pl_event_id p)
  else if String.eqb k "event_type" then isSome (pl_event_type p)
  else if String.eqb k "timestamp" then isSome (pl_timestamp p)
  else false.

Definition REQUIRED_FIELDS : list string :=
  ["user_id"; "event_id"; "event_type"; "timestamp"].

Definition VALID_EVENT_TYPES : list string :=
  ["click"; "purchase"; "view"; "search"; "login"; "logout"; "video"; "other"].

Definition opt_str_eqb (o : option string) (s : string) : bool :=
  match o with Some t => String.eqb t s | None => false end.

(** EventStorageService.validate_event *)
Definition validate_event (p : Payload) : bool * option string :=
  let missing := filter (fun k => negb (has_key p k)) REQUIRED_FIELDS in
  match missing with
  | _ :: _ => (false, Some ("Missing required fields: " ++ str_set missing))
  | [] =>
    match pl_timestamp p with
    | None => (false, Some "Validation error: 'timestamp'")
    | Some ts =>
      match fromisoformat ts with
      | None => (false, Some ("Invalid timestamp format: " ++ ts))
      | Some _ =>
        let event_type := pl_event_type p in
        (* an event type outside VALID_EVENT_TYPES only logs a warning *)
        if opt_str_eqb event_type "purchase" then
          let amount := pl_amount p in
          if is_None amount then (false, Some "Purchase event missing 'amount'")
          else
            match py_float amount with
            | inr amount' =>
                if num_le0 amount'
                then (false, Some ("Invalid amount: " ++ py_str (VNum amount')
                                   ++ " (must be positive)"))
                else (true, None)
            | inl e =>
                if is_TypeError_or_ValueError e
                then (false, Some ("Amount not numeric: " ++ py_str amount))
                else
                  (* the outer [except Exception] *)
                  (false, Some ("Validation error: " ++ exn_str e))
            end
        else (true, None)
      end
    end
  end.

(* ===================================================================== *)
(** ** The tables of [database/models.py]                                *)
(* ===================================================================== *)

Record User : Type := {
  u_user_id : string;
  u_email : option string;
  u_first_name : option string;
  u_last_name : option string;
  u_country : option string;
  u_signup_date : datetime;
  u_is_active : bool
}.

Record UserEvent : Type := {
  ev_event_id : string;
  ev_user_id : string;
  ev_event_type : string;
  ev_timestamp : datetime;
  ev_duration : pyval;
  ev_event_metadata : pyval
}.

Record UserStats : Type := {
  st_user_id : string;
  total_events : Z;
  total_purchases : Z;
  total_spent : num;
  last_active : option datetime;
  last_purchase : option datetime;
  avg_session_duration : num;
  engagement_score : num;
  churn_risk : num
}.

Record DeadLetterQueue : Type := {
  dlq_event_id : option string;
  dlq_event_data : Payload;
  dlq_error_message : string;
  dlq_error_type : string;
  dlq_status : string;
  dlq_retry_count : Z
}.

Record DB : Type := {
  users : list User;
  user_events : list UserEvent;
  user_stats : list UserStats;
  dead_letter_queue : list DeadLetterQueue
}.

Definition empty_db : DB :=
  {| users := []; user_events := []; user_stats := []; dead_letter_queue := [] |}.

(** The column defaults of a fresh [UserStats(user_id=...)] row. *)
Definition new_stats (user_id : string) : UserStats :=
  {| st_user_id := user_id; total_events := 0; total_purchases := 0;
     total_spent := num_of_Z 0; last_active := None; last_purchase := None;
     avg_session_duration := num_of_Z 0; engagement_score := num_of_Z 0;
     churn_risk := num_of_Z 0 |}.

(** Attribute assignments on a stats object. *)
Definition set_avg_session_duration (x : num) (st : UserStats) : UserStats :=
  {| st_user_id := st_user_id st; total_events := total_events st;
     total_purchases := total_purchases st; total_spent := total_spent st;
     last_active := last_active st; last_purchase := last_purchase st;
     avg_session_duration := x; engagement_score := engagement_score st;
     churn_risk := churn_risk st |}.

Definition set_total_events (n : Z) (st : UserStats) : UserStats :=
  {| st_user_id := st_user_id st; total_events := n;
     total_purchases := total_purchases st; total_spent := total_spent st;
     last_active := last_active st; last_purchase := last_purchase st;
     avg_session_duration := avg_session_duration st;
     engagement_score := engagement_score st; churn_risk := churn_risk st |}.

Definition set_last_active (t : datetime) (st : UserStats) : UserStats :=
  {| st_user_id := st_user_id st; total_events := total_events st;
     total_purchases := total_purchases st; total_spent := total_spent st;
     last_active := Some t; last_purchase := last_purchase st;
     avg_session_duration := avg_session_duration st;
     engagement_score := engagement_score st; churn_risk := churn_risk st |}.

Definition set_total_purchases (n : Z) (st : UserStats) : UserStats :=
  {| st_user_id := st_user_id st; total_events := total_events st;
     total_purchases := n; total_spent := total_spent st;
     last_active := last_active st; last_purchase := last_purchase st;
     avg_session_duration := avg_session_duration st;
     engagement_score := engagement_score st; churn_risk := churn_risk st |}.

Definition set_total_spent (x : num) (st : UserStats) : UserStats :=
  {| st_user_id := st_user_id st; total_events := total_events st;
     total_purchases := total_purchases st; total_spent := x;
     last_active := last_active st; last_purchase := last_purchase st;
     avg_session_duration := avg_session_duration st;
     engagement_score := engagement_score st; churn_risk := churn_risk st |}.

Definition set_last_purchase (t : datetime) (st : UserStats) : UserStats :=
  {| st_user_id := st_user_id st; total_events := total_events st;
     total_purchases := total_purchases st; total_spent := total_spent st;
     last_active := last_active st; last_purchase := Some t;
     avg_session_duration := avg_session_duration st;
     engagement_score := engagement_score st; churn_risk := churn_risk st |}.

Definition set_engagement_score (x : num) (st : UserStats) : UserStats :=
  {| st_user_id := st_user_id st; total_events := total_events st;
     total_purchases := total_purchases st; total_spent := total_spent st;
     last_active := last_active st; last_purchase := last_purchase st;
     avg_session_duration := avg_session_duration st;
     engagement_score := x; churn_risk := churn_risk st |}.

(* ===================================================================== *)
(** ** Sessions and the fault oracle                                     *)
(* ===================================================================== *)

(** The statements a session sends to the database, in the order
    [store_event] and [log_dead_letter] issue them. *)
Inductive dbop : Type :=
| QueryEvent        (* db.query(UserEvent).filter(event_id == ...).first() *)
| QueryUser         (* db.query(User).filter(user_id == ...).first() *)
| FlushUser         (* db.flush() after db.add(user) *)
| CountDurations    (* db.query(UserEvent).filter(...).count() *)
| FlushEvent        (* db.flush() after db.add(user_event) *)
| QueryStats        (* db.query(UserStats).filter(user_id == ...).first() *)
| FlushStats        (* db.flush() after db.add(stats) *)
| Commit            (* db.commit() *)
| Rollback.         (* db.rollback() *)

(** What the database answers when it refuses a statement. *)
Inductive dberr : Type :=
| DbIntegrity (msg : string)              (* sqlalchemy.exc.IntegrityError *)
| DbOther (cls : string) (msg : string).  (* any other SQLAlchemyError *)

Definition exn_of_dberr (e : dberr) : exn :=
  match e with
  | DbIntegrity m => IntegrityError m
  | DbOther cls m => SQLAlchemyError cls m
  end.

Definition oracle := dbop -> option dberr.

Definition no_faults : oracle := fun _ => None.

Record Session : Type := {
  committed : DB;       (* what every other session sees *)
  pending : DB;         (* this session's view, with its flushed writes *)
  calls : list dbop     (* the statements sent so far, oldest first *)
}.

(** [SessionLocal()] on a database. *)
Definition SessionLocal (db : DB) : Session :=
  {| committed := db; pending := db; calls := [] |}.

(** A computation in a session: it returns or raises, and leaves a session. *)
Definition M (A : Type) : Type := Session -> (exn + A) * Session.

Definition ret {A} (a : A) : M A := fun s => (inr a, s).

Definition raise {A} (e : exn) : M A := fun s => (inl e, s).

Definition bind {A C} (m : M A) (k : A -> M C) : M C :=
  fun s => match m s with
           | (inr a, s') => k a s'
           | (inl e, s') => (inl e, s')
           end.

(** [try: body  except Exception as e: handler e] *)
Definition try_except {A} (body : M A) (handler : exn -> M A) : M A :=
  fun s => match body s with
           | (inl e, s') => handler e s'
           | r => r
           end.

Definition lift {A} (r : exn + A) : M A :=
  match r with inl e => raise e | inr a => ret a end.

Notation "x <- m ;; k" := (bind m (fun x => k))
  (at level 61, m at next level, right associativity).
Notation "m ;;; k" := (bind m (fun _ => k))
  (at level 61, right associativity).

Definition get_pending : M DB := fun s => (inr (pending s), s).

Definition modify_pending (f : DB -> DB) : M unit :=
  fun s => (inr tt, {| committed := committed s; pending := f (pending s);
                       calls := calls s |}).

Definition record_call (op : dbop) (s : Session) : Session :=
  {| committed := committed s; pending := pending s; calls := calls s ++ [op] |}.

Section WithOracle.

Variable faults : oracle.

(** Send one statement: the database accepts it or raises. *)
Definition db_stmt (op : dbop) : M unit :=
  fun s => match faults op with
           | Some e => (inl (exn_of_dberr e), record_call op s)
           | None => (inr tt, record_call op s)
           end.

(** [db.commit()] *)
Definition db_commit : M unit :=
  db_stmt Commit ;;;
  (fun s => (inr tt, {| committed := pending s; pending := pending s;
                        calls := calls s |})).

(** [db.rollback()] *)
Definition db_rollback : M unit :=
  fun s => (inr tt, {| committed := committed s; pending := committed s;
                       calls := calls s ++ [Rollback] |}).

Definition add_user (u : User) (db : DB) : DB :=
  {| users := users db ++ [u]; user_events := user_events db;
     user_stats := user_stats db; dead_letter_queue := dead_letter_queue db |}.

Definition add_event (e : UserEvent) (db : DB) : DB :=
  {| users := users db; user_events := user_events db ++ [e];
     user_stats := user_stats db; dead_letter_queue := dead_letter_queue db |}.

Definition add_stats (st : UserStats) (db : DB) : DB :=
  {| users := users db; user_events := user_events db;
     user_stats := user_stats db ++ [st];
     dead_letter_queue := dead_letter_queue db |}.

Definition add_dlq (d : DeadLetterQueue) (db : DB) : DB :=
  {| users := users db; user_events := user_events db;
     user_stats := user_stats db;
     dead_letter_queue := dead_letter_queue db ++ [d] |}.

(** An attribute assignment on the stats object of [user_id]. *)
Definition update_stats (user_id : string) (f : UserStats -> UserStats) (db : DB) : DB :=
  {| users := users db; user_events := user_events db;
     user_stats := map (fun st => if String.eqb (st_user_id st) user_id
                                  then f st else st) (user_stats db);
     dead_letter_queue := dead_letter_queue db |}.

Definition find_event (event_id : string) (db : DB) : option UserEvent :=
  find (fun e => String.eqb (ev_event_id e) event_id) (user_events db).

Definition find_user (user_id : string) (db : DB) : option User :=
  find (fun u => String.eqb (u_user_id u) user_id) (users db).

Definition find_stats (user_id : string) (db : DB) : option UserStats :=
  find (fun st => String.eqb (st_user_id st) user_id) (user_stats db).

(** The events of [user_id] whose duration column is not NULL. *)
Definition duration_events (user_id : string) (db : DB) : list UserEvent :=
  filter (fun e => String.eqb (ev_user_id e) user_id && negb (is_None (ev_duration e)))
         (user_events db).

(** [min(a, b)]: the second argument is taken only when strictly smaller. *)
Definition py_min (a b : Qc) : Qc := if Qle_bool a b then a else b.

(** [min(100.0, (total_events * 0.5) + (total_purchases * 5.0))] *)
Definition engagement (te tp : Z) : num :=
  Fin (py_min (Q2Qc 100)
              (Q2Qc (inject_Z te) * Q2Qc (1 # 2) + Q2Qc (inject_Z tp) * Q2Qc 5)).

(** The test of the IntegrityError handler on [str(e).lower()]. *)
Definition is_duplicate_msg (m : string) : bool :=
  contains "unique constraint" (lower m) || contains "duplicate key" (lower m).

Definition str_of_opt (o : option string) : string :=
  match o with Some m => m | None => "None" end.

(** The body of the [try] block of EventStorageService.store_event. *)
Definition store_event_body (event_data : Payload) : M (option string) :=
  (* Step 1: validate *)
  let '(is_valid, error_msg) := validate_event event_data in
  if negb is_valid then raise (ValueError (str_of_opt error_msg))
  else
  match pl_user_id event_data, pl_event_id event_data,
        pl_event_type event_data, pl_timestamp event_data with
  | Some user_id, Some event_id, Some event_type, Some timestamp_str =>
    (* Step 2: duplicate check *)
    db_stmt QueryEvent ;;;
    db <- get_pending ;;
    match find_event event_id db with
    | Some _ => ret (Some event_id)
    | None =>
      (* Step 3: get or create the user *)
      db_stmt QueryUser ;;;
      db <- get_pending ;;
      match find_user user_id db with
      | Some _ => ret tt
      | None =>
          signup_date <- lift (match fromisoformat timestamp_str with
                               | Some t => inr t
                               | None => inl (ValueError "Invalid isoformat string")
                               end) ;;
          modify_pending (add_user
            {| u_user_id := user_id; u_email := pl_email event_data;
               u_first_name := pl_first_name event_data;
               u_last_name := pl_last_name event_data;
               u_country := pl_country event_data;
               u_signup_date := signup_date; u_is_active := true |}) ;;;
          db_stmt FlushUser
      end ;;;
      (* Step 4a: the duration and the count of earlier duration events *)
      timestamp <- lift (match fromisoformat timestamp_str with
                         | Some t => inr t
                         | None => inl (ValueError "Invalid isoformat string")
                         end) ;;
      let duration_value := pl_duration event_data in
      dc <- (if truthy duration_value then
               duration <- lift (py_float duration_value) ;;
               db_stmt CountDurations ;;;
               db <- get_pending ;;
               ret (Some (duration, length (duration_events user_id db)))
             else ret None) ;;
      (* Step 4b: the event record *)
      modify_pending (add_event
        {| ev_event_id := event_id; ev_user_id := user_id;
           ev_event_type := event_type; ev_timestamp := timestamp;
           ev_duration := pl_duration event_data;
           ev_event_metadata := match pl_event_metadata event_data with
                                | Some m => m
                                | None => VDict []
                                end |}) ;;;
      db_stmt FlushEvent ;;;
      (* Step 5: statistics *)
      db_stmt QueryStats ;;;
      db <- get_pending ;;
      stats <- match find_stats user_id db with
               | Some st => ret st
               | None =>
                   modify_pending (add_stats (new_stats user_id)) ;;;
                   db_stmt FlushStats ;;;
                   ret (new_stats user_id)
               end ;;
      match dc with
      | Some (duration, old_duration_count) =>
          match old_duration_count with
          | S _ =>
              let old_avg := avg_session_duration stats in
              modify_pending (update_stats user_id (set_avg_session_duration
                (num_div_nat (num_add (num_mul_nat old_avg old_duration_count) duration)
                             (old_duration_count + 1))))
          | O =>
              modify_pending (update_stats user_id (set_avg_session_duration duration))
          end
      | None => ret tt
      end ;;;
      modify_pending (update_stats user_id
        (fun st => set_total_events (total_events st + 1) st)) ;;;
      modify_pending (update_stats user_id (set_last_active timestamp)) ;;;
      (if String.eqb event_type "purchase" then
         modify_pending (update_stats user_id
           (fun st => set_total_purchases (total_purchases st + 1) st)) ;;;
         amount <- lift (py_Decimal_str (match pl_amount event_data with
                                         | VNone => VNum (num_of_Z 0)
                                         | a => a
                                         end)) ;;
         modify_pending (update_stats user_id
           (fun st => set_total_spent (num_add (total_spent st) amount) st)) ;;;
         modify_pending (update_stats user_id (set_last_purchase timestamp))
       else ret tt) ;;;
      modify_pending (update_stats user_id
        (fun st => set_engagement_score
                     (engagement (total_events st) (total_purchases st)) st)) ;;;
      (* Step 6: commit *)
      db_commit ;;;
      ret (Some event_id)
    end
  | _, _, _, _ =>
      (* validation has refused a payload without one of these fields *)
      raise (TypeError "missing identifier")
  end.

(** EventStorageService.store_event: the [try] block and its handlers. *)
Definition store_event (event_data : Payload) : M (option string) :=
  try_except (store_event_body event_data)
    (fun e =>
       match e with
       | IntegrityError m =>
           db_rollback ;;;
           if is_duplicate_msg m then ret None else raise e
       | _ =>
           db_rollback ;;;
           raise e
       end).

(** EventStorageService.log_dead_letter *)
Definition log_dead_letter (event_data : Payload) (error_message error_type : string)
    (status : string) : M bool :=
  try_except
    (let dlq_entry :=
       {| dlq_event_id := pl_event_id event_data; dlq_event_data := event_data;
          dlq_error_message := error_message; dlq_error_type := error_type;
          dlq_status := status; dlq_retry_count := 0 |} in
     modify_pending (add_dlq dlq_entry) ;;;
     db_commit ;;;
     ret true)
    (fun _ => db_rollback ;;; ret false).

(** EventStorageService.get_user_stats, before its rendering as a dict. *)
Definition get_user_stats (db : DB) (user_id : string) : option UserStats :=
  find_stats user_id db.

End WithOracle.

(* ===================================================================== *)
(** ** The consumption loop of [user_event_consumer.main]                *)
(* ===================================================================== *)

Record ConsumerState : Type := {
  processed : Z;
  failed : Z;
  duplicates : Z;
  dlq_logged : Z
}.

Record Message : Type := {
  msg_value : Payload;
  msg_offset : Z
}.

(** What one iteration of the loop reads and writes: the database, the
    counters, the consumer's position in the partition and the offset
    committed to the broker. *)
Record World : Type := {
  w_db : DB;
  w_state : ConsumerState;
  w_position : Z;
  w_committed : Z
}.

Definition initial_world : World :=
  {| w_db := empty_db;
     w_state := {| processed := 0; failed := 0; duplicates := 0; dlq_logged := 0 |};
     w_position := 0; w_committed := 0 |}.

(** [if event_id:] on the value [store_event] returned. *)
Definition truthy_id (event_id : option string) : bool :=
  match event_id with
  | Some s => negb (String.eqb s "")
  | None => false
  end.

(** KafkaConsumerService.commit_offset: [consumer.commit(asynchronous=False)]
    commits the consumer's current position; [ack] tells whether the broker
    acknowledged.  The result is what commit_offset returns. *)
Definition commit_offset (ack : bool) (w : World) : bool * World :=
  if ack then
    (true, {| w_db := w_db w; w_state := w_state w;
              w_position := w_position w; w_committed := w_position w |})
  else (false, w).

Definition with_state (f : ConsumerState -> ConsumerState) (w : World) : World :=
  {| w_db := w_db w; w_state := f (w_state w);
     w_position := w_position w; w_committed := w_committed w |}.

Definition with_db (db : DB) (w : World) : World :=
  {| w_db := db; w_state := w_state w;
     w_position := w_position w; w_committed := w_committed w |}.

Definition incr_processed (c : ConsumerState) : ConsumerState :=
  {| processed := processed c + 1; failed := failed c;
     duplicates := duplicates c; dlq_logged := dlq_logged c |}.

Definition incr_failed (c : ConsumerState) : ConsumerState :=
  {| processed := processed c; failed := failed c + 1;
     duplicates := duplicates c; dlq_logged := dlq_logged c |}.

Definition incr_duplicates (c : ConsumerState) : ConsumerState :=
  {| processed := processed c; failed := failed c;
     duplicates := duplicates c + 1; dlq_logged := dlq_logged c |}.

Definition incr_dlq_logged (c : ConsumerState) : ConsumerState :=
  {| processed := processed c; failed := failed c;
     duplicates := duplicates c; dlq_logged := dlq_logged c + 1 |}.

(** [consume_message] returned [msg]: the consumer's position is now past it. *)
Definition polled (msg : Message) (w : World) : World :=
  {| w_db := w_db w; w_state := w_state w;
     w_position := msg_offset msg + 1; w_committed := w_committed w |}.

(** One iteration of the loop on a message [msg]: the "Process Message"
    block.  [faults] is the database's behaviour during [store_event],
    [dlq_faults] its behaviour during [log_dead_letter], [ack] the
    broker's answer to the commit. *)
Definition process_message (faults dlq_faults : oracle) (ack : bool)
    (msg : Message) (w0 : World) : World :=
  let w := polled msg w0 in
  let db_session := SessionLocal (w_db w) in
  match store_event faults (msg_value msg) db_session with
  | (inr event_id, s) =>
      let w := with_db (committed s) w in
      if truthy_id event_id then
        let '(ok, w) := commit_offset ack w in
        if ok then with_state incr_processed w
        else with_state incr_failed w
      else
        let w := with_state incr_duplicates w in
        snd (commit_offset ack w)
  | (inl e, s) =>
      if is_ValueError e then
        (* except ValueError: a fresh session for the dead letter *)
        let db_session := SessionLocal (committed s) in
        let '(_, s') := log_dead_letter dlq_faults (msg_value msg)
                          (exn_str e) "ValueError" "pending" db_session in
        let w := with_db (committed s') w in
        let w := with_state incr_dlq_logged w in
        let w := with_state incr_failed w in
        snd (commit_offset ack w)
      else
        (* except Exception: the session of the failed attempt is reused *)
        let '(_, s') := log_dead_letter dlq_faults (msg_value msg)
                          (exn_str e) (type_name e) "pending" s in
        let w := with_db (committed s') w in
        let w := with_state incr_dlq_logged w in
        let w := with_state incr_failed w in
        snd (commit_offset ack w)
  end.

(* ===================================================================== *)
(** ** Specifications of session computations                            *)
(* ===================================================================== *)

(** [hoare P m Q E]: run from a session satisfying [P], the computation
    [m] either returns [a] in a session satisfying [Q a], or raises [e]
    in a session satisfying [E e].  Every [M] computation terminates, so
    this is a total-correctness triple. *)
Definition hoare {A} (P : Session -> Prop) (m : M A)
    (Q : A -> Session -> Prop) (E : exn -> Session -> Prop) : Prop :=
  forall s, P s ->
    match m s with
    | (inr a, s') => Q a s'
    | (inl e, s') => E e s'
    end.

(** The statements sent between two sessions of one call. *)
Definition sent_since (k0 : list dbop) (s : Session) (l : list dbop) : Prop :=
  calls s = (k0 ++ l)%list.

(** While the body of [store_event] runs without raising: nothing is
    committed, and every statement sent so far was accepted. *)
Definition running (faults : oracle) (c0 : DB) (k0 : list dbop) (s : Session) : Prop :=
  committed s = c0 /\
  exists l, sent_since k0 s l /\
    Forall (fun op => op <> Rollback /\ faults op = None) l.

(** When the body returns. *)
Definition returned (faults : oracle) (k0 : list dbop) (s : Session) : Prop :=
  exists l, sent_since k0 s l /\
    Forall (fun op => op <> Rollback /\ faults op = None) l.

(** When the body raises [e]: nothing is committed, and a statement the
    database refused is the source of [e]. *)
Definition raised (faults : oracle) (c0 : DB) (k0 : list dbop) (e : exn)
    (s : Session) : Prop :=
  committed s = c0 /\
  exists l, sent_since k0 s l /\
    Forall (fun op => op <> Rollback) l /\
    forall op err, In op l -> faults op = Some err -> e = exn_of_dberr err.

(** The statements one call sent, between the session it started from and
    the session it left. *)
Definition sent_during (s s' : Session) (l : list dbop) : Prop :=
  calls s' = (calls s ++ l)%list.

(** A refusal the IntegrityError handler reads as a duplicate key. *)
Definition is_duplicate_err (err : dberr) : bool :=
  match err with
  | DbIntegrity m => is_duplicate_msg m
  | DbOther _ _ => false
  end.

(* ===================================================================== *)
(** ** Reachable databases and the statistics invariant                  *)
(* ===================================================================== *)

(** A session between two calls: nothing pending. *)
Definition clean (s : Session) : Prop := pending s = committed s.

(** The databases the service can produce from an empty one, whatever
    the payloads and whatever the database refuses. *)
Inductive reachable : DB -> Prop :=
| reach_empty : reachable empty_db
| reach_store : forall faults p s r s',
    reachable (committed s) -> clean s ->
    store_event faults p s = (r, s') ->
    reachable (committed s')
| reach_dead_letter : forall faults p msg ty status s r s',
    reachable (committed s) -> clean s ->
    log_dead_letter faults p msg ty status s = (r, s') ->
    reachable (committed s').

Definition counts_nonneg (st : UserStats) : Prop :=
  (0 <= total_events st)%Z /\ (0 <= total_purchases st)%Z.

Definition score_ok (st : UserStats) : Prop :=
  counts_nonneg st /\
  engagement_score st = engagement (total_events st) (total_purchases st).

(** In the middle of a call for [user_id]: the committed rows are right,
    and so are the pending rows of every other user. *)
Definition stats_mid (user_id : string) (s : Session) : Prop :=
  Forall score_ok (user_stats (committed s)) /\
  Forall (fun st => counts_nonneg st /\ (st_user_id st <> user_id -> score_ok st))
         (user_stats (pending s)).

Definition stats_done (s : Session) : Prop :=
  Forall score_ok (user_stats (committed s)) /\
  Forall score_ok (user_stats (pending s)).

Definition stats_committed (s : Session) : Prop :=
  Forall score_ok (user_stats (committed s)).

(** [x <= y] on finite numbers. *)
Definition num_le (x y : num) : Prop :=
  match x, y with
  | Fin a, Fin b => (a <= b)%Qc
  | _, _ => False
  end.

(** The arithmetic mean, in the spec's words, of the [duration] field over
    the stored events of a user that carry a duration. *)
Definition sum_durations (l : list UserEvent) : num :=
  fold_right (fun e acc =>
                match py_float (ev_duration e) with
                | inr d => num_add d acc
                | inl _ => NaN
                end) (num_of_Z 0) l.

Definition mean_duration (user_id : string) (db : DB) : num :=
  let l := duration_events user_id db in
  num_div_nat (sum_durations l) (length l).

(** The statistics agree with the event log on the average duration. *)
Definition average_is_mean (db : DB) : Prop :=
  forall user_id, duration_events user_id db <> [] ->
    exists st, find_stats user_id db = Some st /\
               avg_session_duration st = mean_duration user_id db.

(** A duration the test [if duration_value:] does not mistake for an
    absent one: absent, or truthy and a finite number. *)
Definition plain_duration (d : pyval) : Prop :=
  d = VNone \/ (truthy d = true /\ exists q, py_float d = inr (Fin q)).

Definition plain_durations (db : DB) : Prop :=
  Forall (fun e => plain_duration (ev_duration e)) (user_events db).

Definition finite_duration (e : UserEvent) : Prop :=
  exists q, py_float (ev_duration e) = inr (Fin q).

(** The databases reachable with payloads of plain duration only. *)
Inductive reachable_plain : DB -> Prop :=
| plain_empty : reachable_plain empty_db
| plain_store : forall faults p s r s',
    reachable_plain (committed s) -> clean s ->
    plain_duration (pl_duration p) ->
    store_event faults p s = (r, s') ->
    reachable_plain (committed s')
| plain_dead_letter : forall faults p msg ty status s r s',
    reachable_plain (committed s) -> clean s ->
    log_dead_letter faults p msg ty status s = (r, s') ->
    reachable_plain (committed s').

(** Equality of numbers as values ([NaN] equals nothing). *)
Definition num_eqb (x y : num) : bool :=
  match x, y with
  | Fin a, Fin b => Qeq_bool a b
  | PInf, PInf | NInf, NInf => true
  | _, _ => false
  end.

(** The row [log_dead_letter] writes. *)
Definition dead_letter (event_data : Payload) (error_message error_type : string)
    (status : string) : DeadLetterQueue :=
  {| dlq_event_id := pl_event_id event_data; dlq_event_data := event_data;
     dlq_error_message := error_message; dlq_error_type := error_type;
     dlq_status := status; dlq_retry_count := 0 |}.

(** The world after a message whose storage attempt raised [e]. *)
Definition dead_lettered (dlq_faults : oracle) (ack : bool) (msg : Message)
    (e : exn) (w : World) : World :=
  {| w_db := match dlq_faults Commit with
             | None => add_dlq (dead_letter (msg_value msg) (exn_str e)
                                            (type_name e) "pending") (w_db w)
             | Some _ => w_db w
             end;
     w_state := incr_failed (incr_dlq_logged (w_state w));
     w_position := msg_offset msg + 1;
     w_committed := if ack then msg_offset msg + 1 else w_committed w |}.

(** The three reasons [validate_event] gives for the amount of a purchase. *)
Definition reason_missing_amount : string := "Purchase event missing 'amount'".

Definition reason_not_numeric (amount : pyval) : string :=
  "Amount not numeric: " ++ py_str amount.

Definition reason_not_positive (amount : num) : string :=
  "Invalid amount: " ++ py_str (VNum amount) ++ " (must be positive)".

(** The reason of the outer [except Exception] of [validate_event]. *)
Definition reason_validation_error (e : exn) : string :=
  "Validation error: " ++ exn_str e.

Definition with_duration (d : pyval) (p : Payload) : Payload :=
  {| pl_user_id := pl_user_id p; pl_event_id := pl_event_id p;
     pl_event_type := pl_event_type p; pl_timestamp := pl_timestamp p;
     pl_amount := pl_amount p; pl_duration := d; pl_email := pl_email p;
     pl_first_name := pl_first_name p; pl_last_name := pl_last_name p;
     pl_country := pl_country p; pl_event_metadata := pl_event_metadata p |}.

(* ===================================================================== *)
(** ** The read-only projections of EventStorageService                  *)
(* ===================================================================== *)

(** EventStorageService.get_user_profile, before its rendering as a dict:
    the user row and, when there is one, the statistics row that fills
    [profile["stats"]]. *)
Definition get_user_profile (db : DB) (user_id : string)
    : option (User * option UserStats) :=
  match find_user user_id db with
  | None => None
  | Some user => Some (user, find_stats user_id db)
  end.

(** [GROUP BY error_type] with [count(id)]: one pair per error type, in the
    order the types first occur. *)
Fixpoint bump (ty : string) (acc : list (string * nat)) : list (string * nat) :=
  match acc with
  | [] => [(ty, 1%nat)]
  | (ty', n) :: acc' =>
      if String.eqb ty' ty then (ty', S n) :: acc' else (ty', n) :: bump ty acc'
  end.

Definition count_by_type (l : list DeadLetterQueue) : list (string * nat) :=
  fold_left (fun acc d => bump (dlq_error_type d) acc) l [].

(** [by_error_type.get(ty, 0)] *)
Definition error_count (ty : string) (by_type : list (string * nat)) : nat :=
  match find (fun x => String.eqb (fst x) ty) by_type with
  | Some (_, n) => n
  | None => 0%nat
  end.

(** The entries of error type [ty]. *)
Definition entries_of_type (ty : string) (l : list DeadLetterQueue)
    : list DeadLetterQueue :=
  filter (fun d => String.eqb (dlq_error_type d) ty) l.

Record DlqSummary : Type := {
  total_failed : nat;
  by_error_type : list (string * nat);
  recent_entries : list (option string * string)   (* event_id, error_type *)
}.

(** EventStorageService.get_dlq_summary.  The rows carry no [created_at]
    here: the queue is kept in insertion order, which is the order of
    [created_at], so the ten most recent rows are the last ten, newest
    first.  [fault] is the error of a refused query, if any. *)
Definition get_dlq_summary (fault : option dberr) (db : DB) : string + DlqSummary :=
  match fault with
  | Some e => inl (exn_str (exn_of_dberr e))
  | None =>
      inr {| total_failed := length (dead_letter_queue db);
             by_error_type := count_by_type (dead_letter_queue db);
             recent_entries :=
               map (fun d => (dlq_event_id d, dlq_error_type d))
                   (firstn 10 (rev (dead_letter_queue db))) |}
  end.

(* ===================================================================== *)
(** ** The effect of an accepted event, as one function                  *)
(* ===================================================================== *)

(** What [store_event] has written when it returns the identifier of an
    event that was not stored before, step by step ([store_event_applies]
    below).  [timestamp] is the parsed timestamp, [duration] the value of
    [float(duration_value)] and [amount] that of [Decimal(str(amount))],
    each read only where the code computes it. *)
Definition with_user (user_id : string) (timestamp : datetime) (p : Payload)
    (db : DB) : DB :=
  match find_user user_id db with
  | Some _ => db
  | None =>
      add_user {| u_user_id := user_id; u_email := pl_email p;
                  u_first_name := pl_first_name p; u_last_name := pl_last_name p;
                  u_country := pl_country p; u_signup_date := timestamp;
                  u_is_active := true |} db
  end.

Definition event_row (user_id event_id event_type : string) (timestamp : datetime)
    (p : Payload) : UserEvent :=
  {| ev_event_id := event_id; ev_user_id := user_id;
     ev_event_type := event_type; ev_timestamp := timestamp;
     ev_duration := pl_duration p;
     ev_event_metadata := match pl_event_metadata p with
                          | Some m => m
                          | None => VDict []
                          end |}.

Definition with_stats (user_id : string) (db : DB) : DB :=
  match find_stats user_id db with
  | Some _ => db
  | None => add_stats (new_stats user_id) db
  end.

Definition stats_row (user_id : string) (db : DB) : UserStats :=
  match find_stats user_id db with
  | Some st => st
  | None => new_stats user_id
  end.

Definition with_average (user_id : string) (p : Payload) (duration : num)
    (n : nat) (old_avg : num) (db : DB) : DB :=
  if truthy (pl_duration p) then
    match n with
    | S _ => update_stats user_id (set_avg_session_duration
               (num_div_nat (num_add (num_mul_nat old_avg n) duration) (n + 1))) db
    | O => update_stats user_id (set_avg_session_duration duration) db
    end
  else db.

Definition with_purchase (user_id event_type : string) (timestamp : datetime)
    (amount : num) (db : DB) : DB :=
  if String.eqb event_type "purchase" then
    update_stats user_id (set_last_purchase timestamp)
      (update_stats user_id
         (fun st => set_total_spent (num_add (total_spent st) amount) st)
         (update_stats user_id
            (fun st => set_total_purchases (total_purchases st + 1) st) db))
  else db.

Definition apply_event (user_id event_id event_type : string) (timestamp : datetime)
    (p : Payload) (duration amount : num) (db : DB) : DB :=
  let db1 := with_user user_id timestamp p db in
  let n := length (duration_events user_id db1) in
  let db2 := add_event (event_row user_id event_id event_type timestamp p) db1 in
  let old_avg := avg_session_duration (stats_row user_id db2) in
  let db3 := with_stats user_id db2 in
  let db4 := with_average user_id p duration n old_avg db3 in
  let db5 := update_stats user_id
               (fun st => set_total_events (total_events st + 1) st) db4 in
  let db6 := update_stats user_id (set_last_active timestamp) db5 in
  let db7 := with_purchase user_id event_type timestamp amount db6 in
  update_stats user_id
    (fun st => set_engagement_score
                 (engagement (total_events st) (total_purchases st)) st) db7.

(** The statistics row of the user after the attribute assignments of
    steps 5 and 6 (lines 208-238), as a function of the row before. *)
Definition updated_row (event_type : string) (timestamp : datetime) (p : Payload)
    (duration amount : num) (n : nat) (old_avg : num) (st : UserStats) : UserStats :=
  let st1 := if truthy (pl_duration p) then
               set_avg_session_duration
                 match n with
                 | S _ => num_div_nat (num_add (num_mul_nat old_avg n) duration) (n + 1)
                 | O => duration
                 end st
             else st in
  let st2 := set_total_events (total_events st1 + 1) st1 in
  let st3 := set_last_active timestamp st2 in
  let st4 := if String.eqb event_type "purchase" then
               set_last_purchase timestamp
                 (set_total_spent (num_add (total_spent st3) amount)
                    (set_total_purchases (total_purchases st3 + 1) st3))
             else st3 in
  set_engagement_score (engagement (total_events st4) (total_purchases st4)) st4.

(** [Decimal(str(event_data.get("amount", 0)))] *)
Definition decimal_amount (p : Payload) : exn + num :=
  py_Decimal_str (match pl_amount p with
                  | VNone => VNum (num_of_Z 0)
                  | a => a
                  end).

Definition or_NaN (r : exn + num) : num :=
  match r with inr x => x | inl _ => NaN end.

(** The events and the purchases of a user in the log. *)
Definition events_of (user_id : string) (db : DB) : list UserEvent :=
  filter (fun e => String.eqb (ev_user_id e) user_id) (user_events db).

Definition purchases_of (user_id : string) (db : DB) : list UserEvent :=
  filter (fun e => String.eqb (ev_event_type e) "purchase") (events_of user_id db).

(** The keys of the three tables and what ties the tables together. *)
Definition unique_keys (db : DB) : Prop :=
  NoDup (map ev_event_id (user_events db)) /\
  NoDup (map u_user_id (users db)) /\
  NoDup (map st_user_id (user_stats db)).

Definition tables_agree (db : DB) : Prop :=
  (forall e, In e (user_events db) ->
     find_user (ev_user_id e) db <> None /\ find_stats (ev_user_id e) db <> None) /\
  (forall u, In u (users db) -> events_of (u_user_id u) db <> []) /\
  (forall st, In st (user_stats db) -> events_of (st_user_id st) db <> []).

Definition counters_agree (db : DB) : Prop :=
  forall st, In st (user_stats db) ->
    total_events st = Z.of_nat (length (events_of (st_user_id st) db)) /\
    total_purchases st = Z.of_nat (length (purchases_of (st_user_id st) db)).

(** The dates of the rows against the log: a user signed up at their
    first event, was last active at their last one, and last purchased at
    their last purchase. *)
Definition last_time (l : list UserEvent) : option datetime :=
  last (map (fun e => Some (ev_timestamp e)) l) None.

Definition dates_agree (db : DB) : Prop :=
  (forall u, In u (users db) ->
     option_map ev_timestamp (hd_error (events_of (u_user_id u) db))
       = Some (u_signup_date u)) /\
  (forall st, In st (user_stats db) ->
     last_active st = last_time (events_of (st_user_id st) db) /\
     last_purchase st = last_time (purchases_of (st_user_id st) db)).

Definition consistent (db : DB) : Prop :=
  unique_keys db /\ tables_agree db /\ counters_agree db /\ dates_agree db.

(** What the service writes into the dead-letter queue. *)
Definition dlq_row_ok (d : DeadLetterQueue) : Prop :=
  dlq_retry_count d = 0%Z /\ dlq_event_id d = pl_event_id (dlq_event_data d).

(** [l] is [l'] with rows added at the end. *)
Definition extends {A} (l l' : list A) : Prop := exists more, l' = (l ++ more)%list.

(* ===================================================================== *)
(** ** KafkaConsumerService and the loop of [main]                       *)
(* ===================================================================== *)

Inductive KafkaErrorCode : Type :=
| PARTITION_EOF
| ALL_BROKERS_DOWN
| OTHER_ERROR.

(** What [self.consumer.poll(timeout_ms)] gives. *)
Inductive PollResult : Type :=
| PollNone                                   (* no message before the timeout *)
| PollRaises                                 (* poll raised *)
| PollError (code : KafkaErrorCode)          (* a message with [msg.error()] *)
| PollRecord (offset : Z) (value : option Payload)
    (* a record; [value] is [json.loads] of its bytes when they decode to an
       object, [None] when decoding raises *)
| PollNonObject (offset : Z).
    (* a record whose bytes decode to JSON that is not an object: a list, a
       string, a number, [true], [false] or [null] *)

(** What [consume_message] returns when it returns a dict: its ["value"]
    is an event object, or some other JSON value. *)
Inductive Delivery : Type :=
| Event (m : Message)
| NotAnObject (offset : Z).

Record KafkaConsumerService : Type := {
  has_consumer : bool;     (* [self.consumer] is not None *)
  is_connected : bool
}.

Definition disconnected (svc : KafkaConsumerService) : KafkaConsumerService :=
  {| has_consumer := has_consumer svc; is_connected := false |}.

(** What the two calls of [connect] do: [Consumer(conf)] raises, or it
    returns and [subscribe] raises, or both go through. *)
Inductive ConnectOutcome : Type :=
| ConsumerRaises
| SubscribeRaises
| Subscribed.

(** KafkaConsumerService.connect.  [self.consumer] is assigned before
    [subscribe] is called, so it stays set when [subscribe] raises. *)
Definition connect (outcome : ConnectOutcome) (svc : KafkaConsumerService)
    : bool * KafkaConsumerService :=
  match outcome with
  | ConsumerRaises => (false, disconnected svc)
  | SubscribeRaises => (false, {| has_consumer := true; is_connected := false |})
  | Subscribed => (true, {| has_consumer := true; is_connected := true |})
  end.

(** KafkaConsumerService.consume_message: the message dict it returns (its
    value and offset), the service afterwards, and whether the consumer
    was polled at all. *)
Definition consume_message (poll : PollResult) (svc : KafkaConsumerService)
    : option Delivery * KafkaConsumerService * bool :=
  if negb (has_consumer svc) || negb (is_connected svc) then (None, svc, false)
  else
    match poll with
    | PollNone => (None, svc, true)
    | PollRaises => (None, svc, true)
    | PollError ALL_BROKERS_DOWN => (None, disconnected svc, true)
    | PollError _ => (None, svc, true)
    | PollRecord offset (Some value) =>
        (Some (Event {| msg_value := value; msg_offset := offset |}), svc, true)
    | PollRecord _ None => (None, svc, true)
    | PollNonObject offset => (Some (NotAnObject offset), svc, true)
    end.

(** What one turn of [while not shutdown_requested] meets: the flag, the
    answer of the poll, and, when a message is processed, the behaviour of
    the database and of the broker. *)
Record Tick : Type := {
  tick_shutdown : bool;
  tick_poll : PollResult;
  tick_faults : oracle;
  tick_dlq_faults : oracle;
  tick_ack : bool
}.

Record Coordinator : Type := {
  co_world : World;
  co_service : KafkaConsumerService
}.

(** [max_events and consumer_state.processed >= max_events] *)
Definition max_reached (max_events : option Z) (c : ConsumerState) : bool :=
  match max_events with
  | None => false
  | Some n => negb (Z.eqb n 0) && Z.geb (processed c) n
  end.

(** The consumer has fetched the record at [offset]. *)
Definition fetched (poll : PollResult) (polled_at_all : bool) (w : World) : World :=
  match poll, polled_at_all with
  | PollRecord offset _, true | PollNonObject offset, true =>
      {| w_db := w_db w; w_state := w_state w;
         w_position := offset + 1; w_committed := w_committed w |}
  | _, _ => w
  end.

(** The "Process Message" block on a message whose value is not a dict.
    [store_event] raises ValueError before any statement is sent:
    [validate_event] answers the AttributeError of [event_data.keys()]
    with [(False, "Validation error: ...")].  The branch [except
    ValueError] then calls [log_dead_letter], which returns [False]
    without writing, [event_data.get] raising inside its [try]; the
    counters and the commit follow as for any validation error. *)
Definition process_non_object (ack : bool) (offset : Z) (w0 : World) : World :=
  let w := {| w_db := w_db w0; w_state := w_state w0;
              w_position := offset + 1; w_committed := w_committed w0 |} in
  let w := with_state incr_dlq_logged w in
  let w := with_state incr_failed w in
  snd (commit_offset ack w).

(** The loop of [main], run on the turns [ticks]; it also stops when the
    turns run out. *)
Fixpoint main_loop (max_events : option Z) (ticks : list Tick) (c : Coordinator)
    : Coordinator :=
  match ticks with
  | [] => c
  | t :: ticks' =>
      if tick_shutdown t then c
      else if max_reached max_events (w_state (co_world c)) then c
      else
        let '(msg, svc, polled_at_all) := consume_message (tick_poll t) (co_service c) in
        let w := fetched (tick_poll t) polled_at_all (co_world c) in
        match msg with
        | None => main_loop max_events ticks' {| co_world := w; co_service := svc |}
        | Some (Event m) =>
            main_loop max_events ticks'
              {| co_world := process_message (tick_faults t) (tick_dlq_faults t)
                               (tick_ack t) m w;
                 co_service := svc |}
        | Some (NotAnObject offset) =>
            main_loop max_events ticks'
              {| co_world := process_non_object (tick_ack t) offset w;
                 co_service := svc |}
        end
  end.

(** KafkaConsumerService.close: the final commit, then [is_connected =
    False] whatever failed. *)
Definition close (ack : bool) (c : Coordinator) : Coordinator :=
  if has_consumer (co_service c) then
    {| co_world := snd (commit_offset ack (co_world c));
       co_service := disconnected (co_service c) |}
  else c.

(** ConsumerState.get_stats()["total_events"] *)
Definition stats_total_events (c : ConsumerState) : Z :=
  processed c + failed c + duplicates c.

(** [self.consumer] is there and [is_connected] is set. *)
Definition connected (svc : KafkaConsumerService) : bool :=
  has_consumer svc && is_connected svc.

(** A turn on which the loop is not asked to stop and the brokers are
    not all down. *)
Definition steady (t : Tick) : bool :=
  negb (tick_shutdown t) &&
  match tick_poll t with
  | PollError ALL_BROKERS_DOWN => false
  | _ => true
  end.

(** The records a consumer that stays connected takes out of the turns:
    those whose bytes decode, to an object or not. *)
Definition is_record (t : Tick) : bool :=
  match tick_poll t with
  | PollRecord _ (Some _) | PollNonObject _ => true
  | _ => false
  end.

End Service.

(* ===================================================================== *)
(** ** Concrete payloads, oracles and runs                               *)
(* ===================================================================== *)

Definition ts0 : string := "2024-01-15T10:00:00".

Definition event (user_id event_id event_type : string) (amount duration : pyval)
    : Payload :=
  {| pl_user_id := Some user_id; pl_event_id := Some event_id;
     pl_event_type := Some event_type; pl_timestamp := Some ts0;
     pl_amount := amount; pl_duration := duration;
     pl_email := None; pl_first_name := None; pl_last_name := None;
     pl_country := None; pl_event_metadata := None |}.

(** Scenario A of the spec. *)
Definition click_e1 : Payload := event "u1" "e1" "click" VNone VNone.

Definition video (event_id : string) (seconds : Z) : Payload :=
  event "u1" event_id "video" VNone (VNum (num_of_Z seconds)).

(** Scenario F of the spec. *)
Definition purchase_minus_5 : Payload :=
  event "u1" "e1" "purchase" (VNum (num_of_Z (-5))) VNone.

(** [{..., "amount": Infinity}], which [json.loads] decodes to [float('inf')]. *)
Definition purchase_infinity : Payload :=
  event "u1" "e1" "purchase" (VNum PInf) VNone.

(** [{..., "amount": 1797...}], the integer [2^1024]. *)
Definition purchase_huge : Payload :=
  event "u1" "e1" "purchase" (VNum (num_of_Z (2 ^ 1024))) VNone.

Definition video_abc : Payload := event "u1" "e1" "video" VNone (VStr "abc").

Definition video_list : Payload :=
  event "u1" "e1" "video" VNone (VList [VNum (num_of_Z 1)]).

(** The database refuses the commit: a lost connection. *)
Definition commit_lost : oracle :=
  fun op => match op with
            | Commit => Some (DbOther "OperationalError"
                                      "server closed the connection unexpectedly")
            | _ => None
            end.


(** [store_event] in a fresh session on [db], with the sample builtins. *)
Definition run_store (faults : oracle) (p : Payload) (db : DB)
    : (exn + option string) * Session :=
  store_event (B := sample_builtins) faults p (SessionLocal db).

Definition stored (p : Payload) (db : DB) : DB :=
  committed (snd (run_store no_faults p db)).

Definition db_e1 : DB := stored click_e1 empty_db.

Definition db_10 : DB := stored (video "e1" 10) empty_db.

Definition db_10_0 : DB := stored (video "e2" 0) db_10.

Definition message (p : Payload) (offset : Z) : Message :=
  {| msg_value := p; msg_offset := offset |}.

Definition deliver (faults : oracle) (msg : Message) (w : World) : World :=
  process_message (B := sample_builtins) faults no_faults true msg w.

(** A purchase of 20 by the user of [click_e1]. *)
Definition purchase_e2 : Payload :=
  event "u1" "e2" "purchase" (VNum (num_of_Z 20)) VNone.

Definition db_e1_e2 : DB := stored purchase_e2 db_e1.

(** A click whose event id is the empty string. *)
Definition click_unnamed : Payload := event "u1" "" "click" VNone VNone.

(** [log_dead_letter] in a fresh session on [db], with status pending. *)
Definition run_dead_letter (faults : oracle) (p : Payload) (m ty : string) (db : DB)
    : (exn + bool) * Session :=
  log_dead_letter faults p m ty "pending" (SessionLocal db).

Definition db_dead : DB :=
  committed (snd (run_dead_letter no_faults purchase_minus_5
                    "Invalid amount: -5.0 (must be positive)" "ValueError" db_e1)).

Definition summary_e1 : DlqSummary :=
  {| total_failed := 0; by_error_type := []; recent_entries := [] |}.

Definition summary_dead : DlqSummary :=
  {| total_failed := 1; by_error_type := [("ValueError", 1%nat)];
     recent_entries := [(Some "e1", "ValueError")] |}.

(** A turn of the loop with a database that accepts everything. *)
Definition turn (poll : PollResult) (ack : bool) : Tick :=
  {| tick_shutdown := false; tick_poll := poll; tick_faults := no_faults;
     tick_dlq_faults := no_faults; tick_ack := ack |}.

(** The coordinator after [connect], before the first turn. *)
Definition online : Coordinator :=
  {| co_world := initial_world;
     co_service := {| has_consumer := true; is_connected := true |} |}.

Definition run_loop (max_events : option Z) (ticks : list Tick) (c : Coordinator)
    : Coordinator :=
  main_loop (B := sample_builtins) max_events ticks c.

Definition three_turns : list Tick :=
  [turn (PollRecord 0 (Some click_e1)) false;
   turn (PollRecord 1 None) true;
   turn PollNone true].


(* ===================================================================== *)
(** ** Properties                                                        *)
(* ===================================================================== *)

Section Properties.

Context {B : Builtins}.

(** *** Rules for [hoare] *)

Lemma hoare_ret {A} P (a : A) (Q : A -> Session -> Prop) E :
  (forall s, P s -> Q a s) -> hoare P (ret a) Q E.
Proof. intros H s Hs. simpl. auto. Qed.

Lemma hoare_raise {A} P e (Q : A -> Session -> Prop) (E : exn -> Session -> Prop) :
  (forall s, P s -> E e s) -> hoare P (raise e) Q E.
Proof. intros H s Hs. simpl. auto. Qed.

Lemma hoare_bind {A C} P (m : M A) (k : A -> M C) R Q E :
  hoare P m R E -> (forall a, hoare (R a) (k a) Q E) -> hoare P (bind m k) Q E.
Proof.
  intros Hm Hk s Hs. unfold bind. specialize (Hm s Hs).
  destruct (m s) as [[e | a] s']; [exact Hm | exact (Hk a s' Hm)].
Qed.

Lemma hoare_lift {A} P (r : exn + A) (Q : A -> Session -> Prop) E :
  (forall s a, P s -> r = inr a -> Q a s) ->
  (forall s e, P s -> r = inl e -> E e s) ->
  hoare P (lift r) Q E.
Proof. intros Hq He s Hs. destruct r; simpl; eauto. Qed.

Lemma hoare_get P (Q : DB -> Session -> Prop) E :
  (forall s, P s -> Q (pending s) s) -> hoare P get_pending Q E.
Proof. intros H s Hs. simpl. auto. Qed.

Lemma hoare_modify P f (Q : unit -> Session -> Prop) E :
  (forall s, P s ->
     Q tt {| committed := committed s; pending := f (pending s); calls := calls s |}) ->
  hoare P (modify_pending f) Q E.
Proof. intros H s Hs. simpl. auto. Qed.

Lemma hoare_stmt faults op P (Q : unit -> Session -> Prop) E :
  (forall s, P s -> faults op = None -> Q tt (record_call op s)) ->
  (forall s err, P s -> faults op = Some err ->
     E (exn_of_dberr err) (record_call op s)) ->
  hoare P (db_stmt faults op) Q E.
Proof.
  intros Hq He s Hs. unfold db_stmt.
  destruct (faults op) eqn:F; eauto.
Qed.

Lemma hoare_commit faults P (Q : unit -> Session -> Prop) E :
  (forall s, P s -> faults Commit = None ->
     Q tt {| committed := pending s; pending := pending s;
             calls := (calls s ++ [Commit])%list |}) ->
  (forall s err, P s -> faults Commit = Some err ->
     E (exn_of_dberr err) (record_call Commit s)) ->
  hoare P (db_commit faults) Q E.
Proof.
  intros Hq He s Hs. unfold db_commit, bind, db_stmt.
  destruct (faults Commit) eqn:F; simpl; eauto.
Qed.

Lemma hoare_conseq {A} (P P' : Session -> Prop) (m : M A)
    (Q Q' : A -> Session -> Prop) (E E' : exn -> Session -> Prop) :
  hoare P' m Q' E' ->
  (forall s, P s -> P' s) ->
  (forall a s, Q' a s -> Q a s) ->
  (forall e s, E' e s -> E e s) ->
  hoare P m Q E.
Proof.
  intros H HP HQ HE s Hs. specialize (H s (HP s Hs)).
  destruct (m s) as [[e | a] s']; auto.
Qed.

(** *** The body of [store_event] commits nothing before it returns *)

Section Running.

Variable faults : oracle.
Variable c0 : DB.
Variable k0 : list dbop.

Let running := running faults c0 k0.
Let returned := returned faults k0.
Let raised := raised faults c0 k0.

Lemma running_raised e s : running s -> raised e s.
Proof.
  intros [Hc (l & Hl & Hall)]. split; [exact Hc |].
  exists l. split; [exact Hl |]. split.
  - eapply Forall_impl; [| exact Hall]. simpl. tauto.
  - intros op err Hin F. rewrite Forall_forall in Hall.
    destruct (Hall op Hin) as [_ F']. congruence.
Qed.

Lemma running_returned s : running s -> returned s.
Proof. intros [_ H]. exact H. Qed.

Lemma keeps_ret {A} (a : A) : hoare running (ret a) (fun _ => running) raised.
Proof. apply hoare_ret. auto. Qed.

Lemma done_ret {A} (a : A) : hoare running (ret a) (fun _ => returned) raised.
Proof. apply hoare_ret. apply running_returned. Qed.

Lemma keeps_raise {A} e (Q : A -> Session -> Prop) : hoare running (raise e) Q raised.
Proof. apply hoare_raise. intros. now apply running_raised. Qed.

Lemma keeps_lift {A} (r : exn + A) : hoare running (lift r) (fun _ => running) raised.
Proof. apply hoare_lift; intros; auto. now apply running_raised. Qed.

Lemma keeps_get : hoare running get_pending (fun _ => running) raised.
Proof. apply hoare_get. auto. Qed.

Lemma keeps_modify f : hoare running (modify_pending f) (fun _ => running) raised.
Proof. apply hoare_modify. intros s H. exact H. Qed.

Lemma keeps_stmt op :
  op <> Rollback -> hoare running (db_stmt faults op) (fun _ => running) raised.
Proof.
  intros Hop. apply hoare_stmt.
  - intros s [Hc (l & Hl & Hall)] F. split; [exact Hc |].
    exists (l ++ [op])%list. split.
    + unfold sent_since in *. simpl. rewrite Hl. now rewrite app_assoc.
    + apply Forall_app. split; [exact Hall |]. constructor; auto.
  - intros s err [Hc (l & Hl & Hall)] F. split; [exact Hc |].
    exists (l ++ [op])%list. split; [| split].
    + unfold sent_since in *. simpl. rewrite Hl. now rewrite app_assoc.
    + apply Forall_app. split.
      * eapply Forall_impl; [| exact Hall]. simpl. tauto.
      * constructor; auto.
    + intros op' err' Hin F'. apply in_app_or in Hin. destruct Hin as [Hin | Hin].
      * rewrite Forall_forall in Hall. destruct (Hall op' Hin). congruence.
      * destruct Hin as [<- | []]. congruence.
Qed.

Lemma done_commit :
  hoare running (db_commit faults) (fun _ => returned) raised.
Proof.
  unfold db_commit. eapply hoare_bind; [apply keeps_stmt; discriminate |].
  intros _ s H. simpl. destruct H as [_ H]. exact H.
Qed.

Lemma returned_ret {A} (a : A) : hoare returned (ret a) (fun _ => returned) raised.
Proof. apply hoare_ret. auto. Qed.

End Running.

Ltac keeps_step :=
  match goal with
  | |- hoare _ (bind _ _) _ _ => eapply hoare_bind; [| intros ?]
  | |- hoare _ (ret _) (fun _ => returned _ _) _ => first [apply done_ret | apply returned_ret]
  | |- hoare _ (ret _) _ _ => apply keeps_ret
  | |- hoare _ (raise _) _ _ => apply keeps_raise
  | |- hoare _ (lift _) _ _ => apply keeps_lift
  | |- hoare _ get_pending _ _ => apply keeps_get
  | |- hoare _ (modify_pending _) _ _ => apply keeps_modify
  | |- hoare _ (db_stmt _ _) _ _ => apply keeps_stmt; discriminate
  | |- hoare _ (db_commit _) _ _ => apply done_commit
  | |- hoare _ (match ?x with _ => _ end) _ _ => destruct x
  end.

Lemma store_event_body_runs faults c0 k0 p :
  hoare (running faults c0 k0) (store_event_body faults p)
        (fun _ => returned faults k0) (raised faults c0 k0).
Proof.
  unfold store_event_body.
  destruct (validate_event p) as [[|] msg]; simpl negb; cbv iota.
  2: apply keeps_raise.
  repeat keeps_step.
Qed.

(** What a call of [store_event] comes to: either its body returned, and
    every statement it sent was accepted; or the body raised, the handler
    rolled back, and the call returns [None] for a duplicate-key
    IntegrityError and raises the error again otherwise. *)
Lemma store_event_outcome faults p s r s' :
  store_event faults p s = (r, s') ->
  (exists l v, sent_during s s' l /\ r = inr v /\
     Forall (fun op => op <> Rollback /\ faults op = None) l)
  \/
  (exists l e, sent_during s s' (l ++ [Rollback]) /\
     committed s' = committed s /\ pending s' = committed s /\
     Forall (fun op => op <> Rollback) l /\
     (forall op err, In op l -> faults op = Some err -> e = exn_of_dberr err) /\
     r = match e with
         | IntegrityError m => if is_duplicate_msg m then inr None else inl e
         | _ => inl e
         end).
Proof.
  unfold store_event, try_except. intros H.
  pose proof (store_event_body_runs faults (committed s) (calls s) p s) as Hb.
  assert (Hrun : running faults (committed s) (calls s) s).
  { split; [reflexivity |]. exists []. split; [| constructor].
    unfold sent_since. now rewrite app_nil_r. }
  specialize (Hb Hrun).
  destruct (store_event_body faults p s) as [[e | v] s1].
  - right. destruct Hb as [Hc (l & Hl & Hnr & Hsrc)].
    exists l, e.
    assert (Hs' : s' = {| committed := committed s1; pending := committed s1;
                          calls := (calls s1 ++ [Rollback])%list |} /\
                  r = match e with
                      | IntegrityError m => if is_duplicate_msg m then inr None else inl e
                      | _ => inl e
                      end).
    { destruct e; simpl in H; try (inversion H; subst; split; reflexivity).
      unfold bind, db_rollback in H. simpl in H.
      destruct (is_duplicate_msg msg); inversion H; subst; split; reflexivity. }
    destruct Hs' as [-> ->]. simpl. unfold sent_during, sent_since in *. simpl.
    rewrite Hl, Hc. rewrite app_assoc. repeat split; auto.
  - left. inversion H; subst. destruct Hb as (l & Hl & Hall).
    exists l, v. repeat split; auto.
Qed.

Lemma store_event_raises_clean faults p s e s' :
  store_event faults p s = (inl e, s') ->
  committed s' = committed s /\ pending s' = committed s.
Proof.
  intros H. destruct (store_event_outcome _ _ _ _ _ H)
    as [(l & v & _ & Hr & _) | (l & e0 & _ & Hc & Hp & _)]; [discriminate | auto].
Qed.

(** C5.  When the database refuses a statement of [store_event] with
    anything but a duplicate-key violation, the call raises that error;
    whenever the call raises, it has rolled back and nothing it wrote is
    visible: the committed database is the one before the call and the
    session's view equals it.  When validation fails, the call raises
    ValueError and the rollback is the only thing the session was asked
    to do. *)
Theorem store_event_failure_rolls_back faults p s r s' :
  store_event faults p s = (r, s') ->
  exists l, sent_during s s' l /\
    (forall op err, op <> Rollback -> In op l -> faults op = Some err ->
       is_duplicate_err err = false -> r = inl (exn_of_dberr err)) /\
    (forall e, r = inl e ->
       committed s' = committed s /\ pending s' = committed s /\
       exists l0, l = (l0 ++ [Rollback])%list) /\
    (fst (validate_event p) = false ->
       l = [Rollback] /\ exists m, r = inl (ValueError m)).
Proof.
  intros H. destruct (store_event_outcome _ _ _ _ _ H)
    as [(l & v & Hl & -> & Hall) | (l & e & Hl & Hc & Hp & Hnr & Hsrc & Hr)].
  - exists l. split; [exact Hl |]. split; [| split].
    + intros op err _ Hin F _. rewrite Forall_forall in Hall.
      destruct (Hall op Hin). congruence.
    + intros e He. discriminate.
    + intros Hv. exfalso. revert H. unfold store_event, try_except, store_event_body.
      destruct (validate_event p) as [[|] msg]; [discriminate |]. simpl.
      discriminate.
  - exists (l ++ [Rollback])%list. split; [exact Hl |]. split; [| split].
    + intros op err Hop Hin F Hd. apply in_app_or in Hin.
      destruct Hin as [Hin | [<- | []]]; [| congruence].
      rewrite (Hsrc op err Hin F) in Hr. rewrite Hr.
      destruct err; simpl in *; [rewrite Hd |]; reflexivity.
    + intros e' He'. repeat split; auto. now exists l.
    + intros Hv. revert H Hl. unfold store_event, try_except, store_event_body.
      destruct (validate_event p) as [[|] msg]; [discriminate |]. simpl.
      intros H. inversion H; subst. unfold sent_during. simpl.
      intros Hl. apply app_inv_head in Hl. split; [now symmetry | eauto].
Qed.


(** *** Validation *)

Lemma validate_event_fields p :
  fst (validate_event p) = true ->
  exists user_id event_id event_type ts t,
    pl_user_id p = Some user_id /\ pl_event_id p = Some event_id /\
    pl_event_type p = Some event_type /\ pl_timestamp p = Some ts /\
    fromisoformat ts = Some t.
Proof.
  unfold validate_event, has_key. simpl filter.
  destruct (pl_user_id p) as [u |], (pl_event_id p) as [e |],
           (pl_event_type p) as [ty |], (pl_timestamp p) as [ts |];
    simpl; try discriminate.
  destruct (fromisoformat ts) as [t |] eqn:Ht; [| discriminate].
  intros _. exists u, e, ty, ts, t. auto.
Qed.

Lemma validate_event_true_None p :
  fst (validate_event p) = true -> validate_event p = (true, None).
Proof.
  unfold validate_event.
  destruct (filter _ REQUIRED_FIELDS); [| discriminate].
  destruct (pl_timestamp p); [| discriminate].
  destruct (fromisoformat s); [| discriminate].
  destruct (opt_str_eqb _ _); [| reflexivity].
  destruct (is_None _); [discriminate |].
  destruct (py_float _) as [e |];
    [destruct (is_TypeError_or_ValueError e); discriminate |].
  destruct (num_le0 _); [discriminate | reflexivity].
Qed.

(** A payload that fails validation: [store_event] raises ValueError with
    the reason, having asked the session for nothing but the rollback. *)
Lemma store_event_invalid faults p s :
  fst (validate_event p) = false ->
  store_event faults p s =
    (inl (ValueError (str_of_opt (snd (validate_event p)))),
     {| committed := committed s; pending := committed s;
        calls := (calls s ++ [Rollback])%list |}).
Proof.
  intros H. unfold store_event, try_except, store_event_body.
  destruct (validate_event p) as [[|] msg]; [discriminate |]. reflexivity.
Qed.

Lemma store_event_duplicate faults p s event_id :
  fst (validate_event p) = true ->
  pl_event_id p = Some event_id ->
  find_event event_id (pending s) <> None ->
  faults QueryEvent = None ->
  store_event faults p s = (inr (Some event_id), record_call QueryEvent s).
Proof.
  intros Hv He Hfound Hq.
  destruct (validate_event_fields p Hv) as (u & e & ty & ts & t & Hu & He' & Hty & Hts & Ht).
  rewrite He in He'. inversion He'; subst e.
  unfold store_event, try_except, store_event_body.
  rewrite (validate_event_true_None p Hv). simpl negb. cbv iota.
  rewrite Hu, He, Hty, Hts.
  unfold bind, db_stmt, get_pending. rewrite Hq. simpl.
  destruct (find_event event_id (pending s)); [reflexivity | congruence].
Qed.

(** C3.  A valid payload whose event identifier is already stored:
    [store_event] returns that identifier, and neither the committed
    database nor the session's view changes, so the statistics of every
    user are what they were; the lookup is the only statement sent.
    ([store_event_twice] below: a payload that was stored once is such a
    payload.) *)
Theorem duplicate_event_is_noop faults p s event_id :
  fst (validate_event p) = true ->
  pl_event_id p = Some event_id ->
  find_event event_id (pending s) <> None ->
  faults QueryEvent = None ->
  exists s',
    store_event faults p s = (inr (Some event_id), s') /\
    committed s' = committed s /\ pending s' = pending s /\
    (forall user_id,
       get_user_stats (pending s') user_id = get_user_stats (pending s) user_id /\
       get_user_stats (committed s') user_id = get_user_stats (committed s) user_id) /\
    sent_during s s' [QueryEvent].
Proof.
  intros Hv He Hfound Hq. exists (record_call QueryEvent s).
  split; [now apply store_event_duplicate |].
  do 2 (split; [reflexivity |]).
  split; [intros; split; reflexivity | reflexivity].
Qed.

(** *** What a successful call has stored *)

Lemma find_app_last {A} (f : A -> bool) l x :
  f x = true -> find f (l ++ [x]) <> None.
Proof.
  intros Hx. induction l as [| a l IH]; simpl.
  - rewrite Hx. discriminate.
  - destruct (f a); [discriminate | exact IH].
Qed.

Ltac inv_step I side :=
  match goal with
  | |- hoare _ (bind (modify_pending (add_event _)) _) _ _ => fail 1
  | |- hoare _ (bind _ _) _ _ => eapply (hoare_bind _ _ _ (fun _ => I)); [| intros ?]
  | |- hoare _ (ret _) _ _ => apply hoare_ret; side
  | |- hoare _ (raise _) _ _ => apply hoare_raise; side
  | |- hoare _ (lift _) _ _ => apply hoare_lift; side
  | |- hoare _ get_pending _ _ => apply hoare_get; side
  | |- hoare _ (modify_pending _) _ _ => apply hoare_modify; side
  | |- hoare _ (db_stmt _ _) _ _ => apply hoare_stmt; side
  | |- hoare _ (db_commit _) _ _ => apply hoare_commit; side
  | |- hoare _ (match ?x with _ => _ end) _ _ => destruct x
  end.

Lemma store_event_body_stores faults p :
  hoare (fun _ => True) (store_event_body faults p)
        (fun v s => exists event_id, v = Some event_id /\
                      pl_event_id p = Some event_id /\
                      find_event event_id (pending s) <> None)
        (fun _ _ => True).
Proof.
  unfold store_event_body.
  destruct (validate_event p) as [[|] msg]; simpl negb; cbv iota.
  2: now apply hoare_raise.
  destruct (pl_user_id p) as [user_id |], (pl_event_id p) as [event_id |],
           (pl_event_type p) as [event_type |], (pl_timestamp p) as [ts |];
    try now apply hoare_raise.
  eapply (hoare_bind _ _ _ (fun _ _ => True)); [now apply hoare_stmt | intros _].
  eapply (hoare_bind _ _ _ (fun db s => db = pending s)); [now apply hoare_get |].
  intros db. destruct (find_event event_id db) eqn:Hfound.
  - apply hoare_ret. intros s ->. exists event_id. rewrite Hfound.
    repeat split. discriminate.
  - apply hoare_conseq with (P' := fun _ => True)
      (Q' := fun v s => exists event_id0, v = Some event_id0 /\
                          Some event_id = Some event_id0 /\
                          find_event event_id0 (pending s) <> None)
      (E' := fun _ _ => True); auto.
    repeat inv_step (fun _ : Session => True) ltac:(auto).
    eapply (hoare_bind _ _ _
              (fun _ s => find_event event_id (pending s) <> None)).
    + apply hoare_modify. intros s _. simpl. unfold find_event, add_event. simpl.
      apply find_app_last. simpl. apply String.eqb_refl.
    + intros _.
      repeat inv_step (fun s : Session => find_event event_id (pending s) <> None)
                      ltac:(first [ intros ? H; exact H
                                  | intros ? H ?; exact H
                                  | intros ? ? H ?; exact H
                                  | intros; exact Logic.I
                                  | intros ? H; exists event_id; auto ]).
Qed.

Lemma store_event_stores faults p s event_id s' :
  store_event faults p s = (inr (Some event_id), s') ->
  fst (validate_event p) = true /\
  pl_event_id p = Some event_id /\
  find_event event_id (pending s') <> None.
Proof.
  intros H. split.
  - destruct (fst (validate_event p)) eqn:Hv; [reflexivity |].
    rewrite (store_event_invalid faults p s Hv) in H. discriminate.
  - unfold store_event, try_except in H.
    pose proof (store_event_body_stores faults p s Logic.I) as Hb.
    destruct (store_event_body faults p s) as [[e | v] s1].
    + exfalso. destruct e; simpl in H; try discriminate.
      unfold bind, db_rollback in H. simpl in H.
      destruct (is_duplicate_msg msg); discriminate.
    + inversion H; subst. destruct Hb as (eid & Hv & He & Hf).
      inversion Hv; subst. auto.
Qed.

(** Storing a payload a second time, in the session that stored it:
    the same identifier, and nothing changes. *)
Lemma store_event_twice faults1 faults2 p s event_id s1 :
  store_event faults1 p s = (inr (Some event_id), s1) ->
  faults2 QueryEvent = None ->
  store_event faults2 p s1 = (inr (Some event_id), record_call QueryEvent s1).
Proof.
  intros H Hq. destruct (store_event_stores _ _ _ _ _ H) as (Hv & He & Hf).
  now apply store_event_duplicate.
Qed.

Lemma contains_app_r needle a b :
  contains needle b = true -> contains needle (a ++ b) = true.
Proof.
  intros H. induction a as [| c a IH]; [exact H |].
  change (contains needle (String c a ++ b))
    with (if String.prefix needle (String c (a ++ b)) then true
          else contains needle (a ++ b)).
  rewrite IH. now destruct (String.prefix needle (String c (a ++ b))).
Qed.

(** C7 (as amended).  For a purchase, validation passes only when an
    amount is present, [float] converts it, and the converted value is not
    [<= 0]: a finite value that passes is strictly positive.  With the
    required fields and a well-formed timestamp, a missing amount, an
    amount on which [float] raises TypeError or ValueError and an amount
    [<= 0] are refused with three different reasons, the last of which
    contains the word positive; [float] fails in another way only on an
    integer too large for a float, and that amount is refused by the
    catch-all with a fourth reason.  A payload that fails validation
    makes [store_event] raise ValueError without any statement sent: no
    row is created. *)
Theorem purchase_amount_validation p :
  pl_event_type p = Some "purchase" ->
  (fst (validate_event p) = true ->
     pl_amount p <> VNone /\
     exists x, py_float (pl_amount p) = inr x /\ num_le0 x = false /\
               forall q, x = Fin q -> (0 < q)%Qc) /\
  (forall ts t, pl_user_id p <> None -> pl_event_id p <> None ->
     pl_timestamp p = Some ts -> fromisoformat ts = Some t ->
     validate_event p =
       match pl_amount p with
       | VNone => (false, Some reason_missing_amount)
       | a => match py_float a with
              | inl e => if is_TypeError_or_ValueError e
                         then (false, Some (reason_not_numeric a))
                         else (false, Some (reason_validation_error e))
              | inr x => if num_le0 x then (false, Some (reason_not_positive x))
                         else (true, None)
              end
       end) /\
  (forall a e, py_float a = inl e ->
     if is_TypeError_or_ValueError e
     then forall x, a <> VNum x
     else exists q, a = VNum (Fin q) /\ too_large q = true /\
                    e = OverflowError "int too large to convert to float") /\
  (forall q, too_large q = true ->
     py_float (VNum (Fin q)) = inl (OverflowError "int too large to convert to float")) /\
  (forall a x e,
     contains "positive" (reason_not_positive x) = true /\
     reason_missing_amount <> reason_not_numeric a /\
     reason_missing_amount <> reason_not_positive x /\
     reason_not_numeric a <> reason_not_positive x /\
     reason_validation_error e <> reason_missing_amount /\
     reason_validation_error e <> reason_not_numeric a /\
     reason_validation_error e <> reason_not_positive x) /\
  (fst (validate_event p) = false ->
     forall faults s, exists m s',
       store_event faults p s = (inl (ValueError m), s') /\
       committed s' = committed s /\ pending s' = committed s /\
       sent_during s s' [Rollback]).
Proof.
  intros Hty. split; [| split; [| split; [| split; [| split]]]].
  - intros H.
    assert (Hx : exists x, py_float (pl_amount p) = inr x /\ num_le0 x = false /\
                           is_None (pl_amount p) = false).
    { revert H. unfold validate_event.
      destruct (filter _ REQUIRED_FIELDS); [| discriminate].
      destruct (pl_timestamp p); [| discriminate].
      destruct (fromisoformat s); [| discriminate].
      rewrite Hty. simpl.
      destruct (is_None (pl_amount p)); [discriminate |].
      destruct (py_float (pl_amount p)) as [e | x];
        [destruct (is_TypeError_or_ValueError e); discriminate |].
      destruct (num_le0 x) eqn:Hle; [discriminate |].
      intros _. exists x. auto. }
    destruct Hx as (x & Hf & Hle & Hn). split.
    + intros Ha. rewrite Ha in Hn. discriminate.
    + exists x. split; [exact Hf |]. split; [exact Hle |].
      intros q ->. simpl in Hle.
      destruct (Qclt_le_dec 0 q) as [Hlt | Hge]; [exact Hlt |].
      apply Qle_bool_iff in Hge. change (Qle_bool q 0 = true) in Hge. congruence.
  - intros ts t Hu He Hts Ht. unfold validate_event, has_key. simpl filter.
    destruct (pl_user_id p); [| congruence].
    destruct (pl_event_id p); [| congruence].
    rewrite Hty, Hts. simpl. rewrite Ht.
    destruct (pl_amount p); reflexivity.
  - intros a e Hf.
    destruct a as [| b | [q | | |] | str | l | d]; simpl in Hf;
      try (injection Hf as <-; simpl; intros; discriminate);
      try discriminate.
    + destruct (too_large q) eqn:Ht; [| discriminate].
      injection Hf as <-. simpl. exists q. auto.
    + destruct (float_of_str str); [discriminate |].
      injection Hf as <-. simpl. intros; discriminate.
  - intros q Ht. simpl. now rewrite Ht.
  - intros a x e. repeat match goal with |- _ /\ _ => split end.
    + unfold reason_not_positive.
      change ("Invalid amount: " ++ py_str (VNum x) ++ " (must be positive)")
        with (("Invalid amount: " ++ py_str (VNum x)) ++ " (must be positive)").
      apply contains_app_r. reflexivity.
    + unfold reason_missing_amount, reason_not_numeric. simpl. discriminate.
    + unfold reason_missing_amount, reason_not_positive. simpl. discriminate.
    + unfold reason_not_numeric, reason_not_positive. simpl. discriminate.
    + unfold reason_missing_amount, reason_validation_error. simpl. discriminate.
    + unfold reason_not_numeric, reason_validation_error. simpl. discriminate.
    + unfold reason_not_positive, reason_validation_error. simpl. discriminate.
  - intros Hv faults s. rewrite (store_event_invalid faults p s Hv).
    eexists _, _. split; [reflexivity |]. repeat split.
Qed.

(** *** The dead-letter recorder *)

Lemma log_dead_letter_run faults p m ty status s :
  log_dead_letter faults p m ty status s =
    match faults Commit with
    | None =>
        (inr true,
         {| committed := add_dlq (dead_letter p m ty status) (pending s);
            pending := add_dlq (dead_letter p m ty status) (pending s);
            calls := (calls s ++ [Commit])%list |})
    | Some _ =>
        (inr false,
         {| committed := committed s; pending := committed s;
            calls := ((calls s ++ [Commit]) ++ [Rollback])%list |})
    end.
Proof.
  unfold log_dead_letter, try_except, db_commit, bind, db_stmt, modify_pending.
  simpl. destruct (faults Commit); reflexivity.
Qed.

(** *** What an accepted new event changes *)

Lemma find_app_none {A} (f : A -> bool) l x :
  find f l = None -> f x = true -> find f (l ++ [x]) = Some x.
Proof.
  intros Hl Hx. induction l as [| a l IH]; simpl in *.
  - now rewrite Hx.
  - destruct (f a); [discriminate | auto].
Qed.

Lemma find_app_skip {A} (f : A -> bool) l x :
  f x = false -> find f (l ++ [x]) = find f l.
Proof.
  intros Hx. induction l as [| a l IH]; simpl.
  - now rewrite Hx.
  - now rewrite IH.
Qed.

Lemma find_stats_update user_id f db :
  (forall st, st_user_id (f st) = st_user_id st) ->
  find_stats user_id (update_stats user_id f db)
    = option_map f (find_stats user_id db).
Proof.
  intros Hid. unfold find_stats, update_stats. simpl.
  induction (user_stats db) as [| st l IH]; [reflexivity |]. simpl.
  destruct (String.eqb (st_user_id st) user_id) eqn:Heq.
  - rewrite Hid, Heq. reflexivity.
  - rewrite Heq. exact IH.
Qed.

Lemma find_stats_update_other uid user_id f db :
  uid <> user_id ->
  (forall st, st_user_id (f st) = st_user_id st) ->
  find_stats uid (update_stats user_id f db) = find_stats uid db.
Proof.
  intros Hne Hid. unfold find_stats, update_stats. simpl.
  induction (user_stats db) as [| st l IH]; [reflexivity |]. simpl.
  destruct (String.eqb_spec (st_user_id st) user_id) as [Heq | Hneq].
  - rewrite Hid. destruct (String.eqb_spec (st_user_id st) uid); [congruence | exact IH].
  - now rewrite IH.
Qed.

Section Accepted.

Variable faults : oracle.
Variable p : Payload.
Variable s0 : Session.
Variables user_id event_id : string.
Variable x : num.

Hypothesis Huser : pl_user_id p = Some user_id.
Hypothesis Hevent : pl_event_id p = Some event_id.
Hypothesis Hnew : find_event event_id (pending s0) = None.
Hypothesis Hfloat : truthy (pl_duration p) = true -> py_float (pl_duration p) = inr x.

(** The count of step 4a and the average the statistics row holds, both
    taken before the call. *)
Let n0 : nat := length (duration_events user_id (pending s0)).

Let old0 : num :=
  match find_stats user_id (pending s0) with
  | Some st => avg_session_duration st
  | None => num_of_Z 0
  end.

Let new_avg : num :=
  if truthy (pl_duration p) then
    match n0 with
    | O => x
    | S _ => num_div_nat (num_add (num_mul_nat old0 n0) x) (n0 + 1)
    end
  else old0.

Let dc_ok (dc : option (num * nat)) : Prop :=
  dc = if truthy (pl_duration p) then Some (x, n0) else None.

Let untouched (s : Session) : Prop :=
  user_events (pending s) = user_events (pending s0) /\
  user_stats (pending s) = user_stats (pending s0).

Let added (s : Session) : Prop :=
  exists ev, user_events (pending s) = (user_events (pending s0) ++ [ev])%list /\
             ev_event_id ev = event_id /\ ev_user_id ev = user_id /\
             ev_duration ev = pl_duration p.

Let others (s : Session) : Prop :=
  forall uid, uid <> user_id ->
    find_stats uid (pending s) = find_stats uid (pending s0).

Let averaged (s : Session) : Prop :=
  added s /\ others s /\
  exists st, find_stats user_id (pending s) = Some st /\
             avg_session_duration st = new_avg.

Let anything (e : exn) (s : Session) : Prop := True.

Tactic Notation "bind_with" constr(R) "as" ident(a) :=
  eapply (hoare_bind _ _ _ R); [| intros a].

Ltac stmt_keeps := apply hoare_stmt; [intros ? H _; exact H | intros; exact Logic.I].

Lemma averaged_update f s :
  (forall st, st_user_id (f st) = st_user_id st) ->
  (forall st, avg_session_duration (f st) = avg_session_duration st) ->
  averaged s ->
  averaged {| committed := committed s;
              pending := update_stats user_id f (pending s); calls := calls s |}.
Proof.
  intros Hid Havg (Hadd & Hoth & st & Hst & Ht). split; [exact Hadd |]. split.
  - intros uid Hne. simpl. rewrite find_stats_update_other by assumption. now apply Hoth.
  - exists (f st). simpl. rewrite find_stats_update, Hst by exact Hid.
    split; [reflexivity |]. now rewrite Havg.
Qed.

Lemma store_event_body_accepts :
  hoare untouched (store_event_body faults p)
        (fun _ s => averaged s /\ committed s = pending s) anything.
Proof.
  unfold store_event_body.
  destruct (validate_event p) as [[|] msg]; simpl negb; cbv iota.
  2: now apply hoare_raise.
  rewrite Huser, Hevent.
  destruct (pl_event_type p) as [event_type |], (pl_timestamp p) as [ts |];
    try now apply hoare_raise.
  bind_with (fun _ : unit => untouched) as u1. { stmt_keeps. }
  bind_with (fun db s => db = pending s /\ untouched s) as db1. { now apply hoare_get. }
  destruct (find_event event_id db1) eqn:Hfound.
  { apply hoare_ret. intros s [-> [He _]]. exfalso.
    unfold find_event in Hfound, Hnew. rewrite He, Hnew in Hfound. discriminate. }
  apply hoare_conseq with (P' := untouched)
    (Q' := fun _ s => averaged s /\ committed s = pending s) (E' := anything);
    [| tauto | auto | auto].
  bind_with (fun _ : unit => untouched) as u2. { stmt_keeps. }
  bind_with (fun (_ : DB) => untouched) as db2. { now apply hoare_get. }
  bind_with (fun _ : unit => untouched) as u3.
  { destruct (find_user user_id db2); [now apply hoare_ret |].
    bind_with (fun _ : datetime => untouched) as signup_date. { now apply hoare_lift. }
    bind_with (fun _ : unit => untouched) as u4.
    { apply hoare_modify. intros s H. exact H. }
    stmt_keeps. }
  bind_with (fun _ : datetime => untouched) as timestamp. { now apply hoare_lift. }
  bind_with (fun dc s => dc_ok dc /\ untouched s) as dc.
  { unfold dc_ok. destruct (truthy (pl_duration p)) eqn:Htr.
    - rewrite (Hfloat eq_refl). simpl lift.
      bind_with (fun y s => y = x /\ untouched s) as duration. { now apply hoare_ret. }
      bind_with (fun (_ : unit) s => duration = x /\ untouched s) as u5. { stmt_keeps. }
      bind_with (fun db s => db = pending s /\ duration = x /\ untouched s) as db3.
      { now apply hoare_get. }
      apply hoare_ret. intros s (-> & -> & Hu). split; [| exact Hu].
      unfold n0, duration_events. now rewrite (proj1 Hu).
    - apply hoare_ret. intros s H. split; [reflexivity | exact H]. }
  bind_with (fun (_ : unit) s => dc_ok dc /\ added s /\
               user_stats (pending s) = user_stats (pending s0)) as u6.
  { apply hoare_modify. intros s [Hdc [He Hs]]. split; [exact Hdc |].
    split; [| exact Hs]. eexists. simpl. rewrite He. repeat split. }
  bind_with (fun (_ : unit) s => dc_ok dc /\ added s /\
               user_stats (pending s) = user_stats (pending s0)) as u7. { stmt_keeps. }
  bind_with (fun (_ : unit) s => dc_ok dc /\ added s /\
               user_stats (pending s) = user_stats (pending s0)) as u8. { stmt_keeps. }
  bind_with (fun db s => db = pending s /\ dc_ok dc /\ added s /\
               user_stats (pending s) = user_stats (pending s0)) as db4.
  { now apply hoare_get. }
  bind_with (fun stats s => dc_ok dc /\ added s /\ others s /\
               find_stats user_id (pending s) = Some stats /\
               avg_session_duration stats = old0) as stats.
  { destruct (find_stats user_id db4) eqn:Hst.
    - apply hoare_ret. intros s (-> & Hdc & Hadd & Hu).
      split; [exact Hdc |]. split; [exact Hadd |]. split.
      + intros uid _. unfold find_stats. now rewrite Hu.
      + split; [exact Hst |]. unfold old0.
        unfold find_stats in Hst |- *. rewrite Hu in Hst. now rewrite Hst.
    - bind_with (fun (_ : unit) s => dc_ok dc /\ added s /\ others s /\
                   find_stats user_id (pending s) = Some (new_stats user_id) /\
                   find_stats user_id (pending s0) = None) as u9.
      { apply hoare_modify. intros s (-> & Hdc & Hadd & Hu).
        split; [exact Hdc |]. split; [exact Hadd |].
        unfold find_stats in Hst. split; [| split].
        - intros uid Hne. unfold find_stats. simpl. rewrite find_app_skip.
          + now rewrite Hu.
          + simpl. destruct (String.eqb_spec user_id uid); congruence.
        - unfold find_stats. simpl.
          apply find_app_none; [exact Hst | simpl; apply String.eqb_refl].
        - unfold find_stats. now rewrite <- Hu. }
      bind_with (fun (_ : unit) s => dc_ok dc /\ added s /\ others s /\
                   find_stats user_id (pending s) = Some (new_stats user_id) /\
                   find_stats user_id (pending s0) = None) as u10. { stmt_keeps. }
      apply hoare_ret. intros s (Hdc & Hadd & Hoth & Hf & Hn).
      repeat (split; [assumption |]). unfold old0. now rewrite Hn. }
  bind_with (fun _ : unit => averaged) as u11.
  { intros s (Hdc & Hadd & Hoth & Hf & Hold). unfold dc_ok in Hdc.
    unfold averaged, new_avg. destruct (truthy (pl_duration p)); subst dc.
    - destruct n0 as [| n]; simpl;
        (split; [exact Hadd |]; split;
         [ intros uid Hne; simpl;
           rewrite find_stats_update_other by (auto; intros; reflexivity);
           now apply Hoth
         | eexists; simpl; rewrite find_stats_update, Hf by reflexivity;
           split; [reflexivity |]; simpl; now rewrite ?Hold ]).
    - simpl. split; [exact Hadd |]. split; [exact Hoth |]. now exists stats. }
  bind_with (fun _ : unit => averaged) as u12.
  { apply hoare_modify. intros s H. now apply averaged_update. }
  bind_with (fun _ : unit => averaged) as u13.
  { apply hoare_modify. intros s H. now apply averaged_update. }
  bind_with (fun _ : unit => averaged) as u14.
  { destruct (String.eqb event_type "purchase"); [| now apply hoare_ret].
    bind_with (fun _ : unit => averaged) as u15.
    { apply hoare_modify. intros s H. now apply averaged_update. }
    bind_with (fun _ : num => averaged) as amount. { now apply hoare_lift. }
    bind_with (fun _ : unit => averaged) as u16.
    { apply hoare_modify. intros s H. now apply averaged_update. }
    apply hoare_modify. intros s H. now apply averaged_update. }
  bind_with (fun _ : unit => averaged) as u17.
  { apply hoare_modify. intros s H. now apply averaged_update. }
  bind_with (fun (_ : unit) s => averaged s /\ committed s = pending s) as u18.
  { apply hoare_commit; [intros s H _; split; [exact H | reflexivity]
                        | intros; exact Logic.I]. }
  now apply hoare_ret.
Qed.

End Accepted.

(** A call of [store_event] that returns an identifier for an event that
    was not stored: the event is appended, the statistics of the other
    users keep their values, the average of the user is updated by the
    formula of step 7 when the duration is truthy and kept otherwise, and
    all of it is committed. *)
Lemma store_event_accepts faults p s user_id event_id x v s' :
  pl_user_id p = Some user_id -> pl_event_id p = Some event_id ->
  find_event event_id (pending s) = None ->
  (truthy (pl_duration p) = true -> py_float (pl_duration p) = inr x) ->
  store_event faults p s = (inr (Some v), s') ->
  let n := length (duration_events user_id (pending s)) in
  let old := match find_stats user_id (pending s) with
             | Some st0 => avg_session_duration st0
             | None => num_of_Z 0
             end in
  (exists ev, user_events (pending s') = (user_events (pending s) ++ [ev])%list /\
              ev_event_id ev = event_id /\ ev_user_id ev = user_id /\
              ev_duration ev = pl_duration p) /\
  (forall uid, uid <> user_id ->
     find_stats uid (pending s') = find_stats uid (pending s)) /\
  (exists st, find_stats user_id (pending s') = Some st /\
     avg_session_duration st =
       if truthy (pl_duration p) then
         match n with
         | O => x
         | S _ => num_div_nat (num_add (num_mul_nat old n) x) (n + 1)
         end
       else old) /\
  committed s' = pending s'.
Proof.
  intros Hu He Hnew Hf H. unfold store_event, try_except in H.
  pose proof (store_event_body_accepts faults p s user_id event_id x
                Hu He Hnew Hf s (conj eq_refl eq_refl)) as Hb.
  destruct (store_event_body faults p s) as [[e | v1] s1].
  - exfalso. destruct e; simpl in H; try discriminate.
    unfold bind, db_rollback in H. simpl in H.
    destruct (is_duplicate_msg msg); discriminate.
  - inversion H; subst. destruct Hb as [(Hadd & Hoth & Havg) Hc].
    repeat split; assumption.
Qed.

(** The update of steps 4a and 7 for an accepted event whose duration is
    truthy: with [n] the earlier duration events of the user and [old] the
    average before the call, the stored average is the duration when
    [n = 0] and [(old * n + duration) / (n + 1)] otherwise. *)
Lemma running_average_of_truthy_duration faults p s user_id event_id x v s' :
  pl_user_id p = Some user_id -> pl_event_id p = Some event_id ->
  find_event event_id (pending s) = None ->
  truthy (pl_duration p) = true -> py_float (pl_duration p) = inr x ->
  store_event faults p s = (inr (Some v), s') ->
  let n := length (duration_events user_id (pending s)) in
  let old := match find_stats user_id (pending s) with
             | Some st0 => avg_session_duration st0
             | None => num_of_Z 0
             end in
  exists st, find_stats user_id (pending s') = Some st /\
    avg_session_duration st =
      match n with
      | O => x
      | S _ => num_div_nat (num_add (num_mul_nat old n) x) (n + 1)
      end.
Proof.
  intros Hu He Hnew Ht Hf H.
  destruct (store_event_accepts faults p s user_id event_id x v s' Hu He Hnew
              (fun _ => Hf) H) as (_ & _ & (st & Hst & Havg) & _).
  exists st. split; [exact Hst |]. now rewrite Ht in Havg.
Qed.

(** *** The average is the mean while no duration is falsy *)

Lemma store_event_None faults p s s' :
  store_event faults p s = (inr None, s') -> committed s' = committed s.
Proof.
  intros H. unfold store_event, try_except in H.
  pose proof (store_event_body_stores faults p s Logic.I) as Hst.
  pose proof (store_event_body_runs faults (committed s) (calls s) p s) as Hrun.
  destruct (store_event_body faults p s) as [[e | v] s1].
  - assert (Hc : committed s1 = committed s).
    { apply Hrun. split; [reflexivity |]. exists []. split; [| constructor].
      unfold sent_since. now rewrite app_nil_r. }
    destruct e; simpl in H; try discriminate.
    unfold bind, db_rollback in H. simpl in H.
    destruct (is_duplicate_msg msg); inversion H; subst; simpl; exact Hc.
  - inversion H; subst. destruct Hst as (eid & Hv & _). discriminate.
Qed.

Lemma store_event_found faults p s event_id r s' :
  pl_event_id p = Some event_id ->
  find_event event_id (pending s) <> None ->
  store_event faults p s = (r, s') ->
  committed s' = committed s.
Proof.
  intros He Hfound H.
  destruct (fst (validate_event p)) eqn:Hv.
  - destruct (validate_event_fields p Hv)
      as (u & e & ty & ts & t & Hu & He' & Hty & Hts & Ht).
    rewrite He in He'. inversion He'; subst e.
    revert H. unfold store_event, try_except, store_event_body.
    rewrite (validate_event_true_None p Hv). simpl negb. cbv iota.
    rewrite Hu, He, Hty, Hts.
    unfold bind, db_stmt, get_pending.
    destruct (faults QueryEvent) as [err |]; simpl.
    + destruct err; simpl; [destruct (is_duplicate_msg msg) |];
        intros H; inversion H; reflexivity.
    + destruct (find_event event_id (pending s)); [| congruence].
      intros H; inversion H; reflexivity.
  - rewrite (store_event_invalid faults p s Hv) in H. inversion H. reflexivity.
Qed.

Lemma truthy_not_None d : truthy d = true -> is_None d = false.
Proof. destruct d; simpl; congruence. Qed.

Lemma sum_durations_snoc l :
  Forall finite_duration l ->
  exists sigma, sum_durations l = Fin sigma /\
    forall e q, py_float (ev_duration e) = inr (Fin q) ->
      sum_durations (l ++ [e]) = Fin (sigma + q).
Proof.
  induction 1 as [| a l [qa Ha] Hl (sigma & Hs & Hsnoc)].
  - exists (Q2Qc (inject_Z 0)). split; [reflexivity |].
    intros e q He. simpl. rewrite He. simpl. f_equal. apply Qcplus_comm.
  - exists (qa + sigma). simpl. rewrite Ha, Hs. split; [reflexivity |].
    intros e q He. rewrite (Hsnoc e q He). simpl. f_equal. apply Qcplus_assoc.
Qed.

Lemma duration_events_finite user_id db :
  plain_durations db -> Forall finite_duration (duration_events user_id db).
Proof.
  unfold plain_durations, duration_events. intros H.
  induction H as [| e l He Hl IH]; simpl; [constructor |].
  destruct (String.eqb (ev_user_id e) user_id); simpl; [| exact IH].
  destruct He as [-> | [_ Hq]]; simpl; [exact IH |].
  destruct (is_None (ev_duration e)); simpl; [exact IH |].
  constructor; [exact Hq | exact IH].
Qed.

Lemma Q2Qc_nat_nonzero n : Q2Qc (inject_Z (Z.of_nat (S n))) <> 0%Qc.
Proof.
  intros H. apply Q2Qc_eq_iff in H. unfold Qeq in H. simpl in H. lia.
Qed.

Lemma mean_snoc (sigma q : Qc) n :
  ((sigma / Q2Qc (inject_Z (Z.of_nat (S n))) * Q2Qc (inject_Z (Z.of_nat (S n))) + q)
     / Q2Qc (inject_Z (Z.of_nat (S n + 1)))
   = (sigma + q) / Q2Qc (inject_Z (Z.of_nat (S n + 1))))%Qc.
Proof.
  pose proof (Q2Qc_nat_nonzero n) as Hn.
  replace (S n + 1)%nat with (S (S n)) by lia.
  pose proof (Q2Qc_nat_nonzero (S n)) as Hm.
  field. split; assumption.
Qed.

Lemma mean_single (q : Qc) :
  ((Q2Qc (inject_Z 0) + q) / Q2Qc (inject_Z (Z.of_nat 1)) = q)%Qc.
Proof.
  replace (Q2Qc (inject_Z 0)) with 0%Qc by (apply Qc_is_canon; reflexivity).
  replace (Q2Qc (inject_Z (Z.of_nat 1))) with 1%Qc by (apply Qc_is_canon; reflexivity).
  field. intros H. discriminate.
Qed.

(** One call of [store_event] with a payload of plain duration keeps the
    average equal to the mean. *)
Lemma store_event_keeps_mean faults p s r s' :
  clean s ->
  average_is_mean (committed s) -> plain_durations (committed s) ->
  plain_duration (pl_duration p) ->
  store_event faults p s = (r, s') ->
  average_is_mean (committed s') /\ plain_durations (committed s').
Proof.
  intros Hcl Hmean Hplain Hd H.
  assert (Hsame : committed s' = committed s ->
                  average_is_mean (committed s') /\ plain_durations (committed s')).
  { intros ->. auto. }
  destruct r as [e | [v |]].
  - apply Hsame. now destruct (store_event_raises_clean _ _ _ _ _ H).
  - destruct (store_event_stores _ _ _ _ _ H) as (Hv & He & _).
    destruct (validate_event_fields p Hv)
      as (user_id & e & ty & ts & t & Hu & _ & _ & _ & _).
    destruct (find_event v (pending s)) eqn:Hfound.
    { apply Hsame.
      apply (store_event_found faults p s v (inr (Some v)) s' He); [congruence | exact H]. }
    remember (match py_float (pl_duration p) with inr y => y | inl _ => NaN end)
      as x eqn:Hxdef.
    assert (Hx : truthy (pl_duration p) = true -> py_float (pl_duration p) = inr x).
    { intros Ht. rewrite Hxdef. destruct Hd as [Hn | [_ [q Hq]]].
      - rewrite Hn in Ht. discriminate.
      - now rewrite Hq. }
    destruct (store_event_accepts faults p s user_id v x v s' Hu He Hfound Hx H)
      as ((ev & Hev & Hid & Huid & Hdur) & Hoth & (st & Hst & Havg) & Hc).
    unfold clean in Hcl. rewrite Hcl in *. rewrite Hc.
    assert (Hplain' : plain_durations (pending s')).
    { unfold plain_durations. rewrite Hev. apply Forall_app. split; [exact Hplain |].
      constructor; [now rewrite Hdur | constructor]. }
    split; [| exact Hplain'].
    intros uid Hne.
    assert (Hde : duration_events uid (pending s')
                  = (duration_events uid (committed s)
                     ++ if String.eqb user_id uid && negb (is_None (pl_duration p))
                        then [ev] else [])%list).
    { unfold duration_events. rewrite Hev, filter_app. simpl.
      rewrite Huid, Hdur. reflexivity. }
    destruct (String.eqb_spec user_id uid) as [<- | Hneq].
    + destruct Hd as [Hn | [Ht [q Hq]]].
      * (* no duration: nothing changes for the user *)
        rewrite Hn in Hde, Havg. simpl in Hde, Havg. rewrite app_nil_r in Hde.
        rewrite Hde in Hne. destruct (Hmean user_id Hne) as (st0 & Hst0 & Hm0).
        exists st. split; [exact Hst |]. rewrite Havg, Hst0, Hm0.
        unfold mean_duration. now rewrite Hde.
      * (* a truthy duration [q] *)
        rewrite (truthy_not_None _ Ht) in Hde. simpl in Hde.
        rewrite Ht in Havg. rewrite (Hx Ht) in Hq. injection Hq as Hxq.
        exists st. split; [exact Hst |]. rewrite Havg.
        unfold mean_duration. rewrite Hde, length_app. simpl length.
        destruct (sum_durations_snoc _ (duration_events_finite user_id _ Hplain))
          as (sigma & Hsig & Hsnoc).
        rewrite (Hsnoc ev q) by (rewrite Hdur, (Hx Ht); now f_equal).
        rewrite Hxq.
        destruct (duration_events user_id (committed s)) as [| e0 l0] eqn:Hl.
        -- simpl. simpl in Hsig. injection Hsig as <-.
           f_equal. symmetry. apply mean_single.
        -- assert (Hne0 : duration_events user_id (committed s) <> [])
             by (rewrite Hl; discriminate).
           destruct (Hmean user_id Hne0) as (st0 & Hst0 & Hm0).
           rewrite Hst0, Hm0. unfold mean_duration. rewrite Hl, Hsig.
           simpl length. simpl. f_equal. apply mean_snoc.
    + simpl in Hde. rewrite app_nil_r in Hde.
      rewrite Hde in Hne. destruct (Hmean uid Hne) as (st0 & Hst0 & Hm0).
      exists st0. split.
      * rewrite Hoth by congruence. exact Hst0.
      * rewrite Hm0. unfold mean_duration. now rewrite Hde.
  - apply Hsame. now apply (store_event_None faults p s s').
Qed.

(** While every accepted payload has a plain duration (absent, or truthy
    and finite), the average of every user is the arithmetic mean of the
    durations of that user's stored events that carry one. *)
Lemma reachable_plain_average_is_mean db :
  reachable_plain db -> average_is_mean db /\ plain_durations db.
Proof.
  induction 1 as [| faults p s r s' Hr IH Hcl Hd Hrun
                  | faults p msg ty status s r s' Hr IH Hcl Hrun].
  - split; [intros uid Hne; now destruct Hne | constructor].
  - destruct IH as [Hm Hp]. now apply (store_event_keeps_mean faults p s r s').
  - rewrite log_dead_letter_run in Hrun. unfold clean in Hcl.
    destruct (faults Commit); inversion Hrun; subst; simpl; [exact IH |].
    rewrite Hcl. exact IH.
Qed.

(** *** The consumption loop *)

(** Whatever [store_event] raised, the loop writes the dead letter, counts
    the message as failed and asks the broker to commit. *)
Lemma process_message_raised faults dlq_faults ack msg w e s :
  store_event faults (msg_value msg) (SessionLocal (w_db w)) = (inl e, s) ->
  process_message faults dlq_faults ack msg w = dead_lettered dlq_faults ack msg e w.
Proof.
  intros H.
  destruct (store_event_raises_clean _ _ _ _ _ H) as (Hc & Hp). simpl in Hc, Hp.
  unfold process_message, dead_lettered. simpl. rewrite H.
  destruct (is_ValueError e) eqn:Hve.
  - destruct e; try discriminate. rewrite log_dead_letter_run. simpl.
    rewrite Hc. destruct (dlq_faults Commit), ack; reflexivity.
  - rewrite log_dead_letter_run, Hc, Hp.
    destruct (dlq_faults Commit), ack; reflexivity.
Qed.

(** What [store_event] returned decides the counter: a truthy identifier
    counts as processed (as failed when the broker refuses the commit),
    [None] as a duplicate. *)
Lemma process_message_returned faults dlq_faults ack msg w v s :
  store_event faults (msg_value msg) (SessionLocal (w_db w)) = (inr v, s) ->
  process_message faults dlq_faults ack msg w =
    {| w_db := committed s;
       w_state := if truthy_id v
                  then (if ack then incr_processed (w_state w)
                        else incr_failed (w_state w))
                  else incr_duplicates (w_state w);
       w_position := msg_offset msg + 1;
       w_committed := if ack then msg_offset msg + 1 else w_committed w |}.
Proof.
  intros H. unfold process_message. simpl. rewrite H.
  destruct (truthy_id v), ack; reflexivity.
Qed.

Lemma process_message_commits faults dlq_faults msg w :
  w_committed (process_message faults dlq_faults true msg w) = (msg_offset msg + 1)%Z.
Proof.
  unfold process_message.
  destruct (store_event faults (msg_value msg) _) as [[e | v] s].
  - destruct (is_ValueError e);
      match goal with |- context [log_dead_letter ?a ?b ?c ?d ?e ?f] =>
        destruct (log_dead_letter a b c d e f) end; reflexivity.
  - destruct (truthy_id v); reflexivity.
Qed.

(** The world after a message whose storage attempt raised, table by
    table. *)
Lemma dead_lettered_tables dlq_faults ack msg e w :
  let w' := dead_lettered dlq_faults ack msg e w in
  dead_letter_queue (w_db w') =
    (dead_letter_queue (w_db w) ++
     if isNone (dlq_faults Commit)
     then [dead_letter (msg_value msg) (exn_str e) (type_name e) "pending"]
     else [])%list /\
  users (w_db w') = users (w_db w) /\
  user_events (w_db w') = user_events (w_db w) /\
  user_stats (w_db w') = user_stats (w_db w) /\
  w_state w' = incr_failed (incr_dlq_logged (w_state w)) /\
  w_committed w' = (if ack then msg_offset msg + 1 else w_committed w)%Z.
Proof.
  unfold dead_lettered. simpl.
  destruct (dlq_faults Commit); simpl; rewrite ?app_nil_r; repeat split.
Qed.

(** C1 (as amended).  A message whose storage attempt raises a database
    error: the loop asks [log_dead_letter] to file it under the class name
    of the error.  When the database accepts that write, the queue has one
    more entry, the last, pending, with the payload, the text of the error
    and its class name; when it refuses the write, the queue is as it
    was.  In both cases users, events and statistics are untouched,
    [failed] and [dlq_logged] go up by 1, and the offset of the message
    is committed when the broker acknowledges, staying where it was only
    when it does not.  There is no outcome of [store_event] after which
    an acknowledged commit is held back. *)
Theorem storage_error_is_dead_lettered_and_committed faults dlq_faults ack msg w err s :
  store_event faults (msg_value msg) (SessionLocal (w_db w))
    = (inl (exn_of_dberr err), s) ->
  let w' := process_message faults dlq_faults ack msg w in
  let entry := dead_letter (msg_value msg) (exn_str (exn_of_dberr err))
                 (type_name (exn_of_dberr err)) "pending" in
  w' = dead_lettered dlq_faults ack msg (exn_of_dberr err) w /\
  dead_letter_queue (w_db w') =
    (dead_letter_queue (w_db w) ++
     if isNone (dlq_faults Commit) then [entry] else [])%list /\
  dlq_error_type entry = match err with
                         | DbIntegrity _ => "IntegrityError"
                         | DbOther cls _ => cls
                         end /\
  dlq_event_data entry = msg_value msg /\ dlq_status entry = "pending" /\
  dlq_error_message entry = match err with
                            | DbIntegrity m | DbOther _ m => m
                            end /\
  dlq_event_id entry = pl_event_id (msg_value msg) /\
  dlq_retry_count entry = 0%Z /\
  users (w_db w') = users (w_db w) /\
  user_events (w_db w') = user_events (w_db w) /\
  user_stats (w_db w') = user_stats (w_db w) /\
  failed (w_state w') = (failed (w_state w) + 1)%Z /\
  dlq_logged (w_state w') = (dlq_logged (w_state w) + 1)%Z /\
  processed (w_state w') = processed (w_state w) /\
  duplicates (w_state w') = duplicates (w_state w) /\
  w_committed w' = (if ack then msg_offset msg + 1 else w_committed w)%Z /\
  (forall faults' dlq_faults' msg' w',
     w_committed (process_message faults' dlq_faults' true msg' w')
       = (msg_offset msg' + 1)%Z).
Proof.
  intros H. cbv zeta. rewrite (process_message_raised _ _ _ _ _ _ _ H).
  destruct (dead_lettered_tables dlq_faults ack msg (exn_of_dberr err) w)
    as (Hq & Hu & He & Hs & Hst & Hc).
  split; [reflexivity |]. split; [exact Hq |].
  split; [destruct err; reflexivity |].
  split; [reflexivity |]. split; [reflexivity |].
  split; [destruct err; reflexivity |].
  split; [reflexivity |]. split; [reflexivity |].
  split; [exact Hu |]. split; [exact He |]. split; [exact Hs |].
  rewrite Hst. split; [reflexivity |]. split; [reflexivity |].
  split; [reflexivity |]. split; [reflexivity |].
  split; [exact Hc |]. intros. apply process_message_commits.
Qed.

Lemma validate_event_with_duration d p :
  validate_event (with_duration d p) = validate_event p.
Proof. reflexivity. Qed.

(** A valid, not yet stored payload whose duration is a non-empty string
    that [float] rejects: the conversion raises ValueError after the
    lookups and, for a new user, after the insert of the user row; the
    handler rolls back. *)
Lemma store_event_bad_duration faults p s str user_id event_id :
  pl_duration p = VStr str -> str <> "" -> float_of_str str = None ->
  fst (validate_event p) = true ->
  pl_user_id p = Some user_id ->
  pl_event_id p = Some event_id -> find_event event_id (pending s) = None ->
  faults QueryEvent = None -> faults QueryUser = None ->
  (find_user user_id (pending s) = None -> faults FlushUser = None) ->
  exists s',
    store_event faults p s
      = (inl (ValueError ("could not convert string to float: " ++ py_repr (VStr str))), s')
    /\ committed s' = committed s /\ pending s' = committed s.
Proof.
  intros Hd Hne Hf Hv Hu He Hnew Hq1 Hq2 Hq3.
  destruct (validate_event_fields p Hv) as (u & e & ty & ts & t & Hu' & He' & Hty & Hts & Ht).
  rewrite He in He'. inversion He'; subst e.
  rewrite Hu in Hu'. inversion Hu'; subst u.
  assert (Htr : truthy (VStr str) = true).
  { simpl. destruct (String.eqb_spec str ""); [contradiction | reflexivity]. }
  unfold store_event, try_except, store_event_body.
  rewrite (validate_event_true_None p Hv). simpl negb. cbv iota.
  rewrite Hu, He, Hty, Hts, Hd, Htr.
  unfold bind, db_stmt, get_pending, modify_pending, lift. rewrite Hq1, Hq2. simpl.
  rewrite Hnew, Ht, Hf. unfold ret. simpl.
  destruct (find_user user_id (pending s)); simpl;
    [| rewrite (Hq3 eq_refl); simpl]; eexists; repeat split.
Qed.

(** C10 (as amended).  A payload that is valid apart from its duration,
    whose event is not stored yet and whose duration is a non-empty string
    that [float] rejects: [validate_event] accepts it; [store_event],
    when the database answers the duplicate lookup and the user lookup
    and, for a user it does not know, accepts the insert of the user row,
    raises ValueError and leaves the database as it was; the loop then
    takes its validation-error path: it asks [log_dead_letter] to file
    the payload as a pending ValueError, which adds that entry to the
    queue when the database accepts the write and leaves the queue as it
    was when it refuses it, counts the message under [failed] and
    [dlq_logged], and commits the offset when the broker acknowledges. *)
Theorem unparseable_duration_is_dead_lettered
    faults dlq_faults ack msg w str user_id event_id :
  pl_duration (msg_value msg) = VStr str -> str <> "" -> float_of_str str = None ->
  fst (validate_event (with_duration VNone (msg_value msg))) = true ->
  pl_user_id (msg_value msg) = Some user_id ->
  pl_event_id (msg_value msg) = Some event_id ->
  find_event event_id (w_db w) = None ->
  faults QueryEvent = None -> faults QueryUser = None ->
  (find_user user_id (w_db w) = None -> faults FlushUser = None) ->
  let e := ValueError ("could not convert string to float: " ++ py_repr (VStr str)) in
  let w' := process_message faults dlq_faults ack msg w in
  let entry := dead_letter (msg_value msg) (exn_str e) "ValueError" "pending" in
  validate_event (msg_value msg) = (true, None) /\
  (exists s, store_event faults (msg_value msg) (SessionLocal (w_db w)) = (inl e, s) /\
             committed s = w_db w /\ pending s = w_db w) /\
  is_ValueError e = true /\
  w' = dead_lettered dlq_faults ack msg e w /\
  dead_letter_queue (w_db w') =
    (dead_letter_queue (w_db w) ++
     if isNone (dlq_faults Commit) then [entry] else [])%list /\
  dlq_error_type entry = "ValueError" /\ dlq_status entry = "pending" /\
  dlq_event_data entry = msg_value msg /\
  dlq_error_message entry
    = "could not convert string to float: " ++ py_repr (VStr str) /\
  dlq_event_id entry = Some event_id /\ dlq_retry_count entry = 0%Z /\
  users (w_db w') = users (w_db w) /\
  user_events (w_db w') = user_events (w_db w) /\
  user_stats (w_db w') = user_stats (w_db w) /\
  failed (w_state w') = (failed (w_state w) + 1)%Z /\
  dlq_logged (w_state w') = (dlq_logged (w_state w) + 1)%Z /\
  processed (w_state w') = processed (w_state w) /\
  duplicates (w_state w') = duplicates (w_state w) /\
  w_committed w' = (if ack then msg_offset msg + 1 else w_committed w)%Z.
Proof.
  intros Hd Hne Hf Hv Hu He Hnew Hq1 Hq2 Hq3 e. cbv zeta.
  rewrite validate_event_with_duration in Hv.
  destruct (store_event_bad_duration faults (msg_value msg) (SessionLocal (w_db w))
              str user_id event_id Hd Hne Hf Hv Hu He Hnew Hq1 Hq2 Hq3)
    as (s & Hs & Hc & Hp).
  fold e in Hs.
  split; [now apply validate_event_true_None |].
  split; [exists s; auto |].
  split; [reflexivity |].
  rewrite (process_message_raised _ dlq_faults ack _ _ _ _ Hs).
  destruct (dead_lettered_tables dlq_faults ack msg e w)
    as (Hq & Hus & Hev & Hst & Hstate & Hcm).
  split; [reflexivity |]. split; [exact Hq |].
  split; [reflexivity |]. split; [reflexivity |]. split; [reflexivity |].
  split; [reflexivity |]. split; [exact He |]. split; [reflexivity |].
  split; [exact Hus |]. split; [exact Hev |]. split; [exact Hst |].
  rewrite Hstate. split; [reflexivity |]. split; [reflexivity |].
  split; [reflexivity |]. split; [reflexivity |]. exact Hcm.
Qed.

(** *** The engagement score *)

Lemma stats_done_mid user_id s : stats_done s -> stats_mid user_id s.
Proof.
  intros [Hc Hp]. split; [exact Hc |].
  eapply Forall_impl; [| exact Hp]. intros st H. split; [apply H | auto].
Qed.

Lemma mid_add_stats user_id s :
  stats_mid user_id s ->
  stats_mid user_id {| committed := committed s;
                       pending := add_stats (new_stats user_id) (pending s);
                       calls := calls s |}.
Proof.
  intros [Hc Hp]. split; [exact Hc |]. simpl. apply Forall_app. split; [exact Hp |].
  constructor; [| constructor]. split.
  - split; simpl; lia.
  - simpl. congruence.
Qed.

Lemma mid_update user_id f s :
  (forall st, st_user_id (f st) = st_user_id st) ->
  (forall st, counts_nonneg st -> counts_nonneg (f st)) ->
  stats_mid user_id s ->
  stats_mid user_id {| committed := committed s;
                       pending := update_stats user_id f (pending s);
                       calls := calls s |}.
Proof.
  intros Hid Hcn [Hc Hp]. split; [exact Hc |]. simpl. apply Forall_map.
  eapply Forall_impl; [| exact Hp]. intros st [Hn Hok].
  destruct (String.eqb_spec (st_user_id st) user_id) as [Heq | Hne].
  - split; [auto |]. rewrite Hid. congruence.
  - auto.
Qed.

Lemma done_update_engagement user_id s :
  stats_mid user_id s ->
  stats_done {| committed := committed s;
                pending := update_stats user_id
                  (fun st => set_engagement_score
                               (engagement (total_events st) (total_purchases st)) st)
                  (pending s);
                calls := calls s |}.
Proof.
  intros [Hc Hp]. split; [exact Hc |]. simpl. apply Forall_map.
  eapply Forall_impl; [| exact Hp]. intros st [Hn Hok].
  destruct (String.eqb_spec (st_user_id st) user_id) as [Heq | Hne].
  - split; [exact Hn | reflexivity].
  - auto.
Qed.

Ltac mid_side :=
  first
    [ intros ? H; exact H
    | intros ? H ?; exact H
    | intros ? ? H ?; exact H
    | intros ? H; exact (proj1 H)
    | intros ? ? H ?; exact (proj1 H)
    | intros ? H; apply mid_add_stats; exact H
    | intros ? H; apply mid_update;
        [ intros; reflexivity
        | intros ? [? ?]; split; simpl; lia
        | exact H ] ].

Ltac mid_step user_id :=
  match goal with
  | |- hoare _ (bind (modify_pending _) (fun _ => bind (db_commit _) _)) _ _ => fail 1
  | |- hoare _ (bind _ _) _ _ =>
      eapply (hoare_bind _ _ _ (fun _ => stats_mid user_id)); [| intros ?]
  | |- hoare _ (ret _) _ _ => apply hoare_ret; mid_side
  | |- hoare _ (raise _) _ _ => apply hoare_raise; mid_side
  | |- hoare _ (lift _) _ _ => apply hoare_lift; mid_side
  | |- hoare _ get_pending _ _ => apply hoare_get; mid_side
  | |- hoare _ (modify_pending _) _ _ => apply hoare_modify; mid_side
  | |- hoare _ (db_stmt _ _) _ _ => apply hoare_stmt; mid_side
  | |- hoare _ (match ?x with _ => _ end) _ _ => destruct x
  end.

Lemma store_event_body_stats faults p :
  hoare stats_done (store_event_body faults p)
        (fun _ => stats_committed) (fun _ => stats_committed).
Proof.
  unfold store_event_body.
  destruct (validate_event p) as [[|] msg]; simpl negb; cbv iota.
  2: { apply hoare_raise. intros s H. exact (proj1 H). }
  destruct (pl_user_id p) as [user_id |], (pl_event_id p) as [event_id |],
           (pl_event_type p) as [event_type |], (pl_timestamp p) as [ts |];
    try (apply hoare_raise; intros s H; exact (proj1 H)).
  apply hoare_conseq with (P' := stats_mid user_id)
    (Q' := fun _ => stats_committed) (E' := fun _ => stats_committed);
    [| apply stats_done_mid | auto | auto].
  repeat mid_step user_id.
  eapply (hoare_bind _ _ _ (fun _ => stats_done)).
  - apply hoare_modify. intros s H. now apply done_update_engagement.
  - intros _. eapply (hoare_bind _ _ _ (fun _ => stats_committed)).
    + apply hoare_commit.
      * intros s H _. exact (proj2 H).
      * intros s err H _. exact (proj1 H).
    + intros _. apply hoare_ret. auto.
Qed.

Lemma store_event_stats faults p s r s' :
  stats_done s -> store_event faults p s = (r, s') -> stats_committed s'.
Proof.
  intros Hs H. unfold store_event, try_except in H.
  pose proof (store_event_body_stats faults p s Hs) as Hb.
  destruct (store_event_body faults p s) as [[e | v] s1].
  - assert (committed s' = committed s1) as Hc.
    { destruct e; simpl in H; try (inversion H; reflexivity).
      unfold bind, db_rollback in H. simpl in H.
      destruct (is_duplicate_msg msg); inversion H; reflexivity. }
    unfold stats_committed. rewrite Hc. exact Hb.
  - inversion H; subst. exact Hb.
Qed.

Lemma reachable_score_ok db : reachable db -> Forall score_ok (user_stats db).
Proof.
  induction 1 as [| faults p s r s' Hr IH Hcl Hrun
                  | faults p msg ty status s r s' Hr IH Hcl Hrun].
  - constructor.
  - apply (store_event_stats faults p s r s'); [| exact Hrun].
    split; [exact IH |]. unfold clean in Hcl. rewrite Hcl. exact IH.
  - rewrite log_dead_letter_run in Hrun. unfold clean in Hcl.
    destruct (faults Commit); inversion Hrun; subst; simpl; [exact IH |].
    rewrite Hcl. exact IH.
Qed.

Lemma this_Q2Qc q : (this (Q2Qc q) == q)%Q.
Proof. apply Qred_correct. Qed.

Lemma engagement_arg te tp :
  (this (Q2Qc (inject_Z te) * Q2Qc (1 # 2) + Q2Qc (inject_Z tp) * Q2Qc 5)%Qc
   == inject_Z te * (1 # 2) + inject_Z tp * 5)%Q.
Proof.
  unfold Qcplus, Qcmult. rewrite this_Q2Qc. rewrite !this_Q2Qc. reflexivity.
Qed.

Lemma engagement_arg_mono te te' tp tp' :
  (te <= te')%Z -> (tp <= tp')%Z ->
  (inject_Z te * (1 # 2) + inject_Z tp * 5 <= inject_Z te' * (1 # 2) + inject_Z tp' * 5)%Q.
Proof.
  intros H1 H2. apply Qplus_le_compat.
  - apply Qmult_le_compat_r; [now rewrite <- Zle_Qle | discriminate].
  - apply Qmult_le_compat_r; [now rewrite <- Zle_Qle | discriminate].
Qed.

Lemma engagement_range te tp :
  (0 <= te)%Z -> (0 <= tp)%Z ->
  exists q, engagement te tp = Fin q /\ (0 <= q)%Qc /\ (q <= Q2Qc 100)%Qc.
Proof.
  intros Hte Htp. unfold engagement, py_min.
  destruct (Qle_bool _ _) eqn:Hle; eexists; (split; [reflexivity |]).
  - split; unfold Qcle; simpl; [discriminate | apply Qle_refl].
  - split.
    + unfold Qcle. rewrite engagement_arg.
      apply Qle_trans with (inject_Z 0 * (1 # 2) + inject_Z 0 * 5)%Q;
        [vm_compute; discriminate | now apply engagement_arg_mono].
    + unfold Qcle.
      destruct (Qlt_le_dec
                  (this (Q2Qc (inject_Z te) * Q2Qc (1 # 2) + Q2Qc (inject_Z tp) * Q2Qc 5)%Qc)
                  (this (Q2Qc 100))) as [Hlt | Hge].
      * now apply Qlt_le_weak.
      * apply Qle_bool_iff in Hge. congruence.
Qed.

Lemma engagement_mono te te' tp tp' :
  (te <= te')%Z -> (tp <= tp')%Z ->
  num_le (engagement te tp) (engagement te' tp').
Proof.
  intros H1 H2. pose proof (engagement_arg_mono te te' tp tp' H1 H2) as Hm.
  rewrite <- !engagement_arg in Hm.
  unfold engagement, py_min, num_le, Qcle.
  set (x := (Q2Qc (inject_Z te) * Q2Qc (1 # 2) + Q2Qc (inject_Z tp) * Q2Qc 5)%Qc) in *.
  set (x' := (Q2Qc (inject_Z te') * Q2Qc (1 # 2) + Q2Qc (inject_Z tp') * Q2Qc 5)%Qc) in *.
  destruct (Qle_bool (Q2Qc 100) x) eqn:Ha; destruct (Qle_bool (Q2Qc 100) x') eqn:Hb.
  - apply Qle_refl.
  - apply Qle_bool_iff in Ha. exfalso.
    assert (Hc : Qle_bool (Q2Qc 100) x' = true).
    { apply Qle_bool_iff. eapply Qle_trans; [exact Ha | exact Hm]. }
    congruence.
  - destruct (Qlt_le_dec x (Q2Qc 100)) as [Hlt | Hge].
    + now apply Qlt_le_weak.
    + apply Qle_bool_iff in Hge. congruence.
  - exact Hm.
Qed.

Lemma engagement_value te tp :
  exists q, engagement te tp = Fin q /\
    (q == if Qle_bool 100 (inject_Z te * (1 # 2) + inject_Z tp * 5)
          then 100 else inject_Z te * (1 # 2) + inject_Z tp * 5)%Q.
Proof.
  unfold engagement, py_min. eexists. split; [reflexivity |].
  assert (Hb : Qle_bool (Q2Qc 100)
                 (Q2Qc (inject_Z te) * Q2Qc (1 # 2) + Q2Qc (inject_Z tp) * Q2Qc 5)%Qc
               = Qle_bool 100 (inject_Z te * (1 # 2) + inject_Z tp * 5)).
  { destruct (Qle_bool 100 (inject_Z te * (1 # 2) + inject_Z tp * 5)) eqn:E.
    - apply Qle_bool_iff. apply Qle_bool_iff in E.
      rewrite engagement_arg, this_Q2Qc. exact E.
    - destruct (Qle_bool (Q2Qc 100) _) eqn:E'; [| reflexivity].
      apply Qle_bool_iff in E'. rewrite engagement_arg, this_Q2Qc in E'.
      apply Qle_bool_iff in E'. congruence. }
  rewrite Hb. destruct (Qle_bool 100 _).
  - apply this_Q2Qc.
  - apply engagement_arg.
Qed.

(** C8.  In every database the service can reach, the engagement score of
    every statistics row is [min(100, total_events * 0.5 +
    total_purchases * 5.0)] of that row's counters: 100 when the sum
    reaches 100 and the sum itself below that.  So it lies between 0 and
    100, and of two rows of reachable databases the one with the greater
    or equal counters has the greater or equal score. *)
Theorem engagement_score_clamped db st :
  reachable db -> In st (user_stats db) ->
  exists q,
    engagement_score st = Fin q /\
    (let sum := (inject_Z (total_events st) * (1 # 2)
                 + inject_Z (total_purchases st) * 5)%Q in
     (100 <= sum -> q == 100)%Q /\ (sum < 100 -> q == sum)%Q) /\
    (0 <= q)%Q /\ (q <= 100)%Q /\
    (forall db' st' q',
       reachable db' -> In st' (user_stats db') -> engagement_score st' = Fin q' ->
       (total_events st <= total_events st')%Z ->
       (total_purchases st <= total_purchases st')%Z ->
       (q <= q')%Q) /\
    engagement_score st = engagement (total_events st) (total_purchases st).
Proof.
  intros Hr Hin. pose proof (reachable_score_ok db Hr) as Hall.
  rewrite Forall_forall in Hall. destruct (Hall st Hin) as [[Hte Htp] Hs].
  destruct (engagement_value (total_events st) (total_purchases st)) as (q & Hq & Hv).
  destruct (engagement_range _ _ Hte Htp) as (q0 & Hq0 & H0 & H100).
  assert (q0 = q) by congruence. subst q0.
  exists q. split; [congruence |]. split; [| split; [| split; [| split]]].
  - cbv zeta. split; intros H.
    + apply Qle_bool_iff in H. now rewrite H in Hv.
    + destruct (Qle_bool 100 _) eqn:E; [| exact Hv].
      apply Qle_bool_iff in E. exfalso. exact (Qlt_not_le _ _ H E).
  - exact H0.
  - unfold Qcle in H100. now rewrite this_Q2Qc in H100.
  - intros db' st' q' Hr' Hin' Hq' Hle1 Hle2.
    pose proof (reachable_score_ok db' Hr') as Hall'.
    rewrite Forall_forall in Hall'. destruct (Hall' st' Hin') as [_ Hs'].
    pose proof (engagement_mono _ _ _ _ Hle1 Hle2) as Hm.
    rewrite <- Hs, <- Hs', Hq' in Hm.
    assert (Hsq : engagement_score st = Fin q) by congruence.
    rewrite Hsq in Hm. exact Hm.
  - exact Hs.
Qed.

(* ===================================================================== *)
(** ** More of the service                                               *)
(* ===================================================================== *)

(** *** The database after an accepted event *)

Lemma hoare_pure {A} (phi : Prop) P (m : M A) Q E :
  (phi -> hoare P m Q E) -> hoare (fun s => phi /\ P s) m Q E.
Proof. intros H s [Hphi Hs]. exact (H Hphi s Hs). Qed.

Section Exact.

Variable faults : oracle.
Variable p : Payload.
Variable db0 : DB.
Variables user_id event_id event_type ts : string.
Variable timestamp : datetime.

Hypothesis Huser : pl_user_id p = Some user_id.
Hypothesis Hevent : pl_event_id p = Some event_id.
Hypothesis Htype : pl_event_type p = Some event_type.
Hypothesis Hts : pl_timestamp p = Some ts.
Hypothesis Hparse : fromisoformat ts = Some timestamp.
Hypothesis Hnew : find_event event_id db0 = None.

Let duration : num := or_NaN (py_float (pl_duration p)).
Let amount : num := or_NaN (decimal_amount p).

Let db1 : DB := with_user user_id timestamp p db0.
Let n : nat := length (duration_events user_id db1).
Let db2 : DB := add_event (event_row user_id event_id event_type timestamp p) db1.
Let old_avg : num := avg_session_duration (stats_row user_id db2).
Let db3 : DB := with_stats user_id db2.
Let db4 : DB := with_average user_id p duration n old_avg db3.
Let db5 : DB :=
  update_stats user_id (fun st => set_total_events (total_events st + 1) st) db4.
Let db6 : DB := update_stats user_id (set_last_active timestamp) db5.
Let db7 : DB := with_purchase user_id event_type timestamp amount db6.

Let at_db (db : DB) (s : Session) : Prop := pending s = db.
Let anything (e : exn) (s : Session) : Prop := True.

Tactic Notation "bind_with" constr(R) "as" ident(a) :=
  eapply (hoare_bind _ _ _ R); [| intros a].

Ltac stmt_keeps := apply hoare_stmt; [intros ? H _; exact H | intros; exact Logic.I].

Lemma store_event_body_applies :
  hoare (at_db db0) (store_event_body faults p)
        (fun _ s => pending s = apply_event user_id event_id event_type timestamp p
                                            duration amount db0 /\
                    committed s = pending s /\
                    (truthy (pl_duration p) = true ->
                     py_float (pl_duration p) = inr duration) /\
                    (event_type = "purchase" -> decimal_amount p = inr amount))
        anything.
Proof.
  unfold store_event_body.
  destruct (validate_event p) as [[|] msg]; simpl negb; cbv iota.
  2: now apply hoare_raise.
  rewrite Huser, Hevent, Htype, Hts, Hparse. simpl lift.
  bind_with (fun _ : unit => at_db db0) as u1. { stmt_keeps. }
  bind_with (fun db s => db = db0 /\ at_db db0 s) as db.
  { apply hoare_get. intros s H. split; [exact H | exact H]. }
  apply hoare_pure. intros ->. rewrite Hnew.
  bind_with (fun _ : unit => at_db db0) as u2. { stmt_keeps. }
  bind_with (fun db s => db = db0 /\ at_db db0 s) as db.
  { apply hoare_get. intros s H. split; [exact H | exact H]. }
  apply hoare_pure. intros ->.
  bind_with (fun _ : unit => at_db db1) as u3.
  { unfold db1, with_user. destruct (find_user user_id db0).
    - now apply hoare_ret.
    - bind_with (fun t s => t = timestamp /\ at_db db0 s) as t. { now apply hoare_ret. }
      apply hoare_pure. intros ->.
      bind_with (fun (_ : unit) s =>
                   pending s = add_user
                     {| u_user_id := user_id; u_email := pl_email p;
                        u_first_name := pl_first_name p; u_last_name := pl_last_name p;
                        u_country := pl_country p; u_signup_date := timestamp;
                        u_is_active := true |} db0) as u4.
      { apply hoare_modify. intros s H. simpl. now rewrite H. }
      stmt_keeps. }
  bind_with (fun t s => t = timestamp /\ at_db db1 s) as t. { now apply hoare_ret. }
  apply hoare_pure. intros ->.
  bind_with (fun dc s => (dc = (if truthy (pl_duration p) then Some (duration, n)
                                else None) /\
                          (truthy (pl_duration p) = true ->
                           py_float (pl_duration p) = inr duration)) /\
                         at_db db1 s) as dc.
  { destruct (truthy (pl_duration p)).
    - bind_with (fun y s => (y = duration /\ py_float (pl_duration p) = inr duration) /\
                            at_db db1 s) as y.
      { apply hoare_lift; [| intros; exact Logic.I].
        intros s a H Hr. split; [| exact H]. unfold duration. rewrite Hr. now split. }
      apply hoare_pure. intros [-> Hf].
      bind_with (fun _ : unit => at_db db1) as u5. { stmt_keeps. }
      bind_with (fun db s => db = db1 /\ at_db db1 s) as db.
      { apply hoare_get. intros s H. split; [exact H | exact H]. }
      apply hoare_pure. intros ->. apply hoare_ret. intros s H.
      split; [split; [reflexivity | intros _; exact Hf] | exact H].
    - apply hoare_ret. intros s H.
      split; [split; [reflexivity | discriminate] | exact H]. }
  apply hoare_pure. intros [-> Hfloat].
  bind_with (fun _ : unit => at_db db2) as u6.
  { apply hoare_modify. intros s H. unfold at_db, db2. simpl. now rewrite H. }
  bind_with (fun _ : unit => at_db db2) as u7. { stmt_keeps. }
  bind_with (fun _ : unit => at_db db2) as u8. { stmt_keeps. }
  bind_with (fun db s => db = db2 /\ at_db db2 s) as db.
  { apply hoare_get. intros s H. split; [exact H | exact H]. }
  apply hoare_pure. intros ->.
  bind_with (fun stats s => stats = stats_row user_id db2 /\ at_db db3 s) as stats.
  { unfold db3, with_stats, stats_row. destruct (find_stats user_id db2).
    - now apply hoare_ret.
    - bind_with (fun _ : unit => at_db (add_stats (new_stats user_id) db2)) as u9.
      { apply hoare_modify. intros s H. unfold at_db. simpl. now rewrite H. }
      bind_with (fun _ : unit => at_db (add_stats (new_stats user_id) db2)) as u10.
      { stmt_keeps. }
      now apply hoare_ret. }
  apply hoare_pure. intros ->.
  bind_with (fun _ : unit => at_db db4) as u11.
  { unfold db4, with_average. fold old_avg. destruct (truthy (pl_duration p)).
    - destruct n; apply hoare_modify; intros s H; unfold at_db; simpl; now rewrite H.
    - now apply hoare_ret. }
  bind_with (fun _ : unit => at_db db5) as u12.
  { apply hoare_modify. intros s H. unfold at_db, db5. simpl. now rewrite H. }
  bind_with (fun _ : unit => at_db db6) as u13.
  { apply hoare_modify. intros s H. unfold at_db, db6. simpl. now rewrite H. }
  bind_with (fun (_ : unit) s =>
               (event_type = "purchase" -> decimal_amount p = inr amount) /\
               at_db db7 s) as u14.
  { unfold db7, with_purchase.
    destruct (String.eqb_spec event_type "purchase") as [Hpur | Hpur].
    - bind_with (fun _ : unit => at_db
                   (update_stats user_id
                      (fun st => set_total_purchases (total_purchases st + 1) st) db6))
        as u15.
      { apply hoare_modify. intros s H. unfold at_db. simpl. now rewrite H. }
      bind_with (fun a s => (a = amount /\ decimal_amount p = inr amount) /\ at_db
                   (update_stats user_id
                      (fun st => set_total_purchases (total_purchases st + 1) st) db6) s)
        as a.
      { apply hoare_lift; [| intros; exact Logic.I].
        intros s a H Hr. split; [| exact H]. unfold amount, decimal_amount.
        rewrite Hr. now split. }
      apply hoare_pure. intros [-> Hamount].
      bind_with (fun _ : unit => at_db
                   (update_stats user_id
                      (fun st => set_total_spent (num_add (total_spent st) amount) st)
                      (update_stats user_id
                         (fun st => set_total_purchases (total_purchases st + 1) st)
                         db6))) as u16.
      { apply hoare_modify. intros s H. unfold at_db. simpl. now rewrite H. }
      apply hoare_modify. intros s H.
      split; [intros _; exact Hamount | unfold at_db; simpl; now rewrite H].
    - apply hoare_ret. intros s H. split; [intros F; now elim Hpur | exact H]. }
  apply hoare_pure. intros Hamount.
  bind_with (fun _ : unit => at_db
               (apply_event user_id event_id event_type timestamp p duration amount db0))
    as u17.
  { apply hoare_modify. intros s H. unfold at_db. simpl. now rewrite H. }
  bind_with (fun (_ : unit) s =>
               pending s = apply_event user_id event_id event_type timestamp p
                                       duration amount db0 /\
               committed s = pending s) as u18.
  { apply hoare_commit; [intros s H _; split; [exact H | reflexivity]
                        | intros; exact Logic.I]. }
  apply hoare_ret. intros s [H1 H2]. auto.
Qed.

End Exact.

(** A call that returned an identifier went through the body. *)
Lemma store_event_returned_body faults p s v s' :
  store_event faults p s = (inr (Some v), s') ->
  store_event_body faults p s = (inr (Some v), s').
Proof.
  unfold store_event, try_except. intros H.
  destruct (store_event_body faults p s) as [[e | v1] s1]; [| exact H].
  exfalso. destruct e; simpl in H; try discriminate.
  unfold bind, db_rollback in H. simpl in H.
  destruct (is_duplicate_msg msg); discriminate.
Qed.

Lemma store_event_found_same faults p s v s' :
  pl_event_id p = Some v ->
  find_event v (pending s) <> None ->
  store_event faults p s = (inr (Some v), s') ->
  committed s' = committed s /\ pending s' = pending s.
Proof.
  intros He Hfound H.
  destruct (store_event_stores _ _ _ _ _ H) as (Hv & _ & _).
  destruct (faults QueryEvent) as [err |] eqn:Hq.
  - exfalso. apply store_event_returned_body in H. revert H.
    destruct (validate_event_fields p Hv)
      as (u & e & ty & ts & t & Hu & He' & Hty & Hts & Ht).
    unfold store_event_body.
    rewrite (validate_event_true_None p Hv). simpl negb. cbv iota.
    rewrite Hu, He', Hty, Hts. unfold bind, db_stmt. rewrite Hq. discriminate.
  - rewrite (store_event_duplicate faults p s v Hv He Hfound Hq) in H.
    inversion H; subst. split; reflexivity.
Qed.

(** Every call of [store_event] in a clean session either leaves the
    committed database alone or commits [apply_event] of it; the session
    is clean again afterwards. *)
Lemma store_event_step faults p s r s' :
  clean s -> store_event faults p s = (r, s') ->
  clean s' /\
  (committed s' = committed s \/
   exists user_id event_id event_type ts timestamp,
     pl_user_id p = Some user_id /\ pl_event_id p = Some event_id /\
     pl_event_type p = Some event_type /\ pl_timestamp p = Some ts /\
     fromisoformat ts = Some timestamp /\
     find_event event_id (committed s) = None /\
     r = inr (Some event_id) /\
     committed s' = apply_event user_id event_id event_type timestamp p
                      (or_NaN (py_float (pl_duration p)))
                      (or_NaN (decimal_amount p)) (committed s)).
Proof.
  intros Hcl H. unfold clean in *.
  destruct r as [e | [v |]].
  - destruct (store_event_raises_clean _ _ _ _ _ H) as [Hc Hp].
    split; [congruence | now left].
  - destruct (store_event_stores _ _ _ _ _ H) as (Hv & He & _).
    destruct (find_event v (pending s)) eqn:Hfound.
    + destruct (store_event_found_same faults p s v s' He) as [Hc Hp];
        [congruence | exact H |].
      split; [congruence | now left].
    + destruct (validate_event_fields p Hv)
        as (u & e & ty & ts & t & Hu & He' & Hty & Hts & Ht).
      rewrite He in He'. inversion He'; subst e.
      pose proof (store_event_body_applies faults p (pending s) u v ty ts t
                    Hu He Hty Hts Ht Hfound s eq_refl) as Hb.
      rewrite (store_event_returned_body _ _ _ _ _ H) in Hb.
      destruct Hb as (Hp & Hc & _ & _). split; [congruence |].
      right. exists u, v, ty, ts, t. rewrite Hcl in *.
      repeat (split; [assumption || reflexivity |]). congruence.
  - assert (Hrb : committed s' = committed s /\ pending s' = committed s).
    { pose proof (store_event_body_stores faults p s Logic.I) as Hst.
      pose proof (store_event_body_runs faults (committed s) (calls s) p s) as Hrun.
      unfold store_event, try_except in H.
      destruct (store_event_body faults p s) as [[e | v1] s1].
      - assert (Hc : committed s1 = committed s).
        { apply Hrun. split; [reflexivity |]. exists []. split; [| constructor].
          unfold sent_since. now rewrite app_nil_r. }
        destruct e; simpl in H; try discriminate.
        unfold bind, db_rollback in H. simpl in H.
        destruct (is_duplicate_msg msg); inversion H; subst; simpl; auto.
      - inversion H; subst. destruct Hst as (eid & Hv & _). discriminate. }
    destruct Hrb as [Hc Hp]. split; [congruence | now left].
Qed.

(** *** The reachable databases, by the effect of each call *)

Lemma reachable_by_effect (P : DB -> Prop) :
  P empty_db ->
  (forall db p m ty status, reachable db -> P db ->
     P (add_dlq (dead_letter p m ty status) db)) ->
  (forall db user_id event_id event_type timestamp p duration amount,
     reachable db -> P db -> find_event event_id db = None ->
     P (apply_event user_id event_id event_type timestamp p duration amount db)) ->
  forall db, reachable db -> P db.
Proof.
  intros H0 Hd Ha db Hreach.
  induction Hreach as [| faults p s r s' Hr IH Hcl Hrun
                         | faults p m ty status s r s' Hr IH Hcl Hrun].
  - exact H0.
  - destruct (store_event_step faults p s r s' Hcl Hrun) as [_ [Hc | Hc]].
    + now rewrite Hc.
    + destruct Hc as (u & e & ety & ts & t & _ & _ & _ & _ & _ & Hnew & _ & Hc).
      rewrite Hc. now apply Ha.
  - rewrite log_dead_letter_run in Hrun. unfold clean in Hcl.
    destruct (faults Commit); inversion Hrun; subst; simpl.
    + exact IH.
    + rewrite Hcl. now apply Hd.
Qed.

(** *** What [apply_event] does to each table *)

Lemma find_key_None {A} (key : A -> string) k l :
  find (fun x => String.eqb (key x) k) l = None <-> ~ In k (map key l).
Proof.
  induction l as [| a l IH]; simpl.
  - split; auto.
  - destruct (String.eqb_spec (key a) k) as [E | E].
    + split; [discriminate | intros H; exfalso; apply H; now left].
    + rewrite IH. split; [intros H [F | F]; auto | intros H F; apply H; now right].
Qed.

Lemma find_key_Some {A} (key : A -> string) k l :
  find (fun x => String.eqb (key x) k) l <> None <-> In k (map key l).
Proof.
  split.
  - intros H. destruct (in_dec string_dec k (map key l)) as [Hin | Hn]; [exact Hin |].
    exfalso. apply H. now apply find_key_None.
  - intros Hin H. apply find_key_None in H. auto.
Qed.

Lemma NoDup_snoc {A} (a : A) l : NoDup l -> ~ In a l -> NoDup (l ++ [a]).
Proof.
  induction 1 as [| x l Hx Hl IH]; simpl; intros Ha.
  - constructor; [intros [] | constructor].
  - constructor.
    + intros Hin. apply in_app_or in Hin. destruct Hin as [Hin | [-> | []]]; auto.
    + apply IH. auto.
Qed.

Section Effect.

Variables (user_id event_id event_type : string) (timestamp : datetime)
          (p : Payload) (duration amount : num) (db : DB).

Let db' := apply_event user_id event_id event_type timestamp p duration amount db.
Let ev := event_row user_id event_id event_type timestamp p.
Let row := updated_row event_type timestamp p duration amount
             (length (duration_events user_id db))
             (avg_session_duration (stats_row user_id db)).

Lemma apply_event_users : users db' = users (with_user user_id timestamp p db).
Proof.
  unfold db', apply_event, with_purchase, with_average, with_stats.
  repeat match goal with
         | |- context [if ?b then _ else _] => destruct b
         | |- context [match ?x with _ => _ end] => destruct x
         end; reflexivity.
Qed.

Lemma apply_event_events : user_events db' = (user_events db ++ [ev])%list.
Proof.
  unfold db', apply_event, with_purchase, with_average, with_stats, with_user.
  repeat match goal with
         | |- context [if ?b then _ else _] => destruct b
         | |- context [match ?x with _ => _ end] => destruct x
         end; reflexivity.
Qed.

Lemma apply_event_dead_letters : dead_letter_queue db' = dead_letter_queue db.
Proof.
  unfold db', apply_event, with_purchase, with_average, with_stats, with_user.
  repeat match goal with
         | |- context [if ?b then _ else _] => destruct b
         | |- context [match ?x with _ => _ end] => destruct x
         end; reflexivity.
Qed.

(** The statistics table afterwards: the row of the user, created if it
    was missing, is rewritten by [updated_row]; no other row changes. *)
Lemma apply_event_stats :
  user_stats db' =
    map (fun st => if String.eqb (st_user_id st) user_id then row st else st)
        (user_stats (with_stats user_id db)).
Proof.
  assert (Hn : duration_events user_id (with_user user_id timestamp p db)
               = duration_events user_id db).
  { unfold with_user. destruct (find_user user_id db); reflexivity. }
  assert (Hs : forall e, stats_row user_id
                 (add_event e (with_user user_id timestamp p db))
               = stats_row user_id db).
  { intros e. unfold stats_row, with_user, find_stats.
    destruct (find_user user_id db); reflexivity. }
  assert (Hw : forall e, user_stats (with_stats user_id
                 (add_event e (with_user user_id timestamp p db)))
               = user_stats (with_stats user_id db)).
  { intros e. unfold with_stats, with_user, find_stats.
    destruct (find_user user_id db); simpl;
      destruct (find _ (user_stats db)); reflexivity. }
  unfold db', row, apply_event. rewrite Hn, Hs.
  unfold with_purchase, with_average, updated_row.
  destruct (truthy (pl_duration p)), (length (duration_events user_id db)),
    (String.eqb event_type "purchase");
    unfold update_stats; cbn [user_stats]; rewrite ?map_map, Hw;
    apply map_ext; intros st;
    destruct (String.eqb (st_user_id st) user_id) eqn:E;
    repeat (progress (cbn [st_user_id set_avg_session_duration set_total_events
                           set_last_active set_total_purchases set_total_spent
                           set_last_purchase set_engagement_score];
                      rewrite ?E));
    reflexivity.
Qed.

Lemma updated_row_fields n old_avg st :
  let st' := updated_row event_type timestamp p duration amount n old_avg st in
  st_user_id st' = st_user_id st /\
  total_events st' = (total_events st + 1)%Z /\
  total_purchases st' = (total_purchases st +
                         if String.eqb event_type "purchase" then 1 else 0)%Z /\
  last_active st' = Some timestamp /\
  last_purchase st' = (if String.eqb event_type "purchase" then Some timestamp
                       else last_purchase st) /\
  churn_risk st' = churn_risk st.
Proof.
  unfold updated_row.
  destruct (truthy (pl_duration p)), (String.eqb event_type "purchase"); simpl;
    repeat split; lia.
Qed.

Lemma apply_event_events_of u :
  events_of u db' =
    (events_of u db ++ if String.eqb user_id u then [ev] else [])%list.
Proof.
  unfold events_of. rewrite apply_event_events, filter_app. reflexivity.
Qed.

Lemma apply_event_purchases_of u :
  purchases_of u db' =
    (purchases_of u db ++
     if String.eqb user_id u && String.eqb event_type "purchase" then [ev] else [])%list.
Proof.
  unfold purchases_of. rewrite apply_event_events_of, filter_app.
  destruct (String.eqb user_id u); simpl; [| reflexivity].
  destruct (String.eqb event_type "purchase"); reflexivity.
Qed.

Lemma with_stats_rows st :
  In st (user_stats (with_stats user_id db)) <->
  In st (user_stats db) \/ (find_stats user_id db = None /\ st = new_stats user_id).
Proof.
  unfold with_stats. destruct (find_stats user_id db) eqn:F; simpl.
  - split; [auto | intros [H | [H _]]; [exact H | discriminate]].
  - rewrite in_app_iff. simpl. split.
    + intros [H | [H | []]]; auto.
    + intros [H | [_ H]]; auto.
Qed.

Lemma apply_event_stats_rows st :
  In st (user_stats db') <->
  exists st0, In st0 (user_stats (with_stats user_id db)) /\
    st = if String.eqb (st_user_id st0) user_id then row st0 else st0.
Proof.
  rewrite apply_event_stats, in_map_iff. split; intros (st0 & H1 & H2); exists st0; auto.
Qed.

Lemma apply_event_stats_ids :
  map st_user_id (user_stats db') = map st_user_id (user_stats (with_stats user_id db)).
Proof.
  rewrite apply_event_stats, map_map. apply map_ext. intros st.
  destruct (String.eqb (st_user_id st) user_id); [| reflexivity].
  apply updated_row_fields.
Qed.

Lemma with_stats_ids u :
  In u (map st_user_id (user_stats (with_stats user_id db))) <->
  In u (map st_user_id (user_stats db)) \/ u = user_id.
Proof.
  unfold with_stats. destruct (find_stats user_id db) eqn:F; simpl.
  - split; [auto | intros [H | ->]; [exact H |]].
    apply find_key_Some. unfold find_stats in F. now rewrite F.
  - rewrite map_app, in_app_iff. simpl. split.
    + intros [H | [H | []]]; auto.
    + intros [H | H]; auto.
Qed.

Lemma with_user_ids u :
  In u (map u_user_id (users (with_user user_id timestamp p db))) <->
  In u (map u_user_id (users db)) \/ u = user_id.
Proof.
  unfold with_user. destruct (find_user user_id db) eqn:F; simpl.
  - split; [auto | intros [H | ->]; [exact H |]].
    apply find_key_Some. unfold find_user in F. now rewrite F.
  - rewrite map_app, in_app_iff. simpl. split.
    + intros [H | [H | []]]; auto.
    + intros [H | H]; auto.
Qed.

Hypothesis Hnew : find_event event_id db = None.

Lemma apply_event_unique_keys : unique_keys db -> unique_keys db'.
Proof.
  intros (He & Hu & Hs). split; [| split].
  - rewrite apply_event_events, map_app. apply NoDup_snoc; [exact He |].
    now apply find_key_None.
  - rewrite apply_event_users. unfold with_user.
    destruct (find_user user_id db) eqn:F; [exact Hu |].
    simpl. rewrite map_app. apply NoDup_snoc; [exact Hu |].
    now apply find_key_None.
  - rewrite apply_event_stats_ids. unfold with_stats.
    destruct (find_stats user_id db) eqn:F; [exact Hs |].
    simpl. rewrite map_app. apply NoDup_snoc; [exact Hs |].
    now apply find_key_None.
Qed.

Lemma snoc_nonempty {A} (l m : list A) : l <> [] -> (l ++ m)%list <> [].
Proof. destruct l; [congruence | discriminate]. Qed.

Lemma apply_event_tables_agree : tables_agree db -> tables_agree db'.
Proof.
  intros (He & Hu & Hs).
  assert (Hown : events_of user_id db' <> []).
  { rewrite apply_event_events_of, String.eqb_refl.
    intros F. apply app_eq_nil in F. destruct F; discriminate. }
  assert (Hold : forall u, events_of u db <> [] -> events_of u db' <> []).
  { intros u H. rewrite apply_event_events_of. now apply snoc_nonempty. }
  split; [| split].
  - intros e Hin. rewrite apply_event_events in Hin.
    unfold find_user, find_stats. rewrite !find_key_Some.
    rewrite apply_event_users, apply_event_stats_ids, with_user_ids, with_stats_ids.
    apply in_app_or in Hin. destruct Hin as [Hin | [<- | []]].
    + destruct (He e Hin) as [H1 H2]. unfold find_user, find_stats in H1, H2.
      rewrite find_key_Some in H1. rewrite find_key_Some in H2. auto.
    + simpl. auto.
  - intros u Hin. apply (in_map u_user_id) in Hin.
    rewrite apply_event_users, with_user_ids in Hin.
    destruct Hin as [Hin | ->]; [| exact Hown].
    apply in_map_iff in Hin. destruct Hin as (u0 & <- & Hin). auto.
  - intros st Hin. apply (in_map st_user_id) in Hin.
    rewrite apply_event_stats_ids, with_stats_ids in Hin.
    destruct Hin as [Hin | ->]; [| exact Hown].
    apply in_map_iff in Hin. destruct Hin as (st0 & <- & Hin). auto.
Qed.

(** A user without a row has no event in the log. *)
Lemma no_stats_no_events :
  tables_agree db -> find_stats user_id db = None -> events_of user_id db = [].
Proof.
  intros (He & _) F. unfold events_of.
  destruct (filter _ (user_events db)) as [| e l] eqn:Hf; [reflexivity |].
  exfalso. assert (Hin : In e (e :: l)) by now left.
  rewrite <- Hf in Hin. apply filter_In in Hin. destruct Hin as [Hin Hq].
  apply String.eqb_eq in Hq. destruct (He e Hin) as [_ H]. rewrite Hq in H. auto.
Qed.

Lemma no_user_no_events :
  tables_agree db -> find_user user_id db = None -> events_of user_id db = [].
Proof.
  intros (He & _) F. unfold events_of.
  destruct (filter _ (user_events db)) as [| e l] eqn:Hf; [reflexivity |].
  exfalso. assert (Hin : In e (e :: l)) by now left.
  rewrite <- Hf in Hin. apply filter_In in Hin. destruct Hin as [Hin Hq].
  apply String.eqb_eq in Hq. destruct (He e Hin) as [H _]. rewrite Hq in H. auto.
Qed.

Lemma apply_event_counters_agree :
  tables_agree db -> counters_agree db -> counters_agree db'.
Proof.
  intros Ht Hc st Hin.
  apply apply_event_stats_rows in Hin. destruct Hin as (st0 & Hin & ->).
  apply with_stats_rows in Hin.
  destruct (String.eqb_spec (st_user_id st0) user_id) as [E | E].
  - destruct (updated_row_fields (length (duration_events user_id db))
                (avg_session_duration (stats_row user_id db)) st0)
      as (Hid & Hte & Htp & _).
    fold row in Hid, Hte, Htp. rewrite Hid, Hte, Htp, E.
    rewrite apply_event_events_of, apply_event_purchases_of, String.eqb_refl.
    rewrite !length_app. simpl andb.
    destruct Hin as [Hin | [F ->]].
    + destruct (Hc st0 Hin) as [H1 H2]. rewrite E in H1, H2. rewrite H1, H2.
      destruct (String.eqb event_type "purchase"); simpl; split; lia.
    + unfold purchases_of. rewrite (no_stats_no_events Ht F).
      destruct (String.eqb event_type "purchase"); simpl; split; reflexivity.
  - destruct Hin as [Hin | [_ ->]]; [| now elim E].
    rewrite apply_event_events_of, apply_event_purchases_of.
    assert (Hq : String.eqb user_id (st_user_id st0) = false).
    { apply String.eqb_neq. congruence. }
    rewrite Hq. simpl. rewrite !app_nil_r. now apply Hc.
Qed.

Lemma last_time_snoc l e : last_time (l ++ [e]) = Some (ev_timestamp e).
Proof. unfold last_time. rewrite map_app. simpl. apply last_last. Qed.

Lemma apply_event_dates_agree :
  tables_agree db -> dates_agree db -> dates_agree db'.
Proof.
  intros Ht (Hu & Hs). split.
  - intros u Hin. rewrite apply_event_users in Hin. rewrite apply_event_events_of.
    assert (Hold : In u (users db) ->
              option_map ev_timestamp
                (hd_error (events_of (u_user_id u) db ++
                           (if String.eqb user_id (u_user_id u) then [ev] else [])))
              = Some (u_signup_date u)).
    { intros H. specialize (Hu u H).
      destruct (events_of (u_user_id u) db); [discriminate | exact Hu]. }
    unfold with_user in Hin. destruct (find_user user_id db) eqn:F; [now apply Hold |].
    simpl in Hin. apply in_app_or in Hin. destruct Hin as [Hin | [<- | []]];
      [now apply Hold |].
    simpl. rewrite (no_user_no_events Ht F), String.eqb_refl. reflexivity.
  - intros st Hin.
    apply apply_event_stats_rows in Hin. destruct Hin as (st0 & Hin & ->).
    apply with_stats_rows in Hin.
    destruct (String.eqb_spec (st_user_id st0) user_id) as [E | E].
    + destruct (updated_row_fields (length (duration_events user_id db))
                  (avg_session_duration (stats_row user_id db)) st0)
        as (Hid & _ & _ & Hla & Hlp & _).
      fold row in Hid, Hla, Hlp. rewrite Hid, Hla, Hlp, E.
      rewrite apply_event_events_of, apply_event_purchases_of, String.eqb_refl.
      rewrite last_time_snoc. split; [reflexivity |]. simpl andb.
      destruct (String.eqb event_type "purchase").
      * now rewrite last_time_snoc.
      * rewrite app_nil_r. destruct Hin as [Hin | [F ->]].
        -- destruct (Hs st0 Hin) as [_ H]. now rewrite E in H.
        -- unfold purchases_of. now rewrite (no_stats_no_events Ht F).
    + destruct Hin as [Hin | [_ ->]]; [| now elim E].
      rewrite apply_event_events_of, apply_event_purchases_of.
      assert (Hq : String.eqb user_id (st_user_id st0) = false).
      { apply String.eqb_neq. congruence. }
      rewrite Hq. simpl. rewrite !app_nil_r. now apply Hs.
Qed.

Lemma apply_event_consistent : consistent db -> consistent db'.
Proof.
  intros (Hk & Ht & Hc & Hd). split; [| split; [| split]].
  - now apply apply_event_unique_keys.
  - now apply apply_event_tables_agree.
  - now apply apply_event_counters_agree.
  - now apply apply_event_dates_agree.
Qed.

End Effect.

Lemma reachable_consistent db : reachable db -> consistent db.
Proof.
  apply reachable_by_effect.
  - unfold consistent, unique_keys, tables_agree, counters_agree, dates_agree.
    simpl. repeat match goal with |- _ /\ _ => split end;
      try apply NoDup_nil; intros ? [].
  - intros db0 p m ty status _ H. exact H.
  - intros db0 u e ety t p d a _ H Hnew. now apply apply_event_consistent.
Qed.

Lemma apply_event_other_stats user_id event_id event_type timestamp p duration amount db uid :
  uid <> user_id ->
  find_stats uid (apply_event user_id event_id event_type timestamp p duration amount db)
    = find_stats uid db.
Proof.
  intros Hne.
  transitivity (find_stats uid
                  (update_stats user_id
                     (updated_row event_type timestamp p duration amount
                        (length (duration_events user_id db))
                        (avg_session_duration (stats_row user_id db)))
                     (with_stats user_id db))).
  - unfold find_stats at 1. rewrite apply_event_stats. reflexivity.
  - rewrite find_stats_update_other; [| exact Hne | intros st; apply updated_row_fields].
    unfold with_stats. destruct (find_stats user_id db); [reflexivity |].
    unfold find_stats. simpl. apply find_app_skip. simpl.
    apply String.eqb_neq. congruence.
Qed.

Lemma find_key_unique {A} (key : A -> string) l x :
  NoDup (map key l) -> In x l ->
  find (fun y => String.eqb (key y) (key x)) l = Some x.
Proof.
  induction l as [| a l IH]; simpl; intros Hnd Hin; [contradiction |].
  inversion Hnd as [| ? ? Ha Hl]; subst.
  destruct Hin as [-> | Hin].
  - now rewrite String.eqb_refl.
  - destruct (String.eqb_spec (key a) (key x)) as [E | E]; [| now apply IH].
    exfalso. apply Ha. rewrite E. now apply in_map.
Qed.


Lemma find_stats_row user_id db st :
  find_stats user_id db = Some st -> In st (user_stats db) /\ st_user_id st = user_id.
Proof.
  intros H. apply find_some in H. destruct H as [Hin Hq].
  split; [exact Hin | now apply String.eqb_eq].
Qed.

Lemma find_user_row user_id db u :
  find_user user_id db = Some u -> In u (users db) /\ u_user_id u = user_id.
Proof.
  intros H. apply find_some in H. destruct H as [Hin Hq].
  split; [exact Hin | now apply String.eqb_eq].
Qed.

(** What no call writes after the row is created: the churn risk of a
    statistics row and the activity flag of a user. *)
Lemma reachable_defaults db :
  reachable db ->
  (forall st, In st (user_stats db) -> churn_risk st = num_of_Z 0) /\
  (forall u, In u (users db) -> u_is_active u = true).
Proof.
  revert db. apply reachable_by_effect.
  - split; intros ? [].
  - intros db p m ty status _ H. exact H.
  - intros db uid eid ety t p d a _ [Hs Hu] _. split.
    + intros st Hin. apply apply_event_stats_rows in Hin.
      destruct Hin as (st0 & Hin & ->). apply with_stats_rows in Hin.
      assert (H0 : churn_risk st0 = num_of_Z 0).
      { destruct Hin as [Hin | [_ ->]]; [now apply Hs | reflexivity]. }
      destruct (String.eqb (st_user_id st0) uid); [| exact H0].
      rewrite <- H0. apply updated_row_fields.
    + intros u Hin. rewrite apply_event_users in Hin. unfold with_user in Hin.
      destruct (find_user uid db); [now apply Hu |].
      simpl in Hin. apply in_app_or in Hin.
      destruct Hin as [Hin | [<- | []]]; [now apply Hu | reflexivity].
Qed.

Lemma reachable_dead_letters db :
  reachable db -> Forall dlq_row_ok (dead_letter_queue db).
Proof.
  revert db. apply reachable_by_effect.
  - constructor.
  - intros db p m ty status _ H. simpl. apply Forall_app. split; [exact H |].
    constructor; [| constructor]. split; reflexivity.
  - intros db uid eid ety t p d a _ H _. now rewrite apply_event_dead_letters.
Qed.

(** *** The service, call by call *)

(** X1.  [validate_event] gives a reason exactly when it rejects the
    payload: the flag is true if and only if the message is [None]. *)
Theorem validate_event_reason p :
  fst (validate_event p) = true <-> snd (validate_event p) = None.
Proof.
  split.
  - intros H. now rewrite (validate_event_true_None p H).
  - unfold validate_event.
    destruct (filter _ REQUIRED_FIELDS); [| discriminate].
    destruct (pl_timestamp p); [| discriminate].
    destruct (fromisoformat s); [| discriminate].
    destruct (opt_str_eqb _ _); [| reflexivity].
    destruct (is_None _); [discriminate |].
    destruct (py_float _) as [e |];
      [destruct (is_TypeError_or_ValueError e); discriminate |].
    destruct (num_le0 _); [discriminate | reflexivity].
Qed.

(** X2.  For a payload whose required fields hold strings where present
    (every [Payload]) and whose event type is not purchase,
    [validate_event] accepts the payload if and only if the four required
    fields are there and the timestamp parses: the event type itself is
    not restricted to VALID_EVENT_TYPES, and neither amount nor duration
    is looked at. *)
Theorem validate_event_other_types p :
  pl_event_type p <> Some "purchase" ->
  (fst (validate_event p) = true <->
   exists user_id event_id event_type ts t,
     pl_user_id p = Some user_id /\ pl_event_id p = Some event_id /\
     pl_event_type p = Some event_type /\ pl_timestamp p = Some ts /\
     fromisoformat ts = Some t).
Proof.
  intros Hty. split; [apply validate_event_fields |].
  intros (u & e & ty & ts & t & Hu & He & Ht & Hts & Hp).
  unfold validate_event, has_key. simpl filter.
  rewrite Hu, He, Ht, Hts. simpl. rewrite Hp.
  destruct (String.eqb_spec ty "purchase") as [E | E]; [| reflexivity].
  exfalso. apply Hty. now rewrite Ht, E.
Qed.

(** X3.  What an accepted event went through.  When [store_event]
    returns the identifier of an event that was not in the session's
    view, the payload's duration, if truthy, converted to a float and,
    for a purchase, its amount to a Decimal; exactly one event row was
    appended, with the payload's event id, user id and event type; the
    user and the statistics row of the user are there afterwards; and
    the session holds no uncommitted change. *)
Theorem store_event_stores_parsed_event faults p s event_id s' :
  find_event event_id (pending s) = None ->
  store_event faults p s = (inr (Some event_id), s') ->
  exists user_id event_type,
    pl_user_id p = Some user_id /\ pl_event_type p = Some event_type /\
    (truthy (pl_duration p) = true -> exists d, py_float (pl_duration p) = inr d) /\
    (event_type = "purchase" -> exists a, decimal_amount p = inr a) /\
    (exists ev, user_events (committed s') = (user_events (pending s) ++ [ev])%list /\
                ev_event_id ev = event_id /\ ev_user_id ev = user_id /\
                ev_event_type ev = event_type) /\
    find_user user_id (committed s') <> None /\
    get_user_stats (committed s') user_id <> None /\
    pending s' = committed s'.
Proof.
  intros Hnew H.
  destruct (store_event_stores _ _ _ _ _ H) as (Hv & He & _).
  destruct (validate_event_fields p Hv)
    as (u & e & ty & ts & t & Hu & He' & Hty & Hts & Ht).
  pose proof (store_event_body_applies faults p (pending s) u event_id ty ts t
                Hu He Hty Hts Ht Hnew s eq_refl) as Hb.
  rewrite (store_event_returned_body _ _ _ _ _ H) in Hb.
  destruct Hb as (Hp & Hc & Hf & Ha).
  exists u, ty. split; [exact Hu |]. split; [exact Hty |].
  split; [intros Htr; eexists; exact (Hf Htr) |].
  split; [intros Hpur; eexists; exact (Ha Hpur) |].
  rewrite Hc, Hp. split; [| split; [| split; [| reflexivity]]].
  - eexists. split; [apply apply_event_events |]. repeat split.
  - unfold find_user. apply find_key_Some.
    rewrite apply_event_users, with_user_ids. now right.
  - unfold get_user_stats, find_stats. apply find_key_Some.
    rewrite apply_event_stats_ids, with_stats_ids. now right.
Qed.

(** X4.  What the result of [store_event] says about the database, for a
    call in a clean session: an identifier is returned only for the
    payload's own event, and that event is in the committed database
    afterwards; after [None] or an exception the committed database is
    the one before the call.  The session is clean again in every case. *)
Theorem store_event_result faults p s r s' :
  clean s -> store_event faults p s = (r, s') ->
  clean s' /\
  (forall event_id, r = inr (Some event_id) ->
     pl_event_id p = Some event_id /\ find_event event_id (committed s') <> None) /\
  (r = inr None \/ (exists e, r = inl e) -> committed s' = committed s).
Proof.
  intros Hcl H. destruct (store_event_step faults p s r s' Hcl H) as [Hcl' _].
  split; [exact Hcl' |]. split.
  - intros event_id ->. destruct (store_event_stores _ _ _ _ _ H) as (_ & He & Hf).
    split; [exact He |]. unfold clean in Hcl'. now rewrite <- Hcl'.
  - intros [-> | [e ->]].
    + now apply (store_event_None faults p s s').
    + now destruct (store_event_raises_clean _ _ _ _ _ H).
Qed.

(** X5.  [store_event] only ever adds.  Whatever the payload and whatever
    the database refuses, a call in a clean session leaves every user row
    and every event row in place, adding rows at the end at most; it does
    not touch the dead-letter queue; and the statistics of every user
    other than the payload's are what they were. *)
Theorem store_event_append_only faults p s r s' :
  clean s -> store_event faults p s = (r, s') ->
  extends (users (committed s)) (users (committed s')) /\
  extends (user_events (committed s)) (user_events (committed s')) /\
  dead_letter_queue (committed s') = dead_letter_queue (committed s) /\
  (forall user_id, pl_user_id p <> Some user_id ->
     get_user_stats (committed s') user_id = get_user_stats (committed s) user_id).
Proof.
  intros Hcl H. destruct (store_event_step faults p s r s' Hcl H) as [_ [Hc | Hc]].
  - rewrite Hc. repeat split; try (exists []; now rewrite app_nil_r).
  - destruct Hc as (u & e & ety & ts & t & Hu & _ & _ & _ & _ & _ & _ & Hc).
    rewrite Hc. split; [| split; [| split]].
    + rewrite apply_event_users. unfold with_user.
      destruct (find_user u (committed s)).
      * exists []. now rewrite app_nil_r.
      * simpl. eexists. reflexivity.
    + rewrite apply_event_events. eexists. reflexivity.
    + apply apply_event_dead_letters.
    + intros uid Hne. unfold get_user_stats. apply apply_event_other_stats.
      congruence.
Qed.

(** X6.  Keys are unique in every database the service produces: no two
    events share an event id, no two users or statistics rows a user id,
    so a lookup by key finds the row itself. *)
Theorem reachable_keys_unique db :
  reachable db ->
  unique_keys db /\
  (forall e, In e (user_events db) -> find_event (ev_event_id e) db = Some e) /\
  (forall u, In u (users db) -> find_user (u_user_id u) db = Some u) /\
  (forall st, In st (user_stats db) -> get_user_stats db (st_user_id st) = Some st).
Proof.
  intros Hr. destruct (reachable_consistent db Hr) as ((He & Hu & Hs) & _).
  split; [now repeat split |]. split; [| split].
  - intros e Hin. now apply (find_key_unique ev_event_id).
  - intros u Hin. now apply (find_key_unique u_user_id).
  - intros st Hin. now apply (find_key_unique st_user_id).
Qed.


(** X8.  The counters of a statistics row count the log: in every
    database the service produces, [total_events] is the number of stored
    events of the user and [total_purchases] the number of those of type
    purchase; hence at least one event and no more purchases than
    events. *)
Theorem reachable_counters db user_id st :
  reachable db -> get_user_stats db user_id = Some st ->
  total_events st = Z.of_nat (length (events_of user_id db)) /\
  total_purchases st = Z.of_nat (length (purchases_of user_id db)) /\
  (0 <= total_purchases st <= total_events st)%Z /\ (1 <= total_events st)%Z.
Proof.
  intros Hr F. destruct (reachable_consistent db Hr) as (_ & (_ & _ & Hs) & Hc & _).
  destruct (find_stats_row _ _ _ F) as [Hin Hid].
  destruct (Hc st Hin) as [H1 H2]. specialize (Hs st Hin). rewrite Hid in *.
  split; [exact H1 |]. split; [exact H2 |].
  assert (Hle : (length (purchases_of user_id db) <= length (events_of user_id db))%nat).
  { unfold purchases_of. apply filter_length_le. }
  destruct (events_of user_id db); [congruence |]. simpl in *. lia.
Qed.

(** X9.  The dates of the rows are those of the log: a user's signup date
    is the timestamp of their first stored event, [last_active] that of
    their last one, and [last_purchase] that of their last purchase
    ([None] when they have none). *)
Theorem reachable_dates db user_id :
  reachable db ->
  (forall u st, get_user_profile db user_id = Some (u, st) ->
     option_map ev_timestamp (hd_error (events_of user_id db))
       = Some (u_signup_date u)) /\
  (forall st, get_user_stats db user_id = Some st ->
     last_active st = last_time (events_of user_id db) /\
     last_purchase st = last_time (purchases_of user_id db)).
Proof.
  intros Hr. destruct (reachable_consistent db Hr) as (_ & _ & _ & Hu & Hs).
  split.
  - unfold get_user_profile. intros u st H.
    destruct (find_user user_id db) as [u0 |] eqn:F; [| discriminate].
    inversion H; subst. destruct (find_user_row _ _ _ F) as [Hin <-]. now apply Hu.
  - intros st F. destruct (find_stats_row _ _ _ F) as [Hin <-]. now apply Hs.
Qed.

(** X10.  Two columns are written once and never again: the churn risk
    of every statistics row is the default 0, and every user is active. *)
Theorem reachable_never_written db :
  reachable db ->
  (forall user_id st, get_user_stats db user_id = Some st ->
     churn_risk st = num_of_Z 0) /\
  (forall user_id u st, get_user_profile db user_id = Some (u, st) ->
     u_is_active u = true).
Proof.
  intros Hr. destruct (reachable_defaults db Hr) as [Hs Hu]. split.
  - intros user_id st F. apply Hs. now destruct (find_stats_row _ _ _ F).
  - unfold get_user_profile. intros user_id u st H.
    destruct (find_user user_id db) as [u0 |] eqn:F; [| discriminate].
    inversion H; subst. apply Hu. now destruct (find_user_row _ _ _ F).
Qed.

(** X11.  [log_dead_letter] never raises (the rollback of its handler
    is taken to go through, as everywhere here).  It returns [True] exactly
    when the commit is accepted, and then the queue has one more entry,
    the last, holding the payload as it came, its event id, the message,
    the type and the status given, and a retry count of 0; when the
    commit is refused the queue is as before.  The other tables are not
    touched and the session is clean afterwards. *)
Theorem log_dead_letter_effect faults p m ty status s r s' :
  clean s -> log_dead_letter faults p m ty status s = (r, s') ->
  r = inr (isNone (faults Commit)) /\
  dead_letter_queue (committed s') =
    (dead_letter_queue (committed s) ++
     if isNone (faults Commit) then [dead_letter p m ty status] else [])%list /\
  users (committed s') = users (committed s) /\
  user_events (committed s') = user_events (committed s) /\
  user_stats (committed s') = user_stats (committed s) /\
  clean s'.
Proof.
  unfold clean. intros Hcl H. rewrite log_dead_letter_run in H.
  destruct (faults Commit); inversion H; subst; simpl; rewrite ?Hcl, ?app_nil_r;
    repeat split.
Qed.

(** X12.  The dead-letter queue holds only what [log_dead_letter] wrote:
    in every database the service produces, each entry has a retry count
    of 0 and the event id of the payload it stores. *)
Theorem reachable_dead_letter_rows db d :
  reachable db -> In d (dead_letter_queue db) ->
  dlq_retry_count d = 0%Z /\ dlq_event_id d = pl_event_id (dlq_event_data d).
Proof.
  intros Hr Hin. pose proof (reachable_dead_letters db Hr) as H.
  rewrite Forall_forall in H. now apply H.
Qed.

(** *** The summary of the dead-letter queue *)

Lemma bump_count ty acc ty' :
  error_count ty' (bump ty acc) =
    (error_count ty' acc + if String.eqb ty ty' then 1 else 0)%nat.
Proof.
  unfold error_count. induction acc as [| [k n] acc IH]; simpl.
  - rewrite String.eqb_sym. destruct (String.eqb ty' ty); reflexivity.
  - destruct (String.eqb_spec k ty) as [E | E]; simpl.
    + subst k. destruct (String.eqb ty ty'); [lia | lia].
    + destruct (String.eqb_spec k ty') as [E' | E'].
      * subst k. destruct (String.eqb_spec ty ty'); [congruence | lia].
      * exact IH.
Qed.

Lemma bump_keys ty acc ty' :
  In ty' (map fst (bump ty acc)) <-> In ty' (map fst acc) \/ ty' = ty.
Proof.
  induction acc as [| [k n] acc IH]; simpl.
  - split; [intros [H | []]; auto | intros [[] | H]; auto].
  - destruct (String.eqb_spec k ty) as [E | E]; simpl.
    + subst k. split; [auto | intros [H | H]; auto].
    + rewrite IH. split; [intros [H | [H | H]]; auto | intros [[H | H] | H]; auto].
Qed.

Lemma bump_NoDup ty acc : NoDup (map fst acc) -> NoDup (map fst (bump ty acc)).
Proof.
  induction acc as [| [k n] acc IH]; simpl; intros H.
  - constructor; [intros [] | constructor].
  - inversion H as [| ? ? Hk Hacc]; subst.
    destruct (String.eqb_spec k ty) as [E | E]; simpl.
    + now constructor.
    + constructor; [| now apply IH].
      rewrite bump_keys. intros [F | F]; auto.
Qed.

Lemma bump_sum ty acc : list_sum (map snd (bump ty acc)) = S (list_sum (map snd acc)).
Proof.
  induction acc as [| [k n] acc IH]; simpl; [reflexivity |].
  destruct (String.eqb k ty); simpl; [reflexivity | rewrite IH; lia].
Qed.

Lemma bump_positive ty acc :
  Forall (fun x => (1 <= snd x)%nat) acc ->
  Forall (fun x => (1 <= snd x)%nat) (bump ty acc).
Proof.
  induction acc as [| [k n] acc IH]; simpl; intros H.
  - constructor; [simpl; lia | constructor].
  - inversion H; subst. destruct (String.eqb k ty); constructor; simpl in *; auto; lia.
Qed.

Lemma count_by_type_from l : forall acc,
  NoDup (map fst acc) -> Forall (fun x => (1 <= snd x)%nat) acc ->
  let r := fold_left (fun acc d => bump (dlq_error_type d) acc) l acc in
  NoDup (map fst r) /\ Forall (fun x => (1 <= snd x)%nat) r /\
  list_sum (map snd r) = (list_sum (map snd acc) + length l)%nat /\
  (forall ty, error_count ty r
              = (error_count ty acc + length (entries_of_type ty l))%nat).
Proof.
  induction l as [| d l IH]; intros acc Hnd Hpos; simpl.
  - repeat split; auto.
  - destruct (IH (bump (dlq_error_type d) acc) (bump_NoDup _ _ Hnd)
                (bump_positive _ _ Hpos)) as (H1 & H2 & H3 & H4).
    split; [exact H1 |]. split; [exact H2 |]. split.
    + rewrite H3, bump_sum. lia.
    + intros ty. rewrite H4, bump_count. unfold entries_of_type. simpl.
      destruct (String.eqb (dlq_error_type d) ty); simpl; lia.
Qed.

(** X13.  The summary of the dead-letter queue adds up: each error type
    appears once in [by_error_type], with the number of entries of that
    type, which is at least 1; the counts sum to [total_failed]; and
    [recent_entries] has ten entries, or all of them when there are
    fewer. *)
Theorem dlq_summary_adds_up fault db sm :
  get_dlq_summary fault db = inr sm ->
  total_failed sm = length (dead_letter_queue db) /\
  NoDup (map fst (by_error_type sm)) /\
  (forall ty, error_count ty (by_error_type sm)
              = length (entries_of_type ty (dead_letter_queue db))) /\
  (forall ty n, In (ty, n) (by_error_type sm) -> (1 <= n)%nat) /\
  list_sum (map snd (by_error_type sm)) = total_failed sm /\
  length (recent_entries sm) = Nat.min 10 (total_failed sm).
Proof.
  unfold get_dlq_summary. destruct fault; [discriminate |].
  intros H. assert (E : forall x y : DlqSummary, @inr string _ x = inr y -> x = y)
    by (intros; congruence).
  apply E in H. subst sm. clear E.
  cbn [total_failed by_error_type recent_entries].
  destruct (count_by_type_from (dead_letter_queue db) [] (NoDup_nil _) (Forall_nil _))
    as (H1 & H2 & H3 & H4).
  fold (count_by_type (dead_letter_queue db)) in H1, H2, H3, H4.
  split; [reflexivity |]. split; [exact H1 |]. split; [exact H4 |]. split; [| split].
  - intros ty n Hin. rewrite Forall_forall in H2. exact (H2 _ Hin).
  - exact H3.
  - rewrite length_map, length_firstn, length_rev. reflexivity.
Qed.

(** X14.  A dead letter shows in the next summary: after a call of
    [log_dead_letter] that returned [True], [total_failed] is one more
    than before, the count of the entry's error type is one more, and
    the count of every other type is unchanged. *)
Theorem dead_letter_shows_in_summary faults p m ty status s s' sm sm' :
  clean s ->
  log_dead_letter faults p m ty status s = (inr true, s') ->
  get_dlq_summary None (committed s) = inr sm ->
  get_dlq_summary None (committed s') = inr sm' ->
  total_failed sm' = S (total_failed sm) /\
  (forall ty', error_count ty' (by_error_type sm') =
     (error_count ty' (by_error_type sm) + if String.eqb ty ty' then 1 else 0)%nat).
Proof.
  unfold clean. intros Hcl H Hsm Hsm'. rewrite log_dead_letter_run in H.
  destruct (faults Commit); [discriminate |]. inversion H; subst; clear H.
  simpl in Hsm'. rewrite Hcl in Hsm'.
  inversion Hsm; subst; clear Hsm. inversion Hsm'; subst; clear Hsm'. simpl.
  split.
  - rewrite length_app. simpl. lia.
  - intros ty'. unfold count_by_type. rewrite fold_left_app. simpl.
    apply bump_count.
Qed.

(** *** One iteration of the loop *)

Lemma reachable_add_dlq db p m ty status :
  reachable db -> reachable (add_dlq (dead_letter p m ty status) db).
Proof.
  intros Hr.
  pose proof (log_dead_letter_run no_faults p m ty status (SessionLocal db)) as H.
  simpl in H.
  exact (reach_dead_letter no_faults p m ty status (SessionLocal db) _ _ Hr eq_refl H).
Qed.

Lemma store_event_keeps_dead_letters faults p db r s :
  store_event faults p (SessionLocal db) = (r, s) ->
  dead_letter_queue (committed s) = dead_letter_queue db.
Proof.
  intros H.
  destruct (store_event_step faults p (SessionLocal db) r s eq_refl H)
    as [_ [Hc | Hc]].
  - now rewrite Hc.
  - destruct Hc as (u & e & ety & ts & t & _ & _ & _ & _ & _ & _ & _ & Hc).
    rewrite Hc. apply apply_event_dead_letters.
Qed.

Lemma process_message_reachable faults dlq_faults ack msg w :
  reachable (w_db w) ->
  reachable (w_db (process_message faults dlq_faults ack msg w)).
Proof.
  intros Hr.
  destruct (store_event faults (msg_value msg) (SessionLocal (w_db w)))
    as [[e | v] s] eqn:H.
  - rewrite (process_message_raised _ dlq_faults ack _ _ _ _ H). simpl.
    destruct (dlq_faults Commit); [exact Hr | now apply reachable_add_dlq].
  - rewrite (process_message_returned _ dlq_faults ack _ _ _ _ H). simpl.
    exact (reach_store faults (msg_value msg) (SessionLocal (w_db w)) _ _
             Hr eq_refl H).
Qed.

(** The queue and the counters after one message. *)
Lemma process_message_accounts faults dlq_faults ack msg w :
  let w' := process_message faults dlq_faults ack msg w in
  stats_total_events (w_state w') = (stats_total_events (w_state w) + 1)%Z /\
  (processed (w_state w) <= processed (w_state w') <= processed (w_state w) + 1)%Z /\
  exists more,
    dead_letter_queue (w_db w') = (dead_letter_queue (w_db w) ++ more)%list /\
    Forall (fun d => dlq_status d = "pending" /\ dlq_row_ok d /\
                     dlq_event_data d = msg_value msg) more /\
    (Z.of_nat (length more) <= dlq_logged (w_state w') - dlq_logged (w_state w)
       <= failed (w_state w') - failed (w_state w))%Z /\
    (dlq_logged (w_state w') - dlq_logged (w_state w) <= 1)%Z.
Proof.
  destruct (store_event faults (msg_value msg) (SessionLocal (w_db w)))
    as [[e | v] s] eqn:H; cbv zeta.
  - rewrite (process_message_raised _ dlq_faults ack _ _ _ _ H).
    unfold dead_lettered, stats_total_events. simpl.
    split; [lia |]. split; [lia |].
    destruct (dlq_faults Commit).
    + exists []. rewrite app_nil_r. simpl. repeat split; auto; lia.
    + eexists. split; [reflexivity |]. simpl. split.
      * constructor; [repeat split | constructor].
      * lia.
  - rewrite (process_message_returned _ dlq_faults ack _ _ _ _ H).
    unfold stats_total_events. simpl.
    assert (Hd := store_event_keeps_dead_letters _ _ _ _ _ H).
    destruct (truthy_id v), ack; simpl;
      (split; [lia |]); (split; [lia |]);
      exists []; rewrite app_nil_r; simpl; repeat split; auto; lia.
Qed.

(** X15.  Every message the loop processes is counted exactly once:
    whatever the payload, the database and the broker do, one iteration
    adds 1 to exactly one of [processed], [failed] and [duplicates], so
    [total_events] of [get_stats] goes up by 1; [dlq_logged] goes up at
    most with [failed]; and the queue grows by at most what [dlq_logged]
    counts, which also counts the entries whose write was refused. *)
Theorem process_message_counts_once faults dlq_faults ack msg w :
  let c := w_state w in
  let c' := w_state (process_message faults dlq_faults ack msg w) in
  stats_total_events c' = (stats_total_events c + 1)%Z /\
  (processed c <= processed c')%Z /\ (failed c <= failed c')%Z /\
  (duplicates c <= duplicates c')%Z /\
  (0 <= dlq_logged c' - dlq_logged c <= failed c' - failed c)%Z /\
  (Z.of_nat (length (dead_letter_queue
                       (w_db (process_message faults dlq_faults ack msg w))))
     - Z.of_nat (length (dead_letter_queue (w_db w)))
   <= dlq_logged c' - dlq_logged c)%Z.
Proof.
  cbv zeta.
  destruct (process_message_accounts faults dlq_faults ack msg w)
    as (Ht & Hp & more & Hq & _ & Hl & _).
  rewrite Hq, length_app.
  destruct (store_event faults (msg_value msg) (SessionLocal (w_db w)))
    as [[e | v] s] eqn:H.
  - rewrite (process_message_raised _ dlq_faults ack _ _ _ _ H) in *.
    unfold dead_lettered, stats_total_events in *. simpl in *. lia.
  - rewrite (process_message_returned _ dlq_faults ack _ _ _ _ H) in *.
    unfold stats_total_events in *. simpl in *.
    destruct (truthy_id v), ack; simpl in *; lia.
Qed.

(** X16.  An event whose identifier is the empty string passes
    validation and is stored, but the loop tests the returned identifier
    for truth: the message is counted as a duplicate, not as processed,
    although its event is in the database afterwards and nothing went to
    the dead-letter queue. *)
Theorem empty_event_id_counts_as_duplicate faults dlq_faults ack msg w s :
  store_event faults (msg_value msg) (SessionLocal (w_db w)) = (inr (Some ""), s) ->
  let w' := process_message faults dlq_faults ack msg w in
  find_event "" (w_db w') <> None /\
  w_state w' = incr_duplicates (w_state w) /\
  dead_letter_queue (w_db w') = dead_letter_queue (w_db w).
Proof.
  intros H. cbv zeta.
  rewrite (process_message_returned _ dlq_faults ack _ _ _ _ H). simpl.
  destruct (store_event_step faults (msg_value msg) (SessionLocal (w_db w)) _ s
              eq_refl H) as [Hcl _].
  destruct (store_event_stores _ _ _ _ _ H) as (_ & _ & Hf).
  unfold clean in Hcl. rewrite Hcl in Hf.
  split; [exact Hf |]. split; [reflexivity |].
  exact (store_event_keeps_dead_letters _ _ _ _ _ H).
Qed.

(** *** The loop *)

Lemma fetched_keeps poll b w :
  w_db (fetched poll b w) = w_db w /\ w_state (fetched poll b w) = w_state w /\
  w_committed (fetched poll b w) = w_committed w.
Proof. destruct poll, b; repeat split. Qed.

(** A message whose value is not a dict: counted as failed and as
    logged, nothing written. *)
Lemma process_non_object_accounts ack offset w :
  let w' := process_non_object ack offset w in
  w_db w' = w_db w /\
  w_state w' = incr_failed (incr_dlq_logged (w_state w)) /\
  w_position w' = (offset + 1)%Z /\
  w_committed w' = (if ack then offset + 1 else w_committed w)%Z.
Proof. unfold process_non_object. destruct ack; repeat split. Qed.

Lemma main_loop_invariant (I : World -> Prop) max_events :
  (forall w poll b, I w -> I (fetched poll b w)) ->
  (forall t m w, I w ->
     I (process_message (tick_faults t) (tick_dlq_faults t) (tick_ack t) m w)) ->
  (forall ack offset w, I w -> I (process_non_object ack offset w)) ->
  forall ticks c, I (co_world c) -> I (co_world (main_loop max_events ticks c)).
Proof.
  intros Hf Hp Hn. induction ticks as [| t ticks IH]; intros c Hc; simpl; [exact Hc |].
  destruct (tick_shutdown t); [exact Hc |].
  destruct (max_reached max_events (w_state (co_world c))); [exact Hc |].
  destruct (consume_message (tick_poll t) (co_service c)) as [[[[m | o] |] svc] b];
    apply IH; simpl; auto.
Qed.

(** A consumer that has no connection takes nothing out of the turns. *)
Lemma main_loop_disconnected max_events ticks c :
  connected (co_service c) = false -> main_loop max_events ticks c = c.
Proof.
  intros Hc. induction ticks as [| t ticks IH]; simpl; [reflexivity |].
  destruct (tick_shutdown t); [reflexivity |].
  destruct (max_reached max_events (w_state (co_world c))); [reflexivity |].
  unfold consume_message. unfold connected in Hc.
  replace (negb (has_consumer (co_service c)) || negb (is_connected (co_service c)))
    with true by (destruct (has_consumer (co_service c)),
                           (is_connected (co_service c)); simpl in *; congruence).
  replace (fetched (tick_poll t) false (co_world c)) with (co_world c)
    by (now destruct (tick_poll t)).
  destruct c; exact IH.
Qed.

Lemma main_loop_steady l1 : forall c,
  forallb steady l1 = true -> connected (co_service c) = true ->
  connected (co_service (main_loop None l1 c)) = true /\
  stats_total_events (w_state (co_world (main_loop None l1 c)))
    = (stats_total_events (w_state (co_world c))
       + Z.of_nat (length (filter is_record l1)))%Z /\
  forall l2, main_loop None (l1 ++ l2)%list c = main_loop None l2 (main_loop None l1 c).
Proof.
  induction l1 as [| t l1 IH]; intros c Hs Hc; simpl in Hs |- *.
  - split; [exact Hc |]. split; [lia | reflexivity].
  - apply andb_prop in Hs. destruct Hs as [Ht Hs].
    unfold steady in Ht. apply andb_prop in Ht. destruct Ht as [Hsd Hp].
    destruct (tick_shutdown t); [discriminate |]. unfold is_record at 1.
    unfold consume_message. pose proof Hc as Hc'. unfold connected in Hc'.
    apply andb_prop in Hc'. destruct Hc' as [H1 H2]. rewrite H1, H2. simpl.
    destruct (tick_poll t) as [| | code | off [v |] | off];
      try (destruct code; try discriminate);
      match goal with
      | |- context [main_loop None l1 ?c'] =>
          destruct (IH c' Hs Hc) as (I1 & I2 & I3)
      end;
      (split; [exact I1 |]); (split; [| exact I3]); rewrite I2;
      cbn [co_world w_state fetched length]; try lia.
    2: { destruct (tick_ack t); unfold stats_total_events; simpl; lia. }
    destruct (process_message_accounts (tick_faults t) (tick_dlq_faults t) (tick_ack t)
                {| msg_value := v; msg_offset := off |}
                {| w_db := w_db (co_world c); w_state := w_state (co_world c);
                   w_position := off + 1; w_committed := w_committed (co_world c) |})
      as (Hcount & _).
    cbn [w_state] in Hcount. rewrite Hcount. lia.
Qed.

(** X17.  The loop only produces databases the service can produce:
    from a reachable database, whatever the turns bring, the database
    after the loop is reachable, so everything shown of the reachable
    databases holds of it. *)
Theorem main_loop_reachable max_events ticks c :
  reachable (w_db (co_world c)) ->
  reachable (w_db (co_world (main_loop max_events ticks c))).
Proof.
  apply (main_loop_invariant (fun w => reachable (w_db w))).
  - intros w poll b H. now destruct poll, b.
  - intros t m w H. now apply process_message_reachable.
  - intros ack offset w H. now destruct ack.
Qed.

(** X18.  The dead letters of the loop.  The loop only appends to the
    queue; each entry it appends is pending, with retry count 0 and the
    event id of its payload; [dlq_logged] grows at least by the number of
    entries appended (it also counts the writes the database refused),
    and [failed] grows at least as much as [dlq_logged]. *)
Theorem main_loop_dead_letters max_events ticks c :
  let w := co_world c in
  let w' := co_world (main_loop max_events ticks c) in
  exists more,
    dead_letter_queue (w_db w') = (dead_letter_queue (w_db w) ++ more)%list /\
    Forall (fun d => dlq_status d = "pending" /\ dlq_row_ok d) more /\
    (Z.of_nat (length more) <= dlq_logged (w_state w') - dlq_logged (w_state w)
       <= failed (w_state w') - failed (w_state w))%Z.
Proof.
  cbv zeta.
  apply (main_loop_invariant
           (fun w' => exists more,
              dead_letter_queue (w_db w')
                = (dead_letter_queue (w_db (co_world c)) ++ more)%list /\
              Forall (fun d => dlq_status d = "pending" /\ dlq_row_ok d) more /\
              (Z.of_nat (length more)
                 <= dlq_logged (w_state w') - dlq_logged (w_state (co_world c))
                 <= failed (w_state w') - failed (w_state (co_world c)))%Z)).
  - intros w poll b H. destruct (fetched_keeps poll b w) as (-> & -> & _). exact H.
  - intros t m w (more & Hq & Hall & Hl).
    destruct (process_message_accounts (tick_faults t) (tick_dlq_faults t)
                (tick_ack t) m w) as (_ & _ & more' & Hq' & Hall' & Hl' & _).
    exists (more ++ more')%list. split; [| split].
    + rewrite Hq', Hq. now rewrite app_assoc.
    + apply Forall_app. split; [exact Hall |].
      eapply Forall_impl; [| exact Hall']. intros d (H1 & H2 & _). now split.
    + rewrite length_app. lia.
  - intros ack offset w (more & Hq & Hall & Hl).
    destruct (process_non_object_accounts ack offset w) as (-> & -> & _).
    exists more. split; [exact Hq |]. split; [exact Hall |]. simpl. lia.
  - exists []. rewrite app_nil_r. simpl. split; [reflexivity |].
    split; [constructor | lia].
Qed.


(** X20.  The limit of [--max-events] holds: with a limit other than 0,
    the loop never takes [processed] beyond the limit, unless it was
    beyond it at the start, and then it processes nothing. *)
Theorem main_loop_respects_max_events n ticks c :
  n <> 0%Z ->
  (processed (w_state (co_world (main_loop (Some n) ticks c)))
     <= Z.max (processed (w_state (co_world c))) n)%Z.
Proof.
  intros Hn. revert c. induction ticks as [| t ticks IH]; intros c; simpl; [lia |].
  destruct (tick_shutdown t); [lia |].
  destruct (Z.eqb_spec n 0) as [E | _]; [contradiction |]. simpl.
  destruct (Z.geb_spec (processed (w_state (co_world c))) n) as [Hge | Hlt]; [lia |].
  destruct (consume_message (tick_poll t) (co_service c)) as [[[[m | o] |] svc] b].
  - match goal with |- context [main_loop (Some n) ticks ?c'] => specialize (IH c') end.
    cbn [co_world] in IH.
    destruct (process_message_accounts (tick_faults t) (tick_dlq_faults t) (tick_ack t)
                m (fetched (tick_poll t) b (co_world c))) as (_ & Hp & _).
    destruct (fetched_keeps (tick_poll t) b (co_world c)) as (_ & Hst & _).
    rewrite Hst in Hp. lia.
  - match goal with |- context [main_loop (Some n) ticks ?c'] => specialize (IH c') end.
    cbn [co_world] in IH.
    destruct (process_non_object_accounts (tick_ack t) o
                (fetched (tick_poll t) b (co_world c))) as (_ & Hp & _).
    destruct (fetched_keeps (tick_poll t) b (co_world c)) as (_ & Hst & _).
    rewrite Hp, Hst in IH. simpl in IH. lia.
  - match goal with |- context [main_loop (Some n) ticks ?c'] => specialize (IH c') end.
    cbn [co_world] in IH.
    destruct (fetched_keeps (tick_poll t) b (co_world c)) as (_ & Hst & _).
    rewrite Hst in IH. lia.
Qed.

(** X21.  A limit of 0 is no limit: [max_events and ...] is false for 0,
    so [--max-events 0] runs the loop exactly as without the option. *)
Theorem main_loop_max_events_zero ticks c :
  main_loop (Some 0%Z) ticks c = main_loop None ticks c.
Proof.
  revert c. induction ticks as [| t ticks IH]; intros c; simpl; [reflexivity |].
  destruct (tick_shutdown t); [reflexivity |].
  destruct (consume_message (tick_poll t) (co_service c)) as [[[[m | o] |] svc] b];
    apply IH.
Qed.

(** X22.  Once all brokers are down the consumer is never connected
    again: the turn that meets ALL_BROKERS_DOWN clears [is_connected],
    and from then on the loop keeps turning without polling; no later
    record is fetched, stored or counted, whatever the later turns
    offer. *)
Theorem main_loop_brokers_down max_events t ticks c :
  tick_poll t = PollError ALL_BROKERS_DOWN ->
  tick_shutdown t = false ->
  max_reached max_events (w_state (co_world c)) = false ->
  connected (co_service c) = true ->
  main_loop max_events (t :: ticks) c
    = {| co_world := co_world c; co_service := disconnected (co_service c) |}.
Proof.
  intros Hp Hs Hm Hc. simpl. rewrite Hs, Hm, Hp.
  unfold consume_message. unfold connected in Hc. apply andb_prop in Hc.
  destruct Hc as [H1 H2]. rewrite H1, H2. simpl.
  apply main_loop_disconnected. unfold connected. simpl. apply andb_false_r.
Qed.

(** X23.  An acknowledged commit covers everything fetched before it.
    For a consumer that stays connected, when the last turn processes a
    record and the broker acknowledges its commit, the committed offset
    is the one after that record, whatever happened on the earlier
    turns: commits the broker refused and records that were skipped as
    undecodable are committed with it. *)
Theorem main_loop_commit_catches_up ticks t offset value c :
  forallb steady ticks = true -> connected (co_service c) = true ->
  tick_shutdown t = false ->
  tick_poll t = PollRecord offset (Some value) -> tick_ack t = true ->
  let w' := co_world (main_loop None (ticks ++ [t]) c) in
  w_committed w' = (offset + 1)%Z /\ w_position w' = (offset + 1)%Z.
Proof.
  intros Hs Hc Hsd Hp Ha. cbv zeta.
  destruct (main_loop_steady ticks c Hs Hc) as (Hc' & _ & Happ).
  rewrite Happ. simpl. rewrite Hsd, Hp, Ha.
  unfold consume_message. unfold connected in Hc'. apply andb_prop in Hc'.
  destruct Hc' as [H1 H2]. rewrite H1, H2. simpl.
  split.
  - apply (process_message_commits (tick_faults t) (tick_dlq_faults t)
             {| msg_value := value; msg_offset := offset |}).
  - unfold process_message.
    destruct (store_event _ _ _) as [[e | v] s].
    + destruct (is_ValueError e);
        match goal with |- context [log_dead_letter ?a ?b ?c ?d ?e ?f] =>
          destruct (log_dead_letter a b c d e f) end; reflexivity.
    + destruct (truthy_id v); reflexivity.
Qed.

(** X24.  A record whose bytes do not decode is lost without a trace.
    The loop skips it: nothing is stored, no counter moves and no dead
    letter is written; but the consumer's position is past it, so the
    final commit of [close] (like any later commit) commits its
    offset. *)
Theorem undecodable_record_is_lost max_events t offset ack c :
  connected (co_service c) = true ->
  tick_shutdown t = false ->
  max_reached max_events (w_state (co_world c)) = false ->
  tick_poll t = PollRecord offset None ->
  let c' := main_loop max_events [t] c in
  w_db (co_world c') = w_db (co_world c) /\
  w_state (co_world c') = w_state (co_world c) /\
  w_committed (co_world c') = w_committed (co_world c) /\
  w_committed (co_world (close ack c'))
    = (if ack then offset + 1 else w_committed (co_world c))%Z.
Proof.
  intros Hc Hs Hm Hp. cbv zeta. simpl. rewrite Hs, Hm, Hp.
  unfold consume_message, close. unfold connected in Hc. apply andb_prop in Hc.
  destruct Hc as [H1 H2]. rewrite H1, H2. simpl. rewrite H1.
  destruct ack; repeat split.
Qed.

(** X25.  [close] ends the consumer for good: whatever the final commit
    and the closing did, a consumer that was closed is not polled again,
    [consume_message] returning [None] at once; the final commit, when
    the broker acknowledges it, commits the position reached; the
    database and the counters are not touched. *)
Theorem close_ends_consumption ack c poll :
  consume_message poll (co_service (close ack c))
    = (None, co_service (close ack c), false) /\
  w_db (co_world (close ack c)) = w_db (co_world c) /\
  w_state (co_world (close ack c)) = w_state (co_world c) /\
  w_committed (co_world (close ack c))
    = (if has_consumer (co_service c) && ack then w_position (co_world c)
       else w_committed (co_world c)).
Proof.
  unfold close, consume_message.
  destruct (has_consumer (co_service c)) eqn:H; simpl.
  - rewrite H. simpl. destruct ack; repeat split.
  - rewrite H. repeat split.
Qed.

End Properties.

(* ===================================================================== *)
(** ** The properties on concrete runs                                   *)
(* ===================================================================== *)

(** C1, as stated, fails.  The commit is refused with a lost connection:
    [store_event] raises the database error, and the loop moves the
    committed offset from 0 past the message all the same. *)
Lemma storage_error_offset_advances :
  fst (run_store commit_lost click_e1 empty_db)
    = inl (SQLAlchemyError "OperationalError"
                           "server closed the connection unexpectedly") /\
  w_committed initial_world = 0%Z /\
  w_committed (deliver commit_lost (message click_e1 0) initial_world) = 1%Z.
Proof. vm_compute. repeat split. Qed.

(** The amended C1 on that run, and on the run where the database also
    refuses the dead letter: the queue stays empty, the counters and the
    offset move all the same. *)
Lemma storage_error_is_dead_lettered_and_committed_witness :
  (map dlq_error_type
     (dead_letter_queue (w_db (deliver commit_lost (message click_e1 0) initial_world)))
     = ["OperationalError"] /\
   w_committed (deliver commit_lost (message click_e1 0) initial_world) = 1%Z /\
   failed (w_state (deliver commit_lost (message click_e1 0) initial_world)) = 1%Z) /\
  (dead_letter_queue
     (w_db (process_message (B := sample_builtins) commit_lost commit_lost true
              (message click_e1 0) initial_world)) = [] /\
   dlq_logged
     (w_state (process_message (B := sample_builtins) commit_lost commit_lost true
                 (message click_e1 0) initial_world)) = 1%Z /\
   w_committed (process_message (B := sample_builtins) commit_lost commit_lost true
                  (message click_e1 0) initial_world) = 1%Z).
Proof.
  split.
  - destruct (storage_error_is_dead_lettered_and_committed (B := sample_builtins)
                commit_lost no_faults true (message click_e1 0) initial_world
                (DbOther "OperationalError" "server closed the connection unexpectedly")
                (snd (run_store commit_lost click_e1 empty_db)))
      as (_ & Hq & _ & _ & _ & _ & _ & _ & _ & _ & _ & Hf & _ & _ & _ & Hc & _).
    + vm_compute. reflexivity.
    + unfold deliver. split; [rewrite Hq; reflexivity |]. split; [exact Hc | exact Hf].
  - destruct (storage_error_is_dead_lettered_and_committed (B := sample_builtins)
                commit_lost commit_lost true (message click_e1 0) initial_world
                (DbOther "OperationalError" "server closed the connection unexpectedly")
                (snd (run_store commit_lost click_e1 empty_db)))
      as (_ & Hq & _ & _ & _ & _ & _ & _ & _ & _ & _ & _ & Hl & _ & _ & Hc & _).
    + vm_compute. reflexivity.
    + split; [rewrite Hq; reflexivity |]. split; [exact Hl | exact Hc].
Defined.

(** C2 on the code.  Durations 10 then 0 for one user: both events are
    stored with a duration, their mean is 5, and the stored average is
    10. *)
Lemma zero_duration_breaks_average :
  length (duration_events "u1" db_10_0) = 2%nat /\
  num_eqb (mean_duration (B := sample_builtins) "u1" db_10_0) (num_of_Z 5) = true /\
  option_map (fun st => num_eqb (avg_session_duration st) (num_of_Z 10))
             (get_user_stats db_10_0 "u1") = Some true /\
  option_map (fun st => num_eqb (avg_session_duration st)
                                (mean_duration (B := sample_builtins) "u1" db_10_0))
             (get_user_stats db_10_0 "u1") = Some false.
Proof. vm_compute. repeat split. Qed.

(** C6 on the code.  One stored duration event (n = 1, average 10), then
    an accepted event of duration 0: the formula gives (10 * 1 + 0) / 2 =
    5, the code leaves the average at 10. *)
Lemma zero_duration_skips_running_average :
  length (duration_events "u1" db_10) = 1%nat /\
  option_map (fun st => num_eqb (avg_session_duration st) (num_of_Z 10))
             (get_user_stats db_10 "u1") = Some true /\
  fst (run_store no_faults (video "e2" 0) db_10) = inr (Some "e2") /\
  num_eqb (num_div_nat (num_add (num_mul_nat (num_of_Z 10) 1) (num_of_Z 0)) (1 + 1))
          (num_of_Z 5) = true /\
  option_map (fun st => num_eqb (avg_session_duration st) (num_of_Z 10))
             (get_user_stats db_10_0 "u1") = Some true.
Proof. vm_compute. repeat split. Qed.

(** C3 on the event of scenario A, stored once. *)
Lemma duplicate_event_is_noop_witness :
  exists s',
    run_store no_faults click_e1 db_e1 = (inr (Some "e1"), s') /\
    committed s' = db_e1 /\ pending s' = db_e1 /\
    (forall user_id,
       get_user_stats (pending s') user_id = get_user_stats db_e1 user_id /\
       get_user_stats (committed s') user_id = get_user_stats db_e1 user_id) /\
    sent_during (SessionLocal db_e1) s' [QueryEvent].
Proof.
  apply (duplicate_event_is_noop (B := sample_builtins) no_faults click_e1
           (SessionLocal db_e1) "e1").
  - vm_compute. reflexivity.
  - reflexivity.
  - vm_compute. discriminate.
  - reflexivity.
Defined.

(** Scenario C of the spec. *)
Lemma scenario_C_total_events :
  fst (run_store no_faults click_e1 db_e1) = inr (Some "e1") /\
  option_map total_events
    (get_user_stats (committed (snd (run_store no_faults click_e1 db_e1))) "u1")
    = Some 1%Z.
Proof. vm_compute. repeat split. Qed.



(** C5 on a commit refused after the event of scenario A was stored. *)
Lemma store_event_failure_rolls_back_witness :
  exists l, sent_during (SessionLocal db_e1)
                        (snd (run_store commit_lost (video "e2" 10) db_e1)) l /\
    committed (snd (run_store commit_lost (video "e2" 10) db_e1)) = db_e1 /\
    pending (snd (run_store commit_lost (video "e2" 10) db_e1)) = db_e1.
Proof.
  destruct (store_event_failure_rolls_back (B := sample_builtins)
              commit_lost (video "e2" 10) (SessionLocal db_e1)
              (fst (run_store commit_lost (video "e2" 10) db_e1))
              (snd (run_store commit_lost (video "e2" 10) db_e1)))
    as (l & Hl & _ & Hrb & _).
  - vm_compute. reflexivity.
  - exists l. split; [exact Hl |].
    destruct (Hrb (SQLAlchemyError "OperationalError"
                     "server closed the connection unexpectedly"))
      as (Hc & Hp & _).
    + vm_compute. reflexivity.
    + split; [exact Hc | exact Hp].
Defined.

(** C7, as stated, fails.  A purchase whose amount is [Infinity] passes
    validation. *)
Lemma infinite_amount_passes_validation :
  pl_event_type purchase_infinity = Some "purchase" /\
  pl_amount purchase_infinity = VNum PInf /\
  validate_event (B := sample_builtins) purchase_infinity = (true, None).
Proof. vm_compute. repeat split. Qed.

(** An amount that is an integer beyond the range of floats: [float]
    raises OverflowError, which neither handler of the amount catches. *)
Lemma huge_amount_is_refused_by_the_catch_all :
  py_float (B := sample_builtins) (pl_amount purchase_huge)
    = inl (OverflowError "int too large to convert to float") /\
  validate_event (B := sample_builtins) purchase_huge
    = (false, Some "Validation error: int too large to convert to float").
Proof. vm_compute. split; reflexivity. Qed.

(** The amended C7 on scenario F of the spec. *)
Lemma purchase_amount_validation_witness :
  validate_event (B := sample_builtins) purchase_minus_5
    = (false, Some "Invalid amount: -5.0 (must be positive)") /\
  exists m s',
    run_store no_faults purchase_minus_5 empty_db = (inl (ValueError m), s') /\
    committed s' = empty_db /\ pending s' = empty_db /\
    sent_during (SessionLocal empty_db) s' [Rollback].
Proof.
  destruct (purchase_amount_validation (B := sample_builtins) purchase_minus_5)
    as (_ & Hr & _ & _ & _ & Hs).
  - reflexivity.
  - split.
    + rewrite (Hr ts0 20240115100000%Z); [vm_compute; reflexivity | | | | ];
        try discriminate; vm_compute; reflexivity.
    + apply (Hs eq_refl no_faults (SessionLocal empty_db)).
Defined.

(** C9 on the code.  The same message delivered twice: the second
    delivery finds the event stored, and the loop counts it as processed,
    not as a duplicate. *)
Lemma redelivered_message_counts_as_processed :
  let w1 := deliver no_faults (message click_e1 0) initial_world in
  let w2 := deliver no_faults (message click_e1 1) w1 in
  length (user_events (w_db w2)) = 1%nat /\
  processed (w_state w2) = 2%Z /\
  duplicates (w_state w2) = 0%Z /\
  w_committed w2 = 2%Z.
Proof. vm_compute. repeat split. Qed.

(** C10, as stated, fails.  A duration that is a list: validation passes,
    [float] raises TypeError, and the dead letter is filed under TypeError
    by the handler of unexpected errors. *)
Lemma list_duration_raises_TypeError :
  validate_event (B := sample_builtins) video_list = (true, None) /\
  fst (run_store no_faults video_list empty_db)
    = inl (TypeError "float() argument must be a string or a real number, not 'list'") /\
  map dlq_error_type
      (dead_letter_queue (w_db (deliver no_faults (message video_list 0) initial_world)))
    = ["TypeError"].
Proof. vm_compute. repeat split. Qed.

(** The amended C10 on the duration [abc]. *)
Lemma unparseable_duration_is_dead_lettered_witness :
  validate_event (B := sample_builtins) video_abc = (true, None) /\
  map dlq_error_type
      (dead_letter_queue (w_db (deliver no_faults (message video_abc 0) initial_world)))
    = ["ValueError"] /\
  user_events (w_db (deliver no_faults (message video_abc 0) initial_world)) = [] /\
  w_committed (deliver no_faults (message video_abc 0) initial_world) = 1%Z.
Proof.
  destruct (unparseable_duration_is_dead_lettered (B := sample_builtins)
              no_faults no_faults true (message video_abc 0) initial_world
              "abc" "u1" "e1")
    as (Hv & _ & _ & _ & Hq & _ & _ & _ & _ & _ & _ & _ & He & _ & _ & _ & _ & _ & Hc);
    try reflexivity; try discriminate.
  unfold deliver. split; [exact Hv |]. split; [rewrite Hq; reflexivity |].
  split; [exact He | exact Hc].
Defined.

(** C8 on the database that holds the event of scenario A: one event,
    no purchase, a score of one half. *)
Lemma engagement_score_clamped_witness :
  exists q,
    option_map engagement_score (get_user_stats db_e1 "u1") = Some (Fin q) /\
    (this q == (1 # 2))%Q /\ (0 <= this q)%Q /\ (this q <= 100)%Q.
Proof.
  assert (Hr : reachable (B := sample_builtins) db_e1).
  { apply (reach_store (B := sample_builtins) no_faults click_e1
             (SessionLocal empty_db) (fst (run_store no_faults click_e1 empty_db))
             (snd (run_store no_faults click_e1 empty_db)));
      [apply reach_empty | reflexivity | apply surjective_pairing]. }
  destruct (engagement_score_clamped (B := sample_builtins) db_e1
              (nth 0 (user_stats db_e1) (new_stats "")) Hr)
    as (q & Hq & (_ & Hsum) & H0 & H100 & _).
  - vm_compute. left. reflexivity.
  - exists q. split; [| split; [| split; assumption]].
    + rewrite <- Hq. vm_compute. reflexivity.
    + eapply Qeq_trans; [apply Hsum; vm_compute; reflexivity |].
      vm_compute. reflexivity.
Defined.

(* ===================================================================== *)
(** ** The further properties on concrete runs                           *)
(* ===================================================================== *)

Ltac by_store :=
  match goal with
  | |- reachable (stored ?p ?db) =>
      unfold stored at 1;
      refine (reach_store (B := sample_builtins) no_faults p (SessionLocal db)
                (fst (run_store no_faults p db)) (snd (run_store no_faults p db))
                _ eq_refl _);
      [cbn [committed SessionLocal]
      | unfold run_store; apply surjective_pairing]
  end.

(** Scenario A: a click with the four fields and a timestamp that parses. *)
Lemma validate_event_other_types_witness :
  fst (validate_event (B := sample_builtins) click_e1) = true.
Proof.
  apply (validate_event_other_types (B := sample_builtins) click_e1).
  - simpl. discriminate.
  - exists "u1", "e1", "click", ts0. eexists. repeat split.
Defined.

(** Scenario A stored in an empty database. *)
Lemma store_event_stores_parsed_event_witness :
  (exists ev, user_events db_e1 = [ev] /\ ev_event_id ev = "e1" /\
              ev_user_id ev = "u1" /\ ev_event_type ev = "click") /\
  get_user_stats db_e1 "u1" <> None.
Proof.
  destruct (store_event_stores_parsed_event (B := sample_builtins) no_faults click_e1
              (SessionLocal empty_db) "e1" (snd (run_store no_faults click_e1 empty_db)))
    as (u & ty & Hu & Hty & _ & _ & (ev & Hev & H1 & H2 & H3) & _ & Hst & _).
  - reflexivity.
  - vm_compute. reflexivity.
  - simpl in Hu, Hty. injection Hu as <-. injection Hty as <-.
    split; [exists ev; repeat split; assumption | exact Hst].
Defined.

(** Scenario A: the identifier comes back and the event is there. *)
Lemma store_event_result_witness :
  clean (snd (run_store no_faults click_e1 empty_db)) /\
  find_event "e1" db_e1 <> None.
Proof.
  destruct (store_event_result (B := sample_builtins) no_faults click_e1
              (SessionLocal empty_db) (fst (run_store no_faults click_e1 empty_db))
              (snd (run_store no_faults click_e1 empty_db)))
    as (Hcl & Hid & _).
  - reflexivity.
  - apply surjective_pairing.
  - split; [exact Hcl |]. apply (Hid "e1"). vm_compute. reflexivity.
Defined.

(** A purchase stored after the click of the same user. *)
Lemma store_event_append_only_witness :
  extends (user_events db_e1) (user_events db_e1_e2) /\
  dead_letter_queue db_e1_e2 = dead_letter_queue db_e1.
Proof.
  destruct (store_event_append_only (B := sample_builtins) no_faults purchase_e2
              (SessionLocal db_e1) (inr (Some "e2"))
              (snd (run_store no_faults purchase_e2 db_e1)))
    as (_ & He & Hd & _).
  - reflexivity.
  - vm_compute. reflexivity.
  - split; [vm_compute in He |- *; exact He | vm_compute in Hd |- *; exact Hd].
Defined.

(** The database after the click and the purchase. *)
Lemma reachable_keys_unique_witness : unique_keys db_e1_e2.
Proof.
  apply (reachable_keys_unique (B := sample_builtins) db_e1_e2).
  unfold db_e1_e2, db_e1. by_store. by_store. apply reach_empty.
Defined.


(** Two events, one of them a purchase. *)
Lemma reachable_counters_witness :
  total_events (nth 0 (user_stats db_e1_e2) (new_stats ""))
    = Z.of_nat (length (events_of "u1" db_e1_e2)) /\
  total_purchases (nth 0 (user_stats db_e1_e2) (new_stats ""))
    = Z.of_nat (length (purchases_of "u1" db_e1_e2)).
Proof.
  destruct (reachable_counters (B := sample_builtins) db_e1_e2 "u1"
              (nth 0 (user_stats db_e1_e2) (new_stats "")))
    as (H1 & H2 & _).
  - unfold db_e1_e2, db_e1. by_store. by_store. apply reach_empty.
  - vm_compute. reflexivity.
  - split; [exact H1 | exact H2].
Defined.

(** The date of the purchase. *)
Lemma reachable_dates_witness :
  last_purchase (nth 0 (user_stats db_e1_e2) (new_stats ""))
    = last_time (purchases_of "u1" db_e1_e2).
Proof.
  destruct (reachable_dates (B := sample_builtins) db_e1_e2 "u1") as (_ & H).
  - unfold db_e1_e2, db_e1. by_store. by_store. apply reach_empty.
  - apply H. vm_compute. reflexivity.
Defined.

(** The churn risk after two events. *)
Lemma reachable_never_written_witness :
  churn_risk (nth 0 (user_stats db_e1_e2) (new_stats "")) = num_of_Z 0.
Proof.
  destruct (reachable_never_written (B := sample_builtins) db_e1_e2) as (H & _).
  - unfold db_e1_e2, db_e1. by_store. by_store. apply reach_empty.
  - apply (H "u1"). vm_compute. reflexivity.
Defined.

(** The dead letter of Scenario F, written after the click was stored. *)
Lemma log_dead_letter_effect_witness :
  fst (run_dead_letter no_faults purchase_minus_5
         "Invalid amount: -5.0 (must be positive)" "ValueError" db_e1) = inr true /\
  user_events db_dead = user_events db_e1.
Proof.
  destruct (log_dead_letter_effect no_faults purchase_minus_5
              "Invalid amount: -5.0 (must be positive)" "ValueError" "pending"
              (SessionLocal db_e1)
              (fst (run_dead_letter no_faults purchase_minus_5
                      "Invalid amount: -5.0 (must be positive)" "ValueError" db_e1))
              (snd (run_dead_letter no_faults purchase_minus_5
                      "Invalid amount: -5.0 (must be positive)" "ValueError" db_e1)))
    as (Hr & _ & _ & He & _).
  - reflexivity.
  - apply surjective_pairing.
  - split; [exact Hr | exact He].
Defined.

(** The one entry of that queue. *)
Lemma reachable_dead_letter_rows_witness :
  dlq_retry_count (nth 0 (dead_letter_queue db_dead)
                     (dead_letter click_e1 "" "" "")) = 0%Z.
Proof.
  destruct (reachable_dead_letter_rows (B := sample_builtins) db_dead
              (nth 0 (dead_letter_queue db_dead) (dead_letter click_e1 "" "" "")))
    as (H & _).
  - apply (reach_dead_letter (B := sample_builtins) no_faults purchase_minus_5
             "Invalid amount: -5.0 (must be positive)" "ValueError" "pending"
             (SessionLocal db_e1)
             (fst (run_dead_letter no_faults purchase_minus_5
                     "Invalid amount: -5.0 (must be positive)" "ValueError" db_e1))
             (snd (run_dead_letter no_faults purchase_minus_5
                     "Invalid amount: -5.0 (must be positive)" "ValueError" db_e1)));
      [| reflexivity | apply surjective_pairing].
    change (reachable (B := sample_builtins) db_e1).
    unfold db_e1. by_store. apply reach_empty.
  - vm_compute. left. reflexivity.
  - exact H.
Defined.

(** The summary of that queue. *)
Lemma dlq_summary_adds_up_witness :
  list_sum (map snd (by_error_type summary_dead)) = total_failed summary_dead /\
  length (recent_entries summary_dead) = Nat.min 10 (total_failed summary_dead).
Proof.
  destruct (dlq_summary_adds_up None db_dead summary_dead)
    as (_ & _ & _ & _ & Hs & Hl).
  - vm_compute. reflexivity.
  - split; [exact Hs | exact Hl].
Defined.

(** The summaries before and after that dead letter. *)
Lemma dead_letter_shows_in_summary_witness :
  total_failed summary_dead = S (total_failed summary_e1) /\
  error_count "ValueError" (by_error_type summary_dead)
    = (error_count "ValueError" (by_error_type summary_e1) + 1)%nat.
Proof.
  destruct (dead_letter_shows_in_summary no_faults purchase_minus_5
              "Invalid amount: -5.0 (must be positive)" "ValueError" "pending"
              (SessionLocal db_e1)
              (snd (run_dead_letter no_faults purchase_minus_5
                      "Invalid amount: -5.0 (must be positive)" "ValueError" db_e1))
              summary_e1 summary_dead)
    as (Ht & Hc).
  - reflexivity.
  - vm_compute. reflexivity.
  - vm_compute. reflexivity.
  - vm_compute. reflexivity.
  - split; [exact Ht | exact (Hc "ValueError")].
Defined.

(** A click with an empty event id, delivered to the loop at the start. *)
Lemma empty_event_id_counts_as_duplicate_witness :
  find_event "" (w_db (deliver no_faults (message click_unnamed 0) initial_world))
    <> None /\
  w_state (deliver no_faults (message click_unnamed 0) initial_world)
    = incr_duplicates (w_state initial_world).
Proof.
  destruct (empty_event_id_counts_as_duplicate (B := sample_builtins)
              no_faults no_faults true (message click_unnamed 0) initial_world
              (snd (run_store no_faults click_unnamed empty_db)))
    as (Hf & Hs & _).
  - vm_compute. reflexivity.
  - split; [exact Hf | exact Hs].
Defined.

(** Three turns from the start: a record, an undecodable record, a timeout. *)
Lemma main_loop_reachable_witness :
  reachable (B := sample_builtins)
    (w_db (co_world (run_loop None three_turns online))).
Proof.
  apply (main_loop_reachable (B := sample_builtins) None three_turns online).
  apply reach_empty.
Defined.


(** Two records offered with a limit of 1. *)
Lemma main_loop_respects_max_events_witness :
  (processed (w_state (co_world
     (run_loop (Some 1%Z)
        [turn (PollRecord 0 (Some click_e1)) true;
         turn (PollRecord 1 (Some purchase_e2)) true] online)))
   <= Z.max (processed (w_state (co_world online))) 1)%Z.
Proof.
  apply (main_loop_respects_max_events (B := sample_builtins) 1
           [turn (PollRecord 0 (Some click_e1)) true;
            turn (PollRecord 1 (Some purchase_e2)) true] online).
  lia.
Defined.

(** The brokers go down before the first record. *)
Lemma main_loop_brokers_down_witness :
  run_loop None
    [turn (PollError ALL_BROKERS_DOWN) true; turn (PollRecord 0 (Some click_e1)) true]
    online
  = {| co_world := co_world online; co_service := disconnected (co_service online) |}.
Proof.
  apply (main_loop_brokers_down (B := sample_builtins) None
           (turn (PollError ALL_BROKERS_DOWN) true)
           [turn (PollRecord 0 (Some click_e1)) true] online);
    reflexivity.
Defined.

(** The commit of the first record is refused, the second record is undecodable; the commit after the fourth turn covers both. *)
Lemma main_loop_commit_catches_up_witness :
  w_committed (co_world
    (run_loop None (three_turns ++ [turn (PollRecord 2 (Some purchase_e2)) true])
       online)) = 3%Z.
Proof.
  apply (main_loop_commit_catches_up (B := sample_builtins) three_turns
           (turn (PollRecord 2 (Some purchase_e2)) true) 2 purchase_e2 online);
    reflexivity.
Defined.

(** One undecodable record, then the shutdown. *)
Lemma undecodable_record_is_lost_witness :
  w_db (co_world (run_loop None [turn (PollRecord 0 None) true] online)) = empty_db /\
  w_committed (co_world
    (close true (run_loop None [turn (PollRecord 0 None) true] online))) = 1%Z.
Proof.
  destruct (undecodable_record_is_lost (B := sample_builtins) None
              (turn (PollRecord 0 None) true) 0 true online)
    as (Hd & _ & _ & Hc); try reflexivity.
  split; [exact Hd | exact Hc].
Defined.

